(** * Morse contact simulation engine: the contact state machine of [src/js/app.js]

    A shallow embedding of the action handlers [cq], [send], [tu], [stop],
    [reset], [resetGameState], [changeMode] and [applyModeSettings]
    together with the session variables they mutate.

    - Station objects live in a store ([heap]); arrays of stations hold
      references, so that a mutation through [lastRespondingStations] is
      seen through [currentStations].
    - A handler is a computation in a small state monad whose result says
      whether the handler ran to its end, left through [return], or was cut
      short by a [TypeError]; in the last two cases the session keeps the
      effects made so far, as in JavaScript.
    - Timestamps are integers in milliseconds of the audio clock (the source
      has seconds: [0.25] is [250]); [Math.random()] is an input of the
      action, scaled the same way.
    - Strings are held as UTF-8; [trim] removes every white space character
      and line terminator of the language, and [toUpperCase] is the
      runtime's, taken from outside like the matcher.
    - [setupDynamicPersistence] and the listener it registers are embedded
      apart, over the elements of the page and the local storage
      (module [Persistence]). *)

From Stdlib Require Import ZArith Ascii String.
From stdpp Require Import base tactics option list strings gmap pretty.

Local Open Scope string_scope.
Local Open Scope Z_scope.

(** ** Strings as the handlers use them *)

Module JsString.

(** A JavaScript string is held as the bytes of its UTF-8 encoding. A
    character of the ASCII range is one byte, and no byte of a longer
    sequence lies in that range: looking for [?], for a digit or for a
    space byte by byte finds what the source finds character by
    character. *)

(** The white space and the line terminators of one byte: TAB, LF, VT, FF,
    CR and SP. *)
Definition isSpace (c : ascii) : bool :=
  let n := nat_of_ascii c in
  ((9 <=? n)%nat && (n <=? 13)%nat) || (n =? 32)%nat.

(** The white space of two bytes: U+00A0. *)
Definition isSpace2 (a b : ascii) : bool :=
  (nat_of_ascii a =? 194)%nat && (nat_of_ascii b =? 160)%nat.

(** The white space and the line terminators of three bytes: U+1680,
    U+2000 to U+200A, U+2028, U+2029, U+202F, U+205F, U+3000 and U+FEFF. *)
Definition isSpace3 (a b c : ascii) : bool :=
  let x := nat_of_ascii a in
  let y := nat_of_ascii b in
  let z := nat_of_ascii c in
  ((x =? 225)%nat && (y =? 154)%nat && (z =? 128)%nat)
  || ((x =? 226)%nat && (y =? 128)%nat &&
      (((128 <=? z)%nat && (z <=? 138)%nat) || (z =? 168)%nat
       || (z =? 169)%nat || (z =? 175)%nat))
  || ((x =? 226)%nat && (y =? 129)%nat && (z =? 159)%nat)
  || ((x =? 227)%nat && (y =? 128)%nat && (z =? 128)%nat)
  || ((x =? 239)%nat && (y =? 187)%nat && (z =? 191)%nat).

Definition isDigit (c : ascii) : bool :=
  let n := nat_of_ascii c in (48 <=? n)%nat && (n <=? 57)%nat.

(** [String.prototype.trimStart]: the white space characters at the start
    are dropped, whatever their length in bytes. *)
Fixpoint trimStart (s : string) : string :=
  match s with
  | EmptyString => EmptyString
  | String a r =>
      if isSpace a then trimStart r else
      match r with
      | EmptyString => s
      | String b r' =>
          if isSpace2 a b then trimStart r' else
          match r' with
          | EmptyString => s
          | String c r'' => if isSpace3 a b c then trimStart r'' else s
          end
      end
  end.

(** [String.prototype.trimEnd]: the string is cut where only white space
    follows. *)
Fixpoint trimEnd (s : string) : string :=
  match s with
  | EmptyString => EmptyString
  | String c r =>
      if decide (trimStart s = EmptyString) then EmptyString
      else String c (trimEnd r)
  end.

(** [String.prototype.trim]. *)
Definition trim (s : string) : string := trimEnd (trimStart s).

(** [s.includes(c)] for a one-character needle. *)
Fixpoint includes (s : string) (c : ascii) : bool :=
  match s with
  | EmptyString => false
  | String d r => if decide (d = c) then true else includes r c
  end.

(** [s.replace(c, '')] with a string pattern: the first occurrence only. *)
Fixpoint removeFirst (s : string) (c : ascii) : string :=
  match s with
  | EmptyString => EmptyString
  | String d r => if decide (d = c) then r else String d (removeFirst r c)
  end.

(** [s.replace(/\d/g, f)] where [f] maps one digit to a string. *)
Fixpoint replaceDigits (f : ascii -> string) (s : string) : string :=
  match s with
  | EmptyString => EmptyString
  | String c r =>
      if isDigit c then f c +:+ replaceDigits f r
      else String c (replaceDigits f r)
  end.

End JsString.

(** ** Data model *)

(** Timestamps of the audio clock, in milliseconds. *)
Abbreviation Time := Z.

(** A reference to a station object in the store. *)
Abbreviation loc := nat.

(** Modelled from the spec: the Tone Scheduler instance that
    [createMorsePlayer] (audio.js, not part of app.js) builds for a station.
    It is built from the station's timing parameters at the time of the
    call; [pl_id] tells one instance from another. *)
Record Player := mkPlayer {
  pl_id : nat;
  pl_wpm : Z;
  pl_enableFarnsworth : bool;
  pl_farnsworthSpeed : Z
}.

(** A station object: a calling station, or the trainee's own station. The
    exchange attributes (name, state, serial number, ...) are only read by
    the mode's message functions. *)
Record Station := mkStation {
  callsign : string;
  wpm : Z;
  enableFarnsworth : bool;
  farnsworthSpeed : Z;
  attributes : gmap string string;
  player : option Player
}.

Definition set_player (p : option Player) (st : Station) : Station :=
  mkStation (callsign st) (wpm st) (enableFarnsworth st) (farnsworthSpeed st)
            (attributes st) p.

Definition set_farnsworth (on : bool) (speed : Z) (st : Station) : Station :=
  mkStation (callsign st) (wpm st) on speed (attributes st) (player st).

(** The validated trainee configuration, as far as app.js reads it. *)
Record Inputs := mkInputs {
  enableCutNumbers : bool;
  cutNumbers : gmap string string
}.

(** One scheduled transmission. *)
Record Tone := mkTone {
  tone_player : Player;
  tone_text : string;
  tone_start : Time;
  tone_end : Time
}.

(** A row of the results table. *)
Record ContactRecord := mkContact {
  cr_number : nat;
  cr_callsign : string;
  cr_wpm : string;
  cr_attempts : nat;
  cr_elapsed : Time;
  cr_extraInfo : string
}.

Inductive MatchResult := Perfect | Partial | NoMatch.

Global Instance MatchResult_eq_dec : EqDecision MatchResult.
Proof. solve_decision. Defined.

(** The logic configuration of a mode ([modeLogicConfig[mode]]). The message
    functions take [(yourStation, theirStation, arbitrary)]. *)
Record ModeConfig := mkModeConfig {
  showTuStep : bool;
  requiresInfoField : bool;
  requiresInfoField2 : bool;
  extraInfoFieldKey : option string;
  extraInfoFieldKey2 : option string;
  cqMessage : Station -> string;
  yourExchange : Station -> Station -> option string -> string;
  theirExchange : Station -> Station -> option string -> string;
  yourSignoff : Station -> Station -> option string -> string;
  theirSignoff : option (Station -> Station -> option string -> string)
}.

(** The layout configuration of a mode ([modeUIConfig[mode]]), as far as
    [applyModeSettings] acts on the session with it; the placeholders, the
    header texts and the extra column of the table are layout only. *)
Record ModeUi := mkModeUi {
  showTuButton : bool;
  showInfoField : bool;
  showInfoField2 : bool
}.

(** What app.js takes from outside, fixed for a whole session: the two
    tables of modes (modes.js), the matcher (util.js), the time a player
    needs for a text (audio.js), and [String.prototype.toUpperCase] of the
    runtime, whose case mapping covers all of Unicode.
    [extraInfoMarkup] is the markup [compareExtraInfo] builds for a field
    key that is not empty; it is not interpreted here and is kept as a
    function of the key, the input and the station. *)
Class Collaborators := {
  modeLogicConfig : string -> option ModeConfig;
  modeUIConfig : string -> option ModeUi;
  compareStrings : string -> string -> MatchResult;
  extraInfoMarkup : string -> string -> Station -> string;
  playDuration : Player -> string -> Time;
  toUpperCase : string -> string
}.

(** What one action reads from outside the session: the clock, the random
    number generator, the form and the station generator. *)
Record Env := mkEnv {
  now : Time;                    (* audioContext.currentTime *)
  random : Time;                 (* Math.random(), in thousandths *)
  getInputs : option Inputs;     (* None is null *)
  getYourStation : Station;
  getCallingStation : Station;
  arrivals : list Station;       (* the stations addStations generates *)
  enableContinuous : bool
}.

(** The array [lastRespondingStations] points to: nothing yet, the array
    [currentStations] itself, or an array of its own (the result of a
    [filter], or a former [currentStations] array). *)
Inductive ArrayRef :=
| ANull
| ACurrent
| AOwn (stations : list loc).

Inductive UiField := ResponseField | InfoField.

Record Audio := mkAudio {
  lock : Time;
  noise : bool;
  tones : list Tone;
  nextPlayer : nat
}.

Record Ui := mkUi {
  responseField : string;
  infoField : string;
  infoField2 : string;
  cqDisabled : bool;
  activeStations : nat;
  resultsTable : list ContactRecord;
  focus : option UiField
}.

Record Session := mkSession {
  currentMode : string;
  inputs : option Inputs;
  heap : list Station;
  currentStations : list loc;
  currentStation : option loc;
  activeStationIndex : option nat;
  readyForTU : bool;
  currentStationAttempts : nat;
  currentStationStartTime : option Time;
  totalContacts : nat;
  yourStation : option Station;
  lastRespondingStations : ArrayRef;
  audio : Audio;
  ui : Ui
}.


(** Field updates. *)

Definition set_lock (v : Time) (a : Audio) : Audio :=
  mkAudio v (noise a) (tones a) (nextPlayer a).

Definition set_noise (v : bool) (a : Audio) : Audio :=
  mkAudio (lock a) v (tones a) (nextPlayer a).

Definition set_tones (v : list Tone) (a : Audio) : Audio :=
  mkAudio (lock a) (noise a) v (nextPlayer a).

Definition set_nextPlayer (v : nat) (a : Audio) : Audio :=
  mkAudio (lock a) (noise a) (tones a) v.

Definition set_responseField (v : string) (u : Ui) : Ui :=
  mkUi v (infoField u) (infoField2 u) (cqDisabled u) (activeStations u) (resultsTable u) (focus u).

Definition set_infoField (v : string) (u : Ui) : Ui :=
  mkUi (responseField u) v (infoField2 u) (cqDisabled u) (activeStations u) (resultsTable u) (focus u).

Definition set_infoField2 (v : string) (u : Ui) : Ui :=
  mkUi (responseField u) (infoField u) v (cqDisabled u) (activeStations u) (resultsTable u) (focus u).

Definition set_cqDisabled (v : bool) (u : Ui) : Ui :=
  mkUi (responseField u) (infoField u) (infoField2 u) v (activeStations u) (resultsTable u) (focus u).

Definition set_activeStations (v : nat) (u : Ui) : Ui :=
  mkUi (responseField u) (infoField u) (infoField2 u) (cqDisabled u) v (resultsTable u) (focus u).

Definition set_resultsTable (v : list ContactRecord) (u : Ui) : Ui :=
  mkUi (responseField u) (infoField u) (infoField2 u) (cqDisabled u) (activeStations u) v (focus u).

Definition set_focus (v : option UiField) (u : Ui) : Ui :=
  mkUi (responseField u) (infoField u) (infoField2 u) (cqDisabled u) (activeStations u) (resultsTable u) v.

Definition set_currentMode (v : string) (s : Session) : Session :=
  mkSession v (inputs s) (heap s) (currentStations s) (currentStation s) (activeStationIndex s) (readyForTU s) (currentStationAttempts s) (currentStationStartTime s) (totalContacts s) (yourStation s) (lastRespondingStations s) (audio s) (ui s).

Definition set_inputs (v : option Inputs) (s : Session) : Session :=
  mkSession (currentMode s) v (heap s) (currentStations s) (currentStation s) (activeStationIndex s) (readyForTU s) (currentStationAttempts s) (currentStationStartTime s) (totalContacts s) (yourStation s) (lastRespondingStations s) (audio s) (ui s).

Definition set_heap (v : list Station) (s : Session) : Session :=
  mkSession (currentMode s) (inputs s) v (currentStations s) (currentStation s) (activeStationIndex s) (readyForTU s) (currentStationAttempts s) (currentStationStartTime s) (totalContacts s) (yourStation s) (lastRespondingStations s) (audio s) (ui s).

Definition set_currentStations (v : list loc) (s : Session) : Session :=
  mkSession (currentMode s) (inputs s) (heap s) v (currentStation s) (activeStationIndex s) (readyForTU s) (currentStationAttempts s) (currentStationStartTime s) (totalContacts s) (yourStation s) (lastRespondingStations s) (audio s) (ui s).

Definition set_currentStation (v : option loc) (s : Session) : Session :=
  mkSession (currentMode s) (inputs s) (heap s) (currentStations s) v (activeStationIndex s) (readyForTU s) (currentStationAttempts s) (currentStationStartTime s) (totalContacts s) (yourStation s) (lastRespondingStations s) (audio s) (ui s).

Definition set_activeStationIndex (v : option nat) (s : Session) : Session :=
  mkSession (currentMode s) (inputs s) (heap s) (currentStations s) (currentStation s) v (readyForTU s) (currentStationAttempts s) (currentStationStartTime s) (totalContacts s) (yourStation s) (lastRespondingStations s) (audio s) (ui s).

Definition set_readyForTU (v : bool) (s : Session) : Session :=
  mkSession (currentMode s) (inputs s) (heap s) (currentStations s) (currentStation s) (activeStationIndex s) v (currentStationAttempts s) (currentStationStartTime s) (totalContacts s) (yourStation s) (lastRespondingStations s) (audio s) (ui s).

Definition set_currentStationAttempts (v : nat) (s : Session) : Session :=
  mkSession (currentMode s) (inputs s) (heap s) (currentStations s) (currentStation s) (activeStationIndex s) (readyForTU s) v (currentStationStartTime s) (totalContacts s) (yourStation s) (lastRespondingStations s) (audio s) (ui s).

Definition set_currentStationStartTime (v : option Time) (s : Session) : Session :=
  mkSession (currentMode s) (inputs s) (heap s) (currentStations s) (currentStation s) (activeStationIndex s) (readyForTU s) (currentStationAttempts s) v (totalContacts s) (yourStation s) (lastRespondingStations s) (audio s) (ui s).

Definition set_totalContacts (v : nat) (s : Session) : Session :=
  mkSession (currentMode s) (inputs s) (heap s) (currentStations s) (currentStation s) (activeStationIndex s) (readyForTU s) (currentStationAttempts s) (currentStationStartTime s) v (yourStation s) (lastRespondingStations s) (audio s) (ui s).

Definition set_yourStation (v : option Station) (s : Session) : Session :=
  mkSession (currentMode s) (inputs s) (heap s) (currentStations s) (currentStation s) (activeStationIndex s) (readyForTU s) (currentStationAttempts s) (currentStationStartTime s) (totalContacts s) v (lastRespondingStations s) (audio s) (ui s).

Definition set_lastRespondingStations (v : ArrayRef) (s : Session) : Session :=
  mkSession (currentMode s) (inputs s) (heap s) (currentStations s) (currentStation s) (activeStationIndex s) (readyForTU s) (currentStationAttempts s) (currentStationStartTime s) (totalContacts s) (yourStation s) v (audio s) (ui s).

Definition set_audio (v : Audio) (s : Session) : Session :=
  mkSession (currentMode s) (inputs s) (heap s) (currentStations s) (currentStation s) (activeStationIndex s) (readyForTU s) (currentStationAttempts s) (currentStationStartTime s) (totalContacts s) (yourStation s) (lastRespondingStations s) v (ui s).

Definition set_ui (v : Ui) (s : Session) : Session :=
  mkSession (currentMode s) (inputs s) (heap s) (currentStations s) (currentStation s) (activeStationIndex s) (readyForTU s) (currentStationAttempts s) (currentStationStartTime s) (totalContacts s) (yourStation s) (lastRespondingStations s) (audio s) v.

(** ** Handlers as computations

    [Normal a]: the code ran to its end with value [a]; [Return]: it left
    through a [return] statement; [Throw]: a [TypeError] cut it short (a
    property read on [null] or [undefined], a call of something that is no
    function). The session a computation returns holds every effect made
    before it stopped. *)

Inductive Completion (A : Type) :=
| Normal (a : A)
| Return
| Throw.

Arguments Normal {A} a.
Arguments Return {A}.
Arguments Throw {A}.

Definition Js (A : Type) : Type := Session -> Completion A * Session.

Definition ret {A} (a : A) : Js A := fun s => (Normal a, s).

Definition bind {A B} (m : Js A) (k : A -> Js B) : Js B :=
  fun s =>
    match m s with
    | (Normal a, s') => k a s'
    | (Return, s') => (Return, s')
    | (Throw, s') => (Throw, s')
    end.

Notation "'let*' x ':=' m 'in' k" := (bind m (fun x => k))
  (at level 10, x name, m at level 100, k at level 200).
Notation "m ';;;' k" := (bind m (fun _ => k))
  (at level 100, k at level 200, right associativity).

Definition gets {A} (f : Session -> A) : Js A := fun s => (Normal (f s), s).
Definition modify (f : Session -> Session) : Js unit := fun s => (Normal tt, f s).
Definition exit {A} : Js A := fun s => (Return, s).
Definition throw {A} : Js A := fun s => (Throw, s).

(** A call of a function of app.js: its [return] ends the callee only. *)
Definition call (m : Js unit) : Js unit :=
  fun s =>
    match m s with
    | (Return, s') => (Normal tt, s')
    | r => r
    end.

(** [o.f] where [o] may be [null] or [undefined]. *)
Definition deref {A} (o : option A) : Js A :=
  match o with
  | Some a => ret a
  | None => throw
  end.

(** The session after a handler, whatever way it stopped. *)
Definition exec {A} (m : Js A) (s : Session) : Session := snd (m s).

Definition modify_audio (f : Audio -> Audio) : Js unit :=
  modify (fun s => set_audio (f (audio s)) s).

Definition modify_ui (f : Ui -> Ui) : Js unit :=
  modify (fun s => set_ui (f (ui s)) s).

Section Engine.

Context {C : Collaborators}.

(** ** The audio module (audio.js), as the spec describes it *)

(** Modelled from the spec: [getAudioLock] of audio.js, which "returns true
    iff Clock.now < Lock". *)
Definition getAudioLock (env : Env) : Js bool :=
  gets (fun s => now env <? lock (audio s)).

(** Modelled from the spec: [updateAudioLock] of audio.js; the lock is "an
    explicit watermark independent of the Clock, updated by callers via
    updateAudioLock(timestamp)". *)
Definition updateAudioLock (t : Time) : Js unit :=
  modify_audio (set_lock t).

(** Modelled from the spec: [isBackgroundStaticPlaying] of audio.js, the
    is-playing query of the noise layer. *)
Definition isBackgroundStaticPlaying : Js bool :=
  gets (fun s => noise (audio s)).

(** Modelled from the spec: [createBackgroundStatic] of audio.js, which
    starts the noise layer. *)
Definition createBackgroundStatic : Js unit :=
  modify_audio (set_noise true).

(** Modelled from the spec: [stopAllAudio] of audio.js: stop-all silences
    the noise layer and "all in-flight tone events", and the stop action,
    whose only audio call it is, "silences all audio and unlocks
    immediately". *)
Definition stopAllAudio : Js unit :=
  modify_audio (fun a => set_lock 0 (set_noise false (set_tones [] a))).

(** Modelled from the spec: [createMorsePlayer] of audio.js: a new Tone
    Scheduler instance for the station's present timing parameters. *)
Definition createMorsePlayer (st : Station) : Js Player :=
  let* n := gets (fun s => nextPlayer (audio s)) in
  modify_audio (set_nextPlayer (S n)) ;;;
  ret (mkPlayer n (wpm st) (enableFarnsworth st) (farnsworthSpeed st)).

(** Modelled from the spec: [playSentence] of a player of audio.js. The
    text is scheduled "starting no earlier than the later of the requested
    start time and the current lock" and the timestamp at which it ends is
    returned; the "empty string returns the start timestamp unchanged". With
    no start time the clock's time is taken. *)
Definition playSentence (env : Env) (p : Player) (text : string)
    (start : option Time) : Js Time :=
  let requested := default (now env) start in
  if decide (text = "") then ret requested
  else
    let* l := gets (fun s => lock (audio s)) in
    let t0 := Z.max requested l in
    let t1 := t0 + playDuration p text in
    modify_audio (fun a => set_tones (tones a ++ [mkTone p text t0 t1]) a) ;;;
    ret t1.

(** ** The helpers of util.js, as the spec describes them *)

(** Modelled from the spec: [updateActiveStations] of util.js, the "current
    Station Registry size" shown to the trainee. *)
Definition updateActiveStations (n : nat) : Js unit :=
  modify_ui (set_activeStations n).

(** Modelled from the spec: [clearTable] of util.js, the "clear-on-reset"
    of the table of contact records. *)
Definition clearTable : Js unit :=
  modify_ui (set_resultsTable []).

(** Modelled from the spec: [addTableRow] of util.js, the "append-only table
    of ContactRecord". *)
Definition addTableRow (r : ContactRecord) : Js unit :=
  modify_ui (fun u => set_resultsTable (resultsTable u ++ [r]) u).

(** A new object in the store. *)
Definition alloc (st : Station) : Js loc :=
  let* l := gets (fun s => length (heap s)) in
  modify (fun s => set_heap (heap s ++ [st]) s) ;;;
  ret l.

Definition stationAt (l : loc) : Js Station :=
  let* h := gets heap in deref (h !! l).

Definition updateStation (l : loc) (f : Station -> Station) : Js unit :=
  modify (fun s => set_heap (alter f l (heap s)) s).

(** Modelled from the spec: [addStations(currentStations, inputs)] of
    util.js, which "populates the Station Registry with new stations": the
    stations the generator produces are pushed onto the array, and the
    number of stations on frequency shown is brought up to date. How many
    stations the settings ask for is part of the environment ([arrivals]);
    what the function does with settings that are [null] is written
    nowhere, and the properties below that depend on it say so. *)
Fixpoint pushStations (sts : list Station) : Js unit :=
  match sts with
  | [] => ret tt
  | st :: rest =>
      let* l := alloc st in
      modify (fun s => set_currentStations (currentStations s ++ [l]) s) ;;;
      pushStations rest
  end.

Definition addStations (env : Env) (inp : option Inputs) : Js unit :=
  pushStations (arrivals env) ;;;
  let* cs := gets currentStations in
  updateActiveStations (length cs).

(** Modelled from the spec: whether the Tone Scheduler instance [p] was
    built for the timing parameters the station has now. *)
Definition builtFor (p : Player) (stn : Station) : bool :=
  bool_decide (pl_wpm p = wpm stn) &&
  bool_decide (pl_enableFarnsworth p = enableFarnsworth stn) &&
  bool_decide (pl_farnsworthSpeed p = farnsworthSpeed stn).

(** Modelled from the spec: [respondWithAllStations(stations, start)] of
    util.js: every station of the array sends its callsign, "each station's
    reply is scheduled to start after the previous one's computed end". A
    station's player is "created lazily, replaced if timing parameters
    change": a station that has no player, or one built for other timing
    parameters than it has now, gets a new one before it sends. *)
Fixpoint respondWithAllStations (env : Env) (stations : list loc)
    (start : Time) : Js unit :=
  match stations with
  | [] => ret tt
  | l :: rest =>
      let* stn := stationAt l in
      let newPlayer : Js Player :=
        let* p := createMorsePlayer stn in
        updateStation l (set_player (Some p)) ;;;
        ret p in
      let* p :=
        match player stn with
        | Some p => if builtFor p stn then ret p else newPlayer
        | None => newPlayer
        end in
      let* t := playSentence env p (callsign stn) (Some start) in
      updateAudioLock t ;;;
      respondWithAllStations env rest t
  end.

(** ** app.js *)

Definition farnsworthLowerBy : Z := 6.

Definition getModeConfig : Js (option ModeConfig) :=
  gets (fun s => modeLogicConfig (currentMode s)).

(** [currentStations = []]: the variable gets a new array; an alias of the
    former array keeps the former array. *)
Definition newCurrentStations : Js unit :=
  modify (fun s =>
    set_currentStations []
      (set_lastRespondingStations
         (match lastRespondingStations s with
          | ACurrent => AOwn (currentStations s)
          | r => r
          end) s)).

(** The array [lastRespondingStations] points to. *)
Definition arrayOf (r : ArrayRef) (s : Session) : option (list loc) :=
  match r with
  | ANull => None
  | ACurrent => Some (currentStations s)
  | AOwn ls => Some ls
  end.

Definition resetGameState : Js unit :=
  newCurrentStations ;;;
  modify (set_currentStation None) ;;;
  modify (set_activeStationIndex None) ;;;
  modify (set_readyForTU false) ;;;
  modify (set_currentStationAttempts 0%nat) ;;;
  modify (set_currentStationStartTime None) ;;;
  modify (set_totalContacts 0%nat) ;;;
  updateActiveStations 0 ;;;
  clearTable ;;;
  modify_ui (set_responseField "") ;;;
  modify_ui (set_infoField "") ;;;
  modify_ui (set_infoField2 "") ;;;
  modify_ui (set_cqDisabled false) ;;;
  stopAllAudio ;;;
  updateAudioLock 0.

(** [applyModeSettings]: the first read of a property of
    [modeUIConfig[mode]] raises when the table has no such mode. Of what
    follows, the display of the TU button and of the fields, the
    placeholders and the headers are layout; an info field that is not
    shown is emptied. *)
Definition applyModeSettings (mode : string) : Js unit :=
  let* config := deref (modeUIConfig mode) in
  (if showInfoField config then ret tt
   else modify_ui (set_infoField "")) ;;;
  (if showInfoField2 config then ret tt
   else modify_ui (set_infoField2 "")).

(** Modelled from the spec: [clearAllInvalidStates] of inputs.js. The
    marks on the fields of the settings form belong to the "excluded UI
    layer"; no variable of the session changes. *)
Definition clearAllInvalidStates : Js unit := ret tt.

(** [changeMode]; [selectedMode] is the value of the radio button that is
    checked. The [localStorage] entry it writes is read when the page
    loads (the argument of [loaded]). *)
Definition changeMode (selectedMode : string) : Js unit :=
  modify (set_currentMode selectedMode) ;;;
  call resetGameState ;;;
  clearAllInvalidStates ;;;
  let* mode := gets currentMode in
  call (applyModeSettings mode).

Definition nextSingleStation (env : Env) (responseStartTime : Time) : Js unit :=
  let* modeConfig := getModeConfig in
  let callingStation := getCallingStation env in
  let* l := alloc callingStation in
  modify (set_currentStation (Some l)) ;;;
  modify (set_currentStationAttempts 0%nat) ;;;
  updateActiveStations 1 ;;;
  let* p := createMorsePlayer callingStation in
  updateStation l (set_player (Some p)) ;;;
  let* theirResponseTimer :=
    playSentence env p (callsign callingStation)
      (Some (responseStartTime + random env + 1000)) in
  updateAudioLock theirResponseTimer ;;;
  modify (set_currentStationStartTime (Some theirResponseTimer)) ;;;
  modify_ui (set_responseField "") ;;;
  modify_ui (set_focus (Some ResponseField)) ;;;
  let* cfg := deref modeConfig in
  modify_ui (set_cqDisabled (negb (showTuStep cfg))).

Definition cq (env : Env) : Js unit :=
  let* locked := getAudioLock env in
  if locked : bool then exit else
  let* modeConfig := getModeConfig in
  let* cfg := deref modeConfig in
  let* cur := gets currentStation in
  if negb (showTuStep cfg) && bool_decide (cur <> None) then exit else
  let* playing := isBackgroundStaticPlaying in
  let* backgroundStaticDelay :=
    (if negb playing
     then createBackgroundStatic ;;; ret 2000
     else ret 0) in
  modify (set_inputs (getInputs env)) ;;;
  match getInputs env with
  | None => exit
  | Some inp =>
      modify (set_yourStation (Some (getYourStation env))) ;;;
      let* p := createMorsePlayer (getYourStation env) in
      let you := set_player (Some p) (getYourStation env) in
      modify (set_yourStation (Some you)) ;;;
      let cqMsg := cqMessage cfg you in
      let* yourResponseTimer :=
        playSentence env p cqMsg (Some (now env + backgroundStaticDelay)) in
      updateAudioLock yourResponseTimer ;;;
      if showTuStep cfg then
        addStations env (Some inp) ;;;
        let* cs := gets currentStations in
        respondWithAllStations env cs yourResponseTimer ;;;
        modify (set_lastRespondingStations ACurrent)
      else
        modify_ui (set_cqDisabled true) ;;;
        call (nextSingleStation env yourResponseTimer)
  end.

(** The QRS step on one station (the body of the [forEach] of the
    multi-station branch, and the same statements of the single branch). *)
Definition slowDown (stn : Station) : Station :=
  if enableFarnsworth stn
  then set_farnsworth (enableFarnsworth stn)
         (Z.max 5 (farnsworthSpeed stn - farnsworthLowerBy)) stn
  else set_farnsworth true (wpm stn - farnsworthLowerBy) stn.

Fixpoint forEachSlowDown (stations : list loc) : Js unit :=
  match stations with
  | [] => ret tt
  | l :: rest => updateStation l slowDown ;;; forEachSlowDown rest
  end.

(** [cutMap[digit] || digit]: the empty string is falsy. *)
Definition cutDigit (cutMap : gmap string string) (digit : ascii) : string :=
  match cutMap !! String digit "" with
  | Some letter => if decide (letter = "") then String digit "" else letter
  | None => String digit ""
  end.

Definition cutNumbersOf (cutMap : gmap string string) (text : string) : string :=
  JsString.replaceDigits (cutDigit cutMap) text.

Definition isRepeatRequest (text : string) : bool :=
  bool_decide (text = "?") || bool_decide (text = "AGN")
  || bool_decide (text = "AGN?").

Fixpoint stationsAt (ls : list loc) : Js (list Station) :=
  match ls with
  | [] => ret []
  | l :: rest =>
      let* stn := stationAt l in
      let* stns := stationsAt rest in
      ret (stn :: stns)
  end.

(** [results.indexOf('perfect')], [None] when [results.includes('perfect')]
    is false. *)
Definition indexOfPerfect (results : list MatchResult) : option nat :=
  fst <$> list_find (fun r => r = Perfect) results.

(** [currentStations.filter((_, index) => results[index] === 'partial')]. *)
Fixpoint filterPartial (ls : list loc) (results : list MatchResult) : list loc :=
  match ls, results with
  | l :: ls', r :: results' =>
      if decide (r = Partial) then l :: filterPartial ls' results'
      else filterPartial ls' results'
  | _, _ => []
  end.

Definition wpmString (stn : Station) : string :=
  pretty (wpm stn) +:+
  (if enableFarnsworth stn then " / " +:+ pretty (farnsworthSpeed stn) else "").

(** [audioContext.currentTime - currentStationStartTime], where [null]
    counts as 0. *)
Definition elapsed (env : Env) (start : option Time) : Time :=
  now env - default 0 start.

Definition incrementAttempts : Js unit :=
  modify (fun s => set_currentStationAttempts (S (currentStationAttempts s)) s).

Definition incrementContacts : Js unit :=
  modify (fun s => set_totalContacts (S (totalContacts s)) s).

(** The multi-station branch of [send], after the empty-array check. *)
Definition sendMulti (env : Env) (cfg : ModeConfig) (responseFieldText : string)
    : Js unit :=
  let* you := (let* y := gets yourStation in deref y) in
  let* yourPlayer := deref (player you) in
  let* yourResponseTimer := playSentence env yourPlayer responseFieldText None in
  updateAudioLock yourResponseTimer ;;;
  if isRepeatRequest responseFieldText then
    let* cs := gets currentStations in
    respondWithAllStations env cs yourResponseTimer ;;;
    modify (set_lastRespondingStations ACurrent) ;;;
    incrementAttempts ;;;
    exit
  else if bool_decide (responseFieldText = "QRS") then
    let* targets :=
      (let* a := gets (fun s => arrayOf (lastRespondingStations s) s) in
       deref a) in
    forEachSlowDown targets ;;;
    respondWithAllStations env targets yourResponseTimer ;;;
    incrementAttempts ;;;
    exit
  else
    let* cs := gets currentStations in
    let* stns := stationsAt cs in
    let results :=
      (fun stn =>
         compareStrings (callsign stn)
           (JsString.removeFirst responseFieldText "?")) <$> stns in
    let hasQuestionMark := JsString.includes responseFieldText "?" in
    match indexOfPerfect results with
    | Some matchIndex =>
        let* l := deref (cs !! matchIndex) in
        if hasQuestionMark then
          let* stn := stationAt l in
          let* theirPlayer := deref (player stn) in
          let* theirResponseTimer :=
            playSentence env theirPlayer "RR" (Some (yourResponseTimer + 250)) in
          updateAudioLock theirResponseTimer ;;;
          incrementAttempts ;;;
          exit
        else
          let* stn := stationAt l in
          let yourExchange0 := " " +:+ yourExchange cfg you stn None in
          let theirExchange0 := theirExchange cfg you stn None in
          let* inp := (let* i := gets inputs in deref i) in
          let yourExchange1 :=
            if enableCutNumbers inp
            then cutNumbersOf (cutNumbers inp) yourExchange0
            else yourExchange0 in
          let theirExchange1 :=
            if enableCutNumbers inp
            then cutNumbersOf (cutNumbers inp) theirExchange0
            else theirExchange0 in
          let* yourResponseTimer2 :=
            playSentence env yourPlayer yourExchange1 (Some yourResponseTimer) in
          updateAudioLock yourResponseTimer2 ;;;
          let* theirPlayer := deref (player stn) in
          let* theirResponseTimer :=
            playSentence env theirPlayer theirExchange1
              (Some (yourResponseTimer2 + 500)) in
          updateAudioLock theirResponseTimer ;;;
          incrementAttempts ;;;
          (if requiresInfoField cfg
           then modify_ui (set_focus (Some InfoField))
           else ret tt) ;;;
          modify (set_readyForTU true) ;;;
          modify (set_activeStationIndex (Some matchIndex)) ;;;
          exit
    | None =>
        if bool_decide (Partial ∈ results) then
          let partialMatchStations := filterPartial cs results in
          respondWithAllStations env partialMatchStations yourResponseTimer ;;;
          modify (set_lastRespondingStations (AOwn partialMatchStations)) ;;;
          incrementAttempts ;;;
          exit
        else
          (* No matches at all *)
          incrementAttempts
    end.

(** The single-mode branch of [send], after the [currentStation === null]
    check; [l] is the station [currentStation] refers to. *)
Definition sendSingle (env : Env) (cfg : ModeConfig) (l : loc)
    (responseFieldText : string) : Js unit :=
  let* you := (let* y := gets yourStation in deref y) in
  let* yourPlayer := deref (player you) in
  let* yourResponseTimer := playSentence env yourPlayer responseFieldText None in
  updateAudioLock yourResponseTimer ;;;
  let repeatCallsign : Js unit :=
    let* stn := stationAt l in
    let* theirPlayer := deref (player stn) in
    let* theirResponseTimer :=
      playSentence env theirPlayer (callsign stn)
        (Some (yourResponseTimer + random env + 250)) in
    updateAudioLock theirResponseTimer in
  if isRepeatRequest responseFieldText then
    repeatCallsign ;;;
    incrementAttempts ;;;
    exit
  else if bool_decide (responseFieldText = "QRS") then
    stationAt l ;;;
    updateStation l slowDown ;;;
    (* Create a new player *)
    let* stn := stationAt l in
    let* p := createMorsePlayer stn in
    updateStation l (set_player (Some p)) ;;;
    let* theirResponseTimer :=
      playSentence env p (callsign stn)
        (Some (yourResponseTimer + random env + 250)) in
    updateAudioLock theirResponseTimer ;;;
    incrementAttempts ;;;
    exit
  else
    let* stn := stationAt l in
    let compareResult :=
      compareStrings (callsign stn)
        (JsString.removeFirst responseFieldText "?") in
    match compareResult with
    | Perfect =>
        incrementAttempts ;;;
        if JsString.includes responseFieldText "?" then
          let* theirPlayer := deref (player stn) in
          let* theirResponseTimer :=
            playSentence env theirPlayer "RR" (Some (yourResponseTimer + 1000)) in
          updateAudioLock theirResponseTimer ;;;
          exit
        else
          (* Perfect match confirmed in single mode *)
          let yourExchange0 := " " +:+ yourExchange cfg you stn None in
          let theirExchange0 := theirExchange cfg you stn None in
          let* yourResponseTimer2 :=
            playSentence env yourPlayer yourExchange0 (Some yourResponseTimer) in
          updateAudioLock yourResponseTimer2 ;;;
          let* theirPlayer := deref (player stn) in
          let* theirResponseTimer :=
            playSentence env theirPlayer theirExchange0
              (Some (yourResponseTimer2 + 500)) in
          updateAudioLock theirResponseTimer ;;;
          let yourSignoff0 := yourSignoff cfg you stn None in
          let* yourResponseTimer3 :=
            playSentence env yourPlayer yourSignoff0
              (Some (theirResponseTimer + 500)) in
          updateAudioLock yourResponseTimer3 ;;;
          let* theirSignoffFn := deref (theirSignoff cfg) in
          let theirSignoff0 := theirSignoffFn you stn None in
          let* theirResponseTimer2 :=
            playSentence env theirPlayer theirSignoff0
              (Some (yourResponseTimer3 + 500)) in
          updateAudioLock theirResponseTimer2 ;;;
          incrementContacts ;;;
          let* n := gets totalContacts in
          let* attempts := gets currentStationAttempts in
          let* start := gets currentStationStartTime in
          addTableRow
            (mkContact n (callsign stn) (wpmString stn) attempts
               (elapsed env start) "") ;;;
          call (nextSingleStation env theirResponseTimer2) ;;;
          exit
    | Partial =>
        incrementAttempts ;;;
        repeatCallsign ;;;
        exit
    | NoMatch =>
        (* No match in single mode *)
        incrementAttempts ;;;
        repeatCallsign
    end.

Definition send (env : Env) : Js unit :=
  let* locked := getAudioLock env in
  if locked : bool then exit else
  let* modeConfig := getModeConfig in
  let* field := gets (fun s => responseField (ui s)) in
  let responseFieldText := toUpperCase (JsString.trim field) in
  if decide (responseFieldText = "") then
    let* cs := gets currentStations in
    (if decide (length cs = 0%nat) then call (cq env) else ret tt) ;;;
    exit
  else
    let* cfg := deref modeConfig in
    if showTuStep cfg then
      (* Multi-station scenario *)
      let* cs := gets currentStations in
      if decide (length cs = 0%nat) then exit
      else sendMulti env cfg responseFieldText
    else
      (* Single mode *)
      let* cur := gets currentStation in
      match cur with
      | None => exit
      | Some l => sendSingle env cfg l responseFieldText
      end.

(** [compareExtraInfo]: the empty string when there is no field key. *)
Definition compareExtraInfo (fieldKey : option string) (userInput : string)
    (callingStation : Station) : string :=
  match fieldKey with
  | Some key =>
      if decide (key = "") then ""
      else extraInfoMarkup key userInput callingStation
  | None => ""
  end.

(** A non-empty string is truthy. *)
Definition truthyKey (k : option string) : bool :=
  match k with
  | Some key => negb (bool_decide (key = ""))
  | None => false
  end.

(** [tu]. When [currentStations[activeStationIndex]] is [undefined] the
    first read of one of its properties raises; that read is in
    [compareExtraInfo] or in the mode's message functions, and is placed
    before them here. *)
Definition tu (env : Env) : Js unit :=
  let* locked := getAudioLock env in
  if locked : bool then exit else
  let* modeConfig := getModeConfig in
  let* cfg := deref modeConfig in
  let* ready := gets readyForTU in
  if negb (showTuStep cfg) || negb ready then exit else
  let* infoValue1 := gets (fun s => JsString.trim (infoField (ui s))) in
  let* infoValue2 := gets (fun s => JsString.trim (infoField2 (ui s))) in
  let* cs := gets currentStations in
  let* index := gets activeStationIndex in
  incrementContacts ;;;
  let* i := deref index in
  let* l := deref (cs !! i) in
  let* currentStation := stationAt l in
  (* Compare both fields if required *)
  let extraInfo1 := compareExtraInfo (extraInfoFieldKey cfg) infoValue1 currentStation in
  let extraInfo :=
    if requiresInfoField2 cfg && truthyKey (extraInfoFieldKey2 cfg)
    then (if decide (extraInfo1 = "") then extraInfo1 else extraInfo1 +:+ " / ")
         +:+ compareExtraInfo (extraInfoFieldKey2 cfg) infoValue2 currentStation
    else extraInfo1 in
  let* mode := gets currentMode in
  let arbitrary :=
    if decide (mode = "sst") then Some infoValue1
    else if decide (mode = "pota") then Some infoValue1
    else None in
  let* you := (let* y := gets yourStation in deref y) in
  let yourSignoffMessage := yourSignoff cfg you currentStation arbitrary in
  let* yourPlayer := deref (player you) in
  let* yourResponseTimer :=
    playSentence env yourPlayer yourSignoffMessage (Some (now env + 500)) in
  updateAudioLock yourResponseTimer ;;;
  let* responseTimerToUse :=
    match theirSignoff cfg with
    | Some theirSignoffFn =>
        let theirSignoffMessage := theirSignoffFn you currentStation None in
        let* theirPlayer := deref (player currentStation) in
        let* theirResponseTimer :=
          playSentence env theirPlayer theirSignoffMessage
            (Some (yourResponseTimer + 500)) in
        updateAudioLock theirResponseTimer ;;;
        ret theirResponseTimer
    | None => ret yourResponseTimer
    end in
  (* Add the QSO result to the table *)
  let* n := gets totalContacts in
  let* attempts := gets currentStationAttempts in
  let* start := gets currentStationStartTime in
  addTableRow
    (mkContact n (callsign currentStation) (wpmString currentStation) attempts
       (elapsed env start) extraInfo) ;;;
  (* Remove the worked station *)
  modify (fun s => set_currentStations (delete i (currentStations s)) s) ;;;
  modify (set_activeStationIndex None) ;;;
  modify (set_currentStationAttempts 0%nat) ;;;
  modify (set_readyForTU false) ;;;
  let* cs' := gets currentStations in
  updateActiveStations (length cs') ;;;
  modify_ui (set_responseField "") ;;;
  modify_ui (set_infoField "") ;;;
  modify_ui (set_infoField2 "") ;;;
  modify_ui (set_focus (Some ResponseField)) ;;;
  (* Chance of a new station joining *)
  let* inp := gets inputs in
  (if (random env <? 400) || enableContinuous env
   then addStations env inp
   else ret tt) ;;;
  let* cs'' := gets currentStations in
  respondWithAllStations env cs'' responseTimerToUse ;;;
  modify (set_lastRespondingStations ACurrent) ;;;
  modify (set_currentStationStartTime (Some (now env))).

Definition stop : Js unit :=
  stopAllAudio ;;;
  modify_ui (set_cqDisabled false) ;;;
  let* mode := gets currentMode in
  if decide (mode = "single") then
    modify (set_currentStation None) ;;;
    modify (set_currentStationAttempts 0%nat) ;;;
    modify (set_currentStationStartTime None) ;;;
    updateActiveStations 0
  else ret tt.

Definition reset : Js unit :=
  clearTable ;;;
  modify (set_totalContacts 0%nat) ;;;
  modify (set_currentStation None) ;;;
  modify (set_currentStationAttempts 0%nat) ;;;
  modify (set_currentStationStartTime None) ;;;
  newCurrentStations ;;;
  modify (set_activeStationIndex None) ;;;
  modify (set_readyForTU false) ;;;
  updateActiveStations 0 ;;;
  updateAudioLock 0 ;;;
  stopAllAudio ;;;
  modify_ui (set_responseField "") ;;;
  modify_ui (set_infoField "") ;;;
  modify_ui (set_infoField2 "") ;;;
  modify_ui (set_focus (Some ResponseField)) ;;;
  modify_ui (set_cqDisabled false).

(** ** Sessions *)

(** The module-level variables as app.js declares them. *)
Definition declared : Session :=
  mkSession "" None [] [] None None false 0%nat None 0%nat None ANull
    (mkAudio 0 false [] 0%nat)
    (mkUi "" "" "" false 0%nat [] None).

(** The session once the page has loaded: the saved mode, then
    [resetGameState] and [applyModeSettings], with whatever the latter did
    before it raised when the saved mode is not in [modeUIConfig]. *)
Definition loaded (savedMode : string) : Session :=
  exec (call resetGameState ;;; call (applyModeSettings savedMode))
       (set_currentMode savedMode declared).

(** What the trainee and the page can do between two handlers. *)
Inductive Action :=
| Cq
| Send
| Tu
| Stop
| Reset
| ChangeMode (selectedMode : string)
| TypeResponse (text : string)
| TypeInfo (text : string)
| TypeInfo2 (text : string).

Definition handler (env : Env) (a : Action) : Js unit :=
  match a with
  | Cq => cq env
  | Send => send env
  | Tu => tu env
  | Stop => stop
  | Reset => reset
  | ChangeMode m => changeMode m
  | TypeResponse text => modify_ui (set_responseField text)
  | TypeInfo text => modify_ui (set_infoField text)
  | TypeInfo2 text => modify_ui (set_infoField2 text)
  end.

Definition step (s : Session) (ea : Env * Action) : Session :=
  exec (handler (fst ea) (snd ea)) s.

Definition run (s : Session) (trace : list (Env * Action)) : Session :=
  foldl step s trace.

End Engine.

(** ** Reasoning about handlers

    [wp m Q R T s]: run from [s], [m] ends normally in a state and with a
    value that satisfy [Q], or returns in a state that satisfies [R], or
    raises in a state that satisfies [T]. *)

Definition wp {A} (m : Js A) (Q : A -> Session -> Prop)
    (R T : Session -> Prop) (s : Session) : Prop :=
  match m s with
  | (Normal a, s') => Q a s'
  | (Return, s') => R s'
  | (Throw, s') => T s'
  end.


(** ** A small world to run the handlers in

    Two modes in the shape of modes.js (a single mode without TU step, a
    contest mode with one), a matcher that takes equality as perfect and a
    proper prefix as partial, tones of 100 ms a character, and the upper
    case of the letters a to z, which is what [String.prototype.toUpperCase]
    does on the ASCII texts typed in this world. *)

Module Demo.

Definition singleMode : ModeConfig :=
  mkModeConfig false false false None None
    (fun you => "CQ DE " +:+ callsign you +:+ " K")
    (fun _ them _ => callsign them +:+ " UR 5NN")
    (fun _ _ _ => "R UR 5NN")
    (fun _ _ _ => "TU 73")
    (Some (fun _ _ _ => "EE")).

Definition contestMode : ModeConfig :=
  mkModeConfig true true false (Some "serialNumber") None
    (fun you => "CQ TEST " +:+ callsign you)
    (fun _ them _ => callsign them +:+ " 5NN 001")
    (fun _ them _ => "5NN " +:+ default "" (attributes them !! "serialNumber"))
    (fun you _ _ => "TU " +:+ callsign you)
    None.

Definition modes (mode : string) : option ModeConfig :=
  if decide (mode = "single") then Some singleMode
  else if decide (mode = "contest") then Some contestMode
  else None.

Fixpoint isPrefix (p s : string) : bool :=
  match p, s with
  | EmptyString, _ => true
  | String a p', String b s' => bool_decide (a = b) && isPrefix p' s'
  | String _ _, EmptyString => false
  end.

Definition compare (expected candidate : string) : MatchResult :=
  if decide (candidate = expected) then Perfect
  else if negb (bool_decide (candidate = "")) && isPrefix candidate expected
  then Partial
  else NoMatch.

Definition layouts (mode : string) : option ModeUi :=
  if decide (mode = "single") then Some (mkModeUi false false false)
  else if decide (mode = "contest") then Some (mkModeUi true true false)
  else None.

Definition isLower (c : ascii) : bool :=
  let n := nat_of_ascii c in (97 <=? n)%nat && (n <=? 122)%nat.

Definition upperChar (c : ascii) : ascii :=
  if isLower c then ascii_of_nat (nat_of_ascii c - 32) else c.

Fixpoint upperCase (s : string) : string :=
  match s with
  | EmptyString => EmptyString
  | String c r => String (upperChar c) (upperCase r)
  end.

Definition world : Collaborators :=
  {| modeLogicConfig := modes;
     modeUIConfig := layouts;
     compareStrings := compare;
     extraInfoMarkup := fun _ userInput _ => userInput;
     playDuration := fun _ text => 100 * Z.of_nat (String.length text);
     toUpperCase := upperCase |}.

(** The no-break space U+00A0, in UTF-8. *)
Definition nbsp : string := String "194" (String "160" "").

Definition me : Station := mkStation "N0CALL" 25 false 25 ∅ None.

Definition k1abc : Station :=
  mkStation "K1ABC" 20 false 20 {[ "serialNumber" := "105" ]} None.

Definition w2xyz : Station :=
  mkStation "W2XYZ" 22 false 22 {[ "serialNumber" := "17" ]} None.

Definition config : Inputs := mkInputs true {[ "5" := "E"; "0" := "T" ]}.

(** An action at clock time [t], with valid trainee settings, [k1abc] as
    the next station of the single mode and [sts] as the stations that join
    in a contest mode. *)
Definition at_time (t : Time) (sts : list Station) : Env :=
  mkEnv t 500 (Some config) me k1abc sts false.

(** The same with invalid trainee settings. *)
Definition invalid_at (t : Time) : Env :=
  mkEnv t 500 None me k1abc [] false.

(** A contest session after a first CQ that brought two stations. *)
Definition contest : Session :=
  run (C := world) (loaded (C := world) "contest") [(at_time 0 [k1abc; w2xyz], Cq)].

(** A single-mode session after a first CQ. *)
Definition single : Session :=
  run (C := world) (loaded (C := world) "single") [(at_time 0 [], Cq)].

(** CQ, then the callsign of the first station typed and sent. *)
Definition match_k1abc : list (Env * Action) :=
  [(at_time 0 [k1abc; w2xyz], Cq);
   (at_time 9000 [], TypeResponse "k1abc");
   (at_time 10000 [], Send)].

Definition me_on_air : Station := set_player (Some (mkPlayer 0 25 false 25)) me.

(** The station [k1abc] once the first CQ of the contest session has given
    it a player. *)
Definition k1abc_on_air : Station := set_player (Some (mkPlayer 1 20 false 20)) k1abc.

(** The contest session with QRS typed. *)
Definition qrs_contest : Session :=
  run (C := world) contest [(at_time 9000 [], TypeResponse "qrs")].

Definition qrs_single : Session :=
  run (C := world) single [(at_time 9000 [], TypeResponse "qrs")].

(** [n] sends, twenty seconds apart. *)
Definition sends (n : nat) : list (Env * Action) :=
  map (fun k => (at_time (20000 * Z.of_nat k) [], Send)) (seq 1 n).

(** The contest session once [K1ABC] has been matched. *)
Definition matched : Session := run (C := world) (loaded (C := world) "contest") match_k1abc.

(** The single session with a callsign typed that is not the station's. *)
Definition miss_single : Session :=
  run (C := world) single [(at_time 9000 [], TypeResponse "w9zzz")].

(** The contest session with a callsign typed that is no station's. *)
Definition miss_contest : Session :=
  run (C := world) contest [(at_time 9000 [], TypeResponse "w9zzz")].

(** The single session with the station's callsign typed. *)
Definition perfect_single : Session :=
  run (C := world) single [(at_time 9000 [], TypeResponse "k1abc")].

(** The contest session with the first station's callsign typed. *)
Definition perfect_contest : Session :=
  run (C := world) contest [(at_time 9000 [], TypeResponse "k1abc")].

End Demo.

(** ** Properties of sessions *)

(** What a confirm action relies on: when [readyForTU] is set, the active
    index is an index into the registry. *)
Definition tuInvariant (s : Session) : Prop :=
  readyForTU s = true ->
  exists i, activeStationIndex s = Some i /\ (i < length (currentStations s))%nat.

(** What [respondWithAllStations] and the like may do to the store: give a
    station a player. *)
Definition gotPlayers (h h' : list Station) : Prop :=
  Forall2 (fun stn stn' => stn' = stn \/ exists p, stn' = set_player (Some p) stn)
          h h'.

(** What the response field holds for the matcher. *)
Definition candidateOf {C : Collaborators} (s : Session) : string :=
  JsString.removeFirst
    (toUpperCase (JsString.trim (responseField (ui s)))) "?".

(** After a handler [readyForTU] is set only if the handler left the flag
    and the active index as they were, or put the active index on a station
    of the registry whose callsign the matcher found perfect. *)
Definition setsReadyOnMatch {C : Collaborators} (s s' : Session) : Prop :=
  readyForTU s' = true ->
  (readyForTU s = true /\ activeStationIndex s' = activeStationIndex s) \/
  exists i l stn,
    activeStationIndex s' = Some i /\ currentStations s' !! i = Some l /\
    heap s' !! l = Some stn /\
    compareStrings (callsign stn) (candidateOf s) = Perfect.

(** A handler that takes a station out of the registry clears
    [readyForTU]. *)
Definition clearsReadyOnRemoval (s s' : Session) : Prop :=
  (length (currentStations s') < length (currentStations s))%nat ->
  readyForTU s' = false.

Definition tuDiscipline {C : Collaborators} (s s' : Session) : Prop :=
  (tuInvariant s -> tuInvariant s') /\
  setsReadyOnMatch s s' /\
  clearsReadyOnRemoval s s'.

(** A station up to the player bound to it. *)
Definition sameStation (a b : Station) : Prop :=
  set_player None a = set_player None b.

(** The text [send] works with. *)
Definition responseFieldText {C : Collaborators} (s : Session) : string :=
  toUpperCase (JsString.trim (responseField (ui s))).

(** A player built for the station as it is now. *)
Definition playerFits (q : Player) (stn : Station) : Prop :=
  pl_wpm q = wpm stn /\ pl_enableFarnsworth q = enableFarnsworth stn /\
  pl_farnsworthSpeed q = farnsworthSpeed stn.

(** What a QRS send does to the active station of the single mode: the
    slow-down step, then a new player built for the station as it then is,
    with which the callsign is sent again. *)
Definition singleQrsDone (s : Session) (l : loc) (stn : Station) (s' : Session) : Prop :=
  exists q,
    heap s' !! l = Some (set_player (Some q) (slowDown stn)) /\
    pl_id q = nextPlayer (audio s) /\
    playerFits q (slowDown stn) /\
    (callsign stn <> "" -> exists t, last (tones (audio s')) = Some t /\
       tone_player t = q /\ tone_text t = callsign stn).

(** What a QRS send leaves of a station [stn] it targets: the slow-down
    step is applied; the player [q] the station has afterwards was built
    for the lowered speed; it is the player the station had, or an instance
    made during the send; and it is with [q] that the callsign is sent
    again. *)
Definition qrsRebuilt (s : Session) (l : loc) (stn : Station) (s' : Session)
    : Prop :=
  exists q,
    heap s' !! l = Some (set_player (Some q) (slowDown stn)) /\
    playerFits q (slowDown stn) /\
    (player stn = Some q \/ (nextPlayer (audio s) <= pl_id q)%nat) /\
    (callsign stn <> "" ->
     exists t, t ∈ drop (length (tones (audio s))) (tones (audio s')) /\
       tone_player t = q /\ tone_text t = callsign stn).

(** The registry holds each station once, and only stations of the store;
    an array that [lastRespondingStations] has for itself holds each station
    once as well. *)
Definition wellFormed (s : Session) : Prop :=
  NoDup (currentStations s) /\
  Forall (fun l => (l < length (heap s))%nat) (currentStations s) /\
  (forall ts, lastRespondingStations s = AOwn ts -> NoDup ts).

(** The stations a confirm action admits. *)
Definition newcomers (env : Env) (s : Session) : list loc :=
  if (random env <? 400) || enableContinuous env
  then seq (length (heap s)) (length (arrivals env))
  else [].

(** What a confirm action on the [i]-th station of the registry, [stn],
    leaves behind. *)
Definition contactLogged (env : Env) (s : Session) (i : nat) (stn : Station)
    (s' : Session) : Prop :=
  (exists record,
     resultsTable (ui s') = (resultsTable (ui s) ++ [record])%list /\
     cr_number record = S (totalContacts s) /\
     cr_callsign record = callsign stn /\
     cr_attempts record = currentStationAttempts s) /\
  currentStations s' = (delete i (currentStations s) ++ newcomers env s)%list /\
  readyForTU s' = false /\
  currentStationAttempts s' = 0%nat /\
  activeStationIndex s' = None /\
  totalContacts s' = S (totalContacts s).


(** The tone of a text sent by player [p] on a request to start at
    [start], as [playSentence] schedules it in session [s]. *)
Definition toneOf {C : Collaborators} (s : Session) (p : Player)
    (text : string) (start : Time) : Tone :=
  let t0 := Z.max start (lock (audio s)) in
  mkTone p text t0 (t0 + playDuration p text).

(** The session once a tone has been scheduled and the lock moved to its
    end. *)
Definition scheduled (t : Tone) (s : Session) : Session :=
  set_audio (set_lock (tone_end t) (set_tones (tones (audio s) ++ [t]) (audio s))) s.

(** The session once the trainee's text has been sent by player [p]. *)
Definition afterOwn {C : Collaborators} (env : Env) (s : Session) (p : Player)
    : Session :=
  scheduled (toneOf s p (responseFieldText s) (now env)) s.

Definition countAttempt (s : Session) : Session :=
  set_currentStationAttempts (S (currentStationAttempts s)) s.

(** A send that only counts an attempt: but for the trainee's own
    transmission, nothing is scheduled and nothing else changes. *)
Definition silentMiss {C : Collaborators} (env : Env) (s : Session)
    (p : Player) : Prop :=
  exec (send env) s = countAttempt (afterOwn env s p).

(** A send that counts an attempt and lets the station [stn], with player
    [q], send its callsign again. *)
Definition missWithRepeat {C : Collaborators} (env : Env) (s : Session)
    (p q : Player) (stn : Station) : Prop :=
  let s1 := afterOwn env s p in
  exec (send env) s =
  scheduled (toneOf s1 q (callsign stn) (lock (audio s1) + random env + 250))
    (countAttempt s1).

(** The text is no repeat request, no QRS, and not empty. *)
Definition plainText (text : string) : Prop :=
  text <> "" /\ isRepeatRequest text = false /\ text <> "QRS".

(** The texts scheduled by a handler, in order. *)
Definition textsSince (s s' : Session) : list string :=
  tone_text <$> drop (length (tones (audio s))) (tones (audio s')).

(** The texts that make a tone: [playSentence] schedules nothing for the
    empty text. *)
Definition audible (texts : list string) : list string :=
  filter (fun text => text <> "") texts.


(** ** Further properties of sessions *)

(** The station of the single mode and the array of the multi-station modes
    are not in use together: in a mode with a TU step there is no
    [currentStation]; in a mode without one [currentStations] is empty and
    [readyForTU] is false; under a mode name that [modeLogicConfig] does
    not know there is neither. *)
Definition oneRegistry {C : Collaborators} (s : Session) : Prop :=
  match modeLogicConfig (currentMode s) with
  | Some cfg =>
      if showTuStep cfg then currentStation s = None
      else currentStations s = [] /\ readyForTU s = false
  | None =>
      currentStation s = None /\ currentStations s = [] /\ readyForTU s = false
  end.

(** The rows of the results table carry increasing contact numbers, none
    above [totalContacts]. *)
Definition numbered (s : Session) : Prop :=
  Forall (fun r => (cr_number r <= totalContacts s)%nat) (resultsTable (ui s)) /\
  forall i j a b, (i < j)%nat ->
    resultsTable (ui s) !! i = Some a -> resultsTable (ui s) !! j = Some b ->
    (cr_number a < cr_number b)%nat.

(** What no send in a multi-station mode touches: the registry, the table
    of contacts and its counter, the mode, and the number of station objects. *)
Definition registryKept (s s' : Session) : Prop :=
  currentStations s' = currentStations s /\
  currentStation s' = currentStation s /\
  totalContacts s' = totalContacts s /\
  resultsTable (ui s') = resultsTable (ui s) /\
  currentMode s' = currentMode s /\
  length (heap s') = length (heap s).

(** Whether a handler run from [s] is cut short by a [TypeError]. *)
Definition raises {A} (m : Js A) (s : Session) : bool :=
  match fst (m s) with
  | Throw => true
  | _ => false
  end.

(** The results of the matcher for the stations [stns] of the registry, as
    [send] computes them. *)
Definition resultsFor {C : Collaborators} (s : Session) (stns : list Station)
    : list MatchResult :=
  (fun stn => compareStrings (callsign stn) (candidateOf s)) <$> stns.

(** A send that is answered with [RR] by the station with player [q],
    [delay] after the trainee's text; one attempt is counted and nothing
    else changes. *)
Definition acknowledged {C : Collaborators} (env : Env) (s : Session)
    (p q : Player) (delay : Time) : Prop :=
  let s1 := afterOwn env s p in
  exec (send env) s =
  scheduled (toneOf s1 q "RR" (lock (audio s1) + delay)) (countAttempt s1).

(** What a perfect match without question mark leaves behind in a
    multi-station mode: the station at index [i] is the one a confirm action
    will log. *)
Definition armed (s : Session) (i : nat) (s' : Session) : Prop :=
  readyForTU s' = true /\
  activeStationIndex s' = Some i /\
  currentStationAttempts s' = S (currentStationAttempts s) /\
  heap s' = heap s /\
  lastRespondingStations s' = lastRespondingStations s /\
  registryKept s s'.

(** What a perfect match without question mark leaves behind in single
    mode: the contact with station [stn] is in the table, and a new station
    has taken its place. *)
Definition singleContactLogged (env : Env) (s : Session) (stn : Station)
    (s' : Session) : Prop :=
  resultsTable (ui s') =
    (resultsTable (ui s) ++
     [mkContact (S (totalContacts s)) (callsign stn) (wpmString stn)
        (S (currentStationAttempts s))
        (elapsed env (currentStationStartTime s)) ""])%list /\
  totalContacts s' = S (totalContacts s) /\
  currentStation s' = Some (length (heap s)) /\
  (exists q, heap s' !! length (heap s)
             = Some (set_player (Some q) (getCallingStation env)) /\
             playerFits q (getCallingStation env)) /\
  length (heap s') = S (length (heap s)) /\
  (forall l, (l < length (heap s))%nat -> heap s' !! l = heap s !! l) /\
  currentStationAttempts s' = 0%nat /\
  currentStationStartTime s' = Some (lock (audio s')) /\
  responseField (ui s') = "" /\
  cqDisabled (ui s') = true /\
  currentStations s' = currentStations s.

(** A text without digits. *)
Definition digitFree (text : string) : bool :=
  forallb (fun c => negb (JsString.isDigit c)) (list_ascii_of_string text).

(** The cut-number letters are letters: no entry of the map holds a digit. *)
Definition lettersOnly (cutMap : gmap string string) : Prop :=
  map_Forall (fun _ letter => digitFree letter = true) cutMap.

(** The CQ button of the single mode: disabled exactly while a station is
    active. *)
Definition cqButtonTracksStation {C : Collaborators} (s : Session) : Prop :=
  forall cfg, modeLogicConfig (currentMode s) = Some cfg ->
    showTuStep cfg = false ->
    cqDisabled (ui s) = bool_decide (currentStation s <> None).

(** What a station is for the trainee: its callsign, its speed and its
    exchange attributes. *)
Definition identity (stn : Station) : string * Z * gmap string string :=
  (callsign stn, wpm stn, attributes stn).

(** The store [h'] holds every station of [h], each with the identity it
    had. *)
Definition identitiesKept (h h' : list Station) : Prop :=
  forall l stn, h !! l = Some stn ->
    exists stn', h' !! l = Some stn' /\ identity stn' = identity stn.

(** The station at [l] is in the store and has a player. *)
Definition hasPlayer (h : list Station) (l : loc) : Prop :=
  exists stn q, h !! l = Some stn /\ player stn = Some q.

(** What the handlers rely on when they read a property of an object: the
    stations of the registry and the active station of the single mode are
    in the store and have a player; an array that only
    [lastRespondingStations] refers to holds stations of the store, and
    [lastRespondingStations] is an array while the registry holds a station;
    the trainee's station, once set, has a player, and it is set while a
    station is on frequency. *)
Definition equipped (s : Session) : Prop :=
  Forall (hasPlayer (heap s)) (currentStations s) /\
  (forall l, currentStation s = Some l -> hasPlayer (heap s) l) /\
  (forall ts, lastRespondingStations s = AOwn ts ->
     Forall (fun l => (l < length (heap s))%nat) ts) /\
  (currentStations s <> [] -> lastRespondingStations s <> ANull) /\
  (forall you, yourStation s = Some you -> player you <> None) /\
  (currentStations s <> [] \/ currentStation s <> None -> yourStation s <> None).

(** The store [h'] holds every station of [h] that has a player, still
    with a player. *)
Definition playersKept (h h' : list Station) : Prop :=
  forall l, hasPlayer h l -> hasPlayer h' l.
(** What cuts a handler short in a session reached from the loaded page:
    a call, a send or a confirm action finds no mode of the current name in
    [modeLogicConfig]; a send finds the settings [null]; a send in a mode
    without TU step finds no [theirSignoff]; a change of mode finds no mode
    of the new name in [modeUIConfig]. A confirm action while the settings
    are [null] is listed with them: it may hand the [null] to
    [addStations], and what that function of util.js does with it is not
    known. *)
Definition excused {C : Collaborators} (a : Action) (s : Session) : Prop :=
  ((a = Cq \/ a = Send \/ a = Tu) /\ modeLogicConfig (currentMode s) = None) \/
  (a = Send /\ inputs s = None) \/
  (a = Send /\ exists cfg, modeLogicConfig (currentMode s) = Some cfg /\
     showTuStep cfg = false /\ theirSignoff cfg = None) \/
  (a = Tu /\ inputs s = None) \/
  (exists selectedMode, a = ChangeMode selectedMode /\
     modeUIConfig selectedMode = None).


(** ** Further sessions of the small world *)

Module Scenes.

(** The station [w2xyz] once the first CQ of the contest session has given
    it a player. *)
Definition w2xyz_on_air : Station :=
  set_player (Some (mkPlayer 2 22 false 22)) Demo.w2xyz.

(** The contest session with the first station's callsign typed with a
    question mark. *)
Definition unsure_contest : Session :=
  run (C := Demo.world) Demo.contest [(Demo.at_time 9000 [], TypeResponse "k1abc?")].

(** The contest session with the beginning of the first station's callsign
    typed. *)
Definition partial_contest : Session :=
  run (C := Demo.world) Demo.contest [(Demo.at_time 9000 [], TypeResponse "k1")].

(** A single-mode session: CQ, the callsign sent, then stop. *)
Definition single_stopped : list (Env * Action) :=
  [(Demo.at_time 0 [], Cq); (Demo.at_time 9000 [], TypeResponse "k1abc");
   (Demo.at_time 10000 [], Send); (Demo.at_time 30000 [], Stop)].

(** The single session with a repeat request typed. *)
Definition agn_single : Session :=
  run (C := Demo.world) Demo.single [(Demo.at_time 9000 [], TypeResponse "agn")].

End Scenes.
(** ** Settings kept in local storage

    [setupDynamicPersistence] of app.js and the listener it registers. An
    element of the page is taken with what the two read and write: its id,
    its type, and its [checked] and [value] properties. What a write to
    [checked] or [value] does is the browser's: a radio button that is
    checked unchecks the other buttons of its group, and a value is kept
    as the element's value sanitization leaves it. *)

Module Persistence.

(** [el.type], as far as the code tells the types apart. *)
Inductive ElementType := Checkbox | Radio | OtherType.

(** [el_group] is the group of a radio button: the name it shares with the
    other buttons of its form, empty for a button on its own. *)
Record Element := mkElement {
  el_id : string;
  el_type : ElementType;
  el_group : string;
  el_checked : bool;
  el_value : string
}.

Definition set_checked (b : bool) (el : Element) : Element :=
  mkElement (el_id el) (el_type el) (el_group el) b (el_value el).

Definition set_value (v : string) (el : Element) : Element :=
  mkElement (el_id el) (el_type el) (el_group el) (el_checked el) v.

(** [localStorage]: strings under string keys. *)
Abbreviation Storage := (gmap string string).

(** [el.type === 'checkbox' || el.type === 'radio']. *)
Definition isToggle (el : Element) : bool :=
  match el_type el with
  | Checkbox | Radio => true
  | OtherType => false
  end.

(** The string [localStorage.setItem] stores for a boolean. *)
Definition boolText (b : bool) : string := if b then "true" else "false".

Definition valueToStore (el : Element) : string :=
  if isToggle el then boolText (el_checked el) else el_value el.

(** The listener registered for an element with an id: it is run with the
    element as it is when the event arrives. *)
Definition saveOnChange (el : Element) (storage : Storage) : Storage :=
  <[el_id el := valueToStore el]> storage.

(** Two radio buttons of one group. *)
Definition sameGroup (a b : Element) : bool :=
  match el_type a, el_type b with
  | Radio, Radio =>
      negb (bool_decide (el_group a = "")) &&
      bool_decide (el_group a = el_group b)
  | _, _ => false
  end.

(** [el.checked = b] for the element at index [i] of the page: a radio
    button that gets checked unchecks the other buttons of its group. *)
Definition assignChecked (i : nat) (b : bool) (els : list Element)
    : list Element :=
  match els !! i with
  | None => els
  | Some el =>
      imap (fun j e =>
              if decide (j = i) then set_checked b e
              else if b && sameGroup el e then set_checked false e
              else e) els
  end.

Section Page.

(** What [el.value] reads after [el.value = v]: the string as the value
    sanitization of the element leaves it (a text field drops line breaks,
    a number field keeps a number only, a select keeps the value of one of
    its options). *)
Variable sanitize : Element -> string -> string.

Definition assignValue (i : nat) (v : string) (els : list Element)
    : list Element :=
  alter (fun el => set_value (sanitize el v) el) i els.

(** The body of the [forEach] up to the registration of the listener, for
    the element at index [i]: an element without id is skipped, one without
    saved value is left as the page has it. *)
Definition loadSaved (storage : Storage) (els : list Element) (i : nat)
    : list Element :=
  match els !! i with
  | None => els
  | Some el =>
      if decide (el_id el = "") then els
      else
        match storage !! el_id el with
        | None => els
        | Some savedValue =>
            if isToggle el
            then assignChecked i (bool_decide (savedValue = "true")) els
            else assignValue i savedValue els
        end
  end.

Definition setupDynamicPersistence (storage : Storage)
    (elements : list Element) : list Element :=
  foldl (loadSaved storage) elements (seq 0 (length elements)).

End Page.

(** The trainee checks the radio button at index [i]: its group is
    unchecked, and the [change] event reaches the listener of this button
    and of no other. *)
Definition checkRadio (i : nat) (page : list Element * Storage)
    : list Element * Storage :=
  let els := assignChecked i true (fst page) in
  (els,
   match els !! i with
   | Some el =>
       if decide (el_id el = "") then snd page else saveOnChange el (snd page)
   | None => snd page
   end).

(** The setting of an element that is kept: [checked] for a check box or a
    radio button, [value] for every other element. *)
Definition setting (el : Element) : bool + string :=
  if isToggle el then inl (el_checked el) else inr (el_value el).

(** The same element of the page: same id, same type, same group. *)
Definition sameElement (a b : Element) : Prop :=
  el_id a = el_id b /\ el_type a = el_type b /\ el_group a = el_group b.

(** A small settings form as the page declares it: a check box, two text
    fields and a group of two radio buttons. *)
Definition page : list Element :=
  [mkElement "enableFarnsworth" Checkbox "" false "on";
   mkElement "farnsworthSpeed" OtherType "" false "10";
   mkElement "yourCallsign" OtherType "" false "";
   mkElement "slow" Radio "speed" false "on";
   mkElement "fast" Radio "speed" false "on"].

(** The text fields of the form: every string without line break is kept
    as it is. *)
Definition asTyped (el : Element) (v : string) : string := v.

End Persistence.
(** ** The string functions on examples *)

Example trim_upper_example :
  @toUpperCase Demo.world (JsString.trim "  k1abc? ") = "K1ABC?".
Proof. reflexivity. Qed.

Example removeFirst_example : JsString.removeFirst "K1?ABC?" "?" = "K1ABC?".
Proof. reflexivity. Qed.

(** [trim] removes the white space of more than one byte as well: here
    U+00A0 and a space in front, U+3000 and U+2028 behind; the U+00A0
    inside stays. *)
Example trim_unicode_example :
  JsString.trim
    (Demo.nbsp +:+ " k1" +:+ Demo.nbsp +:+ "abc"
     +:+ String "227" (String "128" (String "128" ""))
     +:+ String "226" (String "128" (String "168" "")))
  = "k1" +:+ Demo.nbsp +:+ "abc".
Proof. vm_compute. reflexivity. Qed.

(** A response field that holds U+00A0 only is an empty field for [send]:
    with stations on frequency the send returns at once. *)
Example send_of_blank_field :
  let s := run (C := Demo.world) Demo.contest
             [(Demo.at_time 9000 [], TypeResponse Demo.nbsp)] in
  responseFieldText (C := Demo.world) s = "" /\
  send (C := Demo.world) (Demo.at_time 10000 []) s = (Return, s).
Proof. cbv zeta. split; vm_compute; reflexivity. Qed.

(** ** Rules of the weakest precondition *)

Section WeakestPre.

Context {A B : Type}.
Implicit Types (Q : A -> Session -> Prop) (R T : Session -> Prop).

Lemma wp_ret (a : A) Q R T s : Q a s -> wp (ret a) Q R T s.
Proof. done. Qed.

Lemma wp_bind (m : Js B) (k : B -> Js A) Q R T s :
  wp m (fun b s' => wp (k b) Q R T s') R T s -> wp (bind m k) Q R T s.
Proof. unfold wp, bind. by destruct (m s) as [[b| |] s']. Qed.

Lemma wp_gets (f : Session -> A) Q R T s : Q (f s) s -> wp (gets f) Q R T s.
Proof. done. Qed.

Lemma wp_exit Q R T s : R s -> wp (@exit A) Q R T s.
Proof. done. Qed.

Lemma wp_throw Q R T s : T s -> wp (@throw A) Q R T s.
Proof. done. Qed.

Lemma wp_deref (o : option A) Q R T s :
  match o with Some a => Q a s | None => T s end -> wp (deref o) Q R T s.
Proof. by destruct o. Qed.

Lemma wp_mono (m : Js A) Q R T Q' R' T' s :
  wp m Q R T s ->
  (forall a s', Q a s' -> Q' a s') ->
  (forall s', R s' -> R' s') ->
  (forall s', T s' -> T' s') ->
  wp m Q' R' T' s.
Proof. unfold wp. destruct (m s) as [[a| |] s']; auto. Qed.

Lemma wp_exec (m : Js A) (P : Session -> Prop) s :
  wp m (fun _ => P) P P s -> P (exec m s).
Proof. unfold wp, exec. by destruct (m s) as [[a| |] s']. Qed.

End WeakestPre.

Lemma wp_modify (f : Session -> Session) Q R T s :
  Q tt (f s) -> wp (modify f) Q R T s.
Proof. done. Qed.

Lemma wp_call (m : Js unit) Q R T s :
  wp m Q (Q tt) T s -> wp (call m) Q R T s.
Proof. unfold wp, call. by destruct (m s) as [[[]| |] s']. Qed.

(** One step of symbolic execution. *)
Ltac wp_prim :=
  lazymatch goal with
  | |- wp (bind _ _) _ _ _ _ => apply wp_bind
  | |- wp (ret _) _ _ _ _ => apply wp_ret
  | |- wp (gets _) _ _ _ _ => apply wp_gets
  | |- wp (modify _) _ _ _ _ => apply wp_modify
  | |- wp (modify_audio _) _ _ _ _ => apply wp_modify
  | |- wp (modify_ui _) _ _ _ _ => apply wp_modify
  | |- wp exit _ _ _ _ => apply wp_exit
  | |- wp throw _ _ _ _ => apply wp_throw
  | |- wp (deref _) _ _ _ _ => apply wp_deref
  | |- wp (call _) _ _ _ _ => apply wp_call
  | |- wp (getAudioLock _) _ _ _ _ => unfold getAudioLock
  | |- wp (updateAudioLock _) _ _ _ _ => unfold updateAudioLock
  | |- wp isBackgroundStaticPlaying _ _ _ _ => unfold isBackgroundStaticPlaying
  | |- wp createBackgroundStatic _ _ _ _ => unfold createBackgroundStatic
  | |- wp stopAllAudio _ _ _ _ => unfold stopAllAudio
  | |- wp (createMorsePlayer _) _ _ _ _ => unfold createMorsePlayer
  | |- wp (playSentence _ _ _ _) _ _ _ _ => unfold playSentence
  | |- wp (updateActiveStations _) _ _ _ _ => unfold updateActiveStations
  | |- wp clearTable _ _ _ _ => unfold clearTable
  | |- wp (addTableRow _) _ _ _ _ => unfold addTableRow
  | |- wp (alloc _) _ _ _ _ => unfold alloc
  | |- wp (stationAt _) _ _ _ _ => unfold stationAt
  | |- wp (updateStation _ _) _ _ _ _ => unfold updateStation
  | |- wp getModeConfig _ _ _ _ => unfold getModeConfig
  | |- wp newCurrentStations _ _ _ _ => unfold newCurrentStations
  | |- wp incrementAttempts _ _ _ _ => unfold incrementAttempts
  | |- wp incrementContacts _ _ _ _ => unfold incrementContacts
  end; cbv beta zeta.


(** Projections of updated records. *)
Ltac sess_simpl :=
  unfold
    set_lock, set_noise, set_tones, set_nextPlayer, set_responseField, set_infoField,
    set_infoField2, set_cqDisabled, set_activeStations, set_resultsTable, set_focus, set_currentMode,
    set_inputs, set_heap, set_currentStations, set_currentStation, set_activeStationIndex, set_readyForTU,
    set_currentStationAttempts, set_currentStationStartTime, set_totalContacts, set_yourStation, set_lastRespondingStations, set_audio,
    set_ui in *;
  cbn [lock noise tones nextPlayer responseField infoField
    infoField2 cqDisabled activeStations resultsTable focus currentMode
    inputs heap currentStations currentStation activeStationIndex readyForTU
    currentStationAttempts currentStationStartTime totalContacts yourStation lastRespondingStations audio
    ui callsign wpm enableFarnsworth farnsworthSpeed attributes
    player fst snd default from_option id
    set_player set_farnsworth] in *.

Ltac sess_norm t :=
  let t1 := eval cbv beta zeta delta
    [arrayOf set_lock set_noise set_tones set_nextPlayer set_responseField set_infoField
    set_infoField2 set_cqDisabled set_activeStations set_resultsTable set_focus set_currentMode
    set_inputs set_heap set_currentStations set_currentStation set_activeStationIndex set_readyForTU
    set_currentStationAttempts set_currentStationStartTime set_totalContacts set_yourStation set_lastRespondingStations set_audio
    set_ui] in t in
  let t2 := eval cbn
    [lock noise tones nextPlayer responseField infoField
    infoField2 cqDisabled activeStations resultsTable focus currentMode
    inputs heap currentStations currentStation activeStationIndex readyForTU
    currentStationAttempts currentStationStartTime totalContacts yourStation lastRespondingStations audio
    ui callsign wpm enableFarnsworth farnsworthSpeed attributes
    player fst snd default from_option id
    set_player set_farnsworth] in t1 in
  t2.

Ltac sess_simpl_goal :=
  match goal with |- ?g => let g' := sess_norm g in change g' end.

(** Only the state a computation starts from is normalised as execution
    goes on. *)
Ltac wp_state :=
  lazymatch goal with
  | |- wp ?m ?Q ?R ?T ?st =>
      let st' := sess_norm st in change (wp m Q R T st')
  | |- _ => idtac
  end.

Ltac wp_branch :=
  lazymatch goal with
  | |- wp (match ?x with _ => _ end) _ _ _ _ =>
      let x' := sess_norm x in change x with x'; destruct x' eqn:?
  | |- match ?x with _ => _ end =>
      let x' := sess_norm x in change x with x'; destruct x' eqn:?
  end.

Ltac wp_run := repeat (first [wp_prim | wp_branch]; wp_state).

(** ** The busy channel, reset and stop *)

Section BusyChannel.

Context {C : Collaborators}.

Lemma cq_locked env s : now env < lock (audio s) -> cq env s = (Return, s).
Proof.
  intros Hl. unfold cq, bind, getAudioLock, gets.
  by rewrite (proj2 (Z.ltb_lt _ _) Hl).
Qed.

Lemma send_locked env s : now env < lock (audio s) -> send env s = (Return, s).
Proof.
  intros Hl. unfold send, bind, getAudioLock, gets.
  by rewrite (proj2 (Z.ltb_lt _ _) Hl).
Qed.

Lemma tu_locked env s : now env < lock (audio s) -> tu env s = (Return, s).
Proof.
  intros Hl. unfold tu, bind, getAudioLock, gets.
  by rewrite (proj2 (Z.ltb_lt _ _) Hl).
Qed.

(** C5: while the clock is before the lock's watermark, call, send and
    confirm decline: each returns at once, and the session, the scheduled
    audio included, is what it was. *)
Theorem busy_channel_declines env s :
  now env < lock (audio s) ->
  cq env s = (Return, s) /\ send env s = (Return, s) /\ tu env s = (Return, s).
Proof. auto using cq_locked, send_locked, tu_locked. Qed.

End BusyChannel.

Lemma busy_channel_declines_witness :
  cq (C := Demo.world) (Demo.at_time 3000 []) Demo.contest = (Return, Demo.contest) /\
  send (C := Demo.world) (Demo.at_time 3000 []) Demo.contest = (Return, Demo.contest) /\
  tu (C := Demo.world) (Demo.at_time 3000 []) Demo.contest = (Return, Demo.contest).
Proof.
  apply (busy_channel_declines (C := Demo.world)). vm_compute. reflexivity.
Defined.

Section ResetStop.

Context {C : Collaborators}.

(** C7: whatever the session was, after reset the attempt counter and the
    contact counter are 0, the registry is empty (the array of the
    multi-station modes and the station of the single mode), the lock's
    watermark is 0, [readyForTU] is false, the three text fields are empty,
    and the selected mode is the one it was. *)
Theorem reset_returns_to_idle s :
  let s' := exec reset s in
  currentStationAttempts s' = 0%nat /\
  totalContacts s' = 0%nat /\
  currentStations s' = [] /\
  currentStation s' = None /\
  lock (audio s') = 0 /\
  readyForTU s' = false /\
  activeStationIndex s' = None /\
  responseField (ui s') = "" /\
  infoField (ui s') = "" /\
  infoField2 (ui s') = "" /\
  resultsTable (ui s') = [] /\
  currentMode s' = currentMode s.
Proof. by repeat split. Qed.

(** The same holds for [resetGameState], which a change of mode runs. *)
Lemma resetGameState_idle s :
  let s' := exec resetGameState s in
  currentStationAttempts s' = 0%nat /\ totalContacts s' = 0%nat /\
  currentStations s' = [] /\ currentStation s' = None /\
  lock (audio s') = 0 /\ readyForTU s' = false /\ activeStationIndex s' = None.
Proof. by repeat split. Qed.

(** [applyModeSettings] changes nothing when the info fields are empty. *)
Lemma applyModeSettings_idle mode s :
  infoField (ui s) = "" -> infoField2 (ui s) = "" ->
  exec (call (applyModeSettings mode)) s = s.
Proof.
  intros H1 H2. unfold exec, call, applyModeSettings, bind, deref.
  destruct s as [? ? ? ? ? ? ? ? ? ? ? ? ? []]. cbn in H1, H2. subst.
  by destruct (modeUIConfig mode) as [[tu [] []]|].
Qed.

(** What the page load leaves: [applyModeSettings] finds the info fields
    empty already. *)
Lemma loaded_reset savedMode :
  loaded savedMode = exec resetGameState (set_currentMode savedMode declared).
Proof.
  unfold loaded.
  set (s0 := set_currentMode savedMode declared).
  assert (Hr : call resetGameState s0 = (Normal tt, exec resetGameState s0))
    by (vm_compute; reflexivity).
  unfold exec at 1, bind. rewrite Hr.
  apply applyModeSettings_idle; vm_compute; reflexivity.
Qed.

(** C8: stop leaves no scheduled tone and no noise and sets the lock's
    watermark to 0. When the mode is "single" the active station, the
    attempt counter and the start time are cleared; in every other mode
    only the audio and the CQ button change, so the registry, the active
    index and [readyForTU] are what they were. *)
Theorem stop_silences_and_unlocks s :
  let s' := exec stop s in
  tones (audio s') = [] /\ noise (audio s') = false /\ lock (audio s') = 0 /\
  (currentMode s = "single" ->
     currentStation s' = None /\ currentStationAttempts s' = 0%nat /\
     currentStationStartTime s' = None) /\
  (currentMode s <> "single" ->
     s' = set_ui (set_cqDisabled false (ui s)) (set_audio (audio s') s) /\
     currentStations s' = currentStations s /\
     activeStationIndex s' = activeStationIndex s /\
     readyForTU s' = readyForTU s).
Proof.
  unfold exec, stop, bind, stopAllAudio, modify_audio, modify_ui, modify, gets.
  cbn -[decide]. destruct (decide (currentMode s = "single")) as [Hm|Hm]; cbn.
  - repeat split; done.
  - repeat split; done.
Qed.

End ResetStop.

Lemma stop_single_witness :
  currentStation (exec stop Demo.single) = None.
Proof.
  destruct (stop_silences_and_unlocks Demo.single) as (_ & _ & _ & Hsingle & _).
  apply Hsingle. vm_compute. reflexivity.
Defined.

(** ** The helpers that loop over an array *)

Section Loops.

Context {C : Collaborators}.

Lemma gotPlayers_refl h : gotPlayers h h.
Proof. apply Forall2_same_length_lookup_2; [done|]. intros; simplify_eq; by left. Qed.

Lemma gotPlayers_trans h1 h2 h3 :
  gotPlayers h1 h2 -> gotPlayers h2 h3 -> gotPlayers h1 h3.
Proof.
  unfold gotPlayers. intros H12. revert h3.
  induction H12 as [|a b h1 h2 Hab _ IH]; intros h3 H23.
  - by inversion H23.
  - inversion H23 as [|b' c h2' h3' Hbc Hrest]; subst.
    constructor; [|by apply IH].
    destruct Hab as [->|[p ->]]; [done|].
    destruct Hbc as [->|[q ->]]; right; eauto.
Qed.

Lemma gotPlayers_alter h l p :
  gotPlayers h (alter (set_player (Some p)) l h).
Proof.
  apply Forall2_same_length_lookup_2.
  { by rewrite length_alter. }
  intros i a b Ha Hb. destruct (decide (i = l)) as [->|Hne].
  - rewrite list_lookup_alter_eq, Ha in Hb. simplify_eq/=. right. eauto.
  - rewrite list_lookup_alter_ne in Hb by done. simplify_eq. by left.
Qed.

Lemma gotPlayers_length h h' : gotPlayers h h' -> length h' = length h.
Proof. intros H. symmetry. by eapply Forall2_length. Qed.

(** [respondWithAllStations] changes the audio and gives players; it never
    leaves through [return]. *)
Lemma wp_respondWithAllStations env stations start
    (Q : unit -> Session -> Prop) (R T : Session -> Prop) s :
  (forall h a, gotPlayers (heap s) h -> noise a = noise (audio s) ->
     Q tt (set_heap h (set_audio a s)) /\ T (set_heap h (set_audio a s))) ->
  wp (respondWithAllStations env stations start) Q R T s.
Proof.
  revert start s. induction stations as [|l rest IH]; intros start s H.
  - destruct s as [? ? h ? ? ? ? ? ? ? ? ? a ?]. apply wp_ret.
    apply (H h a); [apply gotPlayers_refl|done].
  - cbn [respondWithAllStations]. wp_run.
    all: first
      [ apply IH; intros h a Hh Ha; specialize (H h a); sess_simpl;
        apply H; [|done];
        first [ done
              | eapply gotPlayers_trans; [|exact Hh]; apply gotPlayers_alter ]
      | destruct s as [? ? h ? ? ? ? ? ? ? ? ? a ?];
        apply (H h a); [apply gotPlayers_refl|done] ].
Qed.

(** [pushStations] puts the stations at the end of the store and their
    references at the end of [currentStations]. *)
Lemma pushStations_spec sts s :
  pushStations sts s =
  (Normal tt,
   set_currentStations (currentStations s ++ seq (length (heap s)) (length sts))
     (set_heap (heap s ++ sts) s)).
Proof.
  revert s. induction sts as [|st rest IH]; intros s.
  - destruct s. cbn. by rewrite !app_nil_r.
  - cbn [pushStations]. unfold bind at 1, alloc, bind, gets, modify, ret.
    rewrite IH. sess_simpl. rewrite length_app, <- !app_assoc. cbn.
    by rewrite Nat.add_1_r.
Qed.

Lemma wp_pushStations sts (Q : unit -> Session -> Prop) (R T : Session -> Prop) s :
  Q tt (set_currentStations
          (currentStations s ++ seq (length (heap s)) (length sts))
          (set_heap (heap s ++ sts) s)) ->
  wp (pushStations sts) Q R T s.
Proof. intros H. unfold wp. by rewrite pushStations_spec. Qed.

(** The [forEach] of the QRS branch. *)
Lemma forEachSlowDown_spec targets s :
  forEachSlowDown targets s =
  (Normal tt, set_heap (foldl (fun h l => alter slowDown l h) (heap s) targets) s).
Proof.
  revert s. induction targets as [|l rest IH]; intros s.
  - by destruct s.
  - cbn [forEachSlowDown]. unfold bind, updateStation, modify. by rewrite IH.
Qed.

Lemma wp_forEachSlowDown targets (Q : unit -> Session -> Prop) (R T : Session -> Prop) s :
  Q tt (set_heap (foldl (fun h l => alter slowDown l h) (heap s) targets) s) ->
  wp (forEachSlowDown targets) Q R T s.
Proof. intros H. unfold wp. by rewrite forEachSlowDown_spec. Qed.

Lemma slowDown_all_lookup targets (h : list Station) l :
  NoDup targets ->
  foldl (fun h l => alter slowDown l h) h targets !! l =
  if decide (l ∈ targets) then slowDown <$> h !! l else h !! l.
Proof.
  revert h. induction targets as [|t rest IH]; intros h Hnd.
  - done.
  - apply NoDup_cons in Hnd as [Hnot Hnd]. cbn [foldl]. rewrite IH by done.
    destruct (decide (l = t)) as [->|Hne].
    + rewrite decide_False by done. rewrite decide_True by (by apply elem_of_cons; left).
      by rewrite list_lookup_alter_eq.
    + rewrite list_lookup_alter_ne by done.
      destruct (decide (l ∈ rest)).
      * rewrite decide_True; [done|by apply elem_of_cons; right].
      * rewrite decide_False; [done|]. rewrite elem_of_cons. by intros [?|?].
Qed.

(** Reading the stations of an array changes nothing; it fails when a
    reference is dangling. *)
Lemma wp_stationsAt ls (Q : list Station -> Session -> Prop) (R T : Session -> Prop) s :
  (forall stns, Forall2 (fun l stn => heap s !! l = Some stn) ls stns -> Q stns s) ->
  T s ->
  wp (stationsAt ls) Q R T s.
Proof.
  revert Q. induction ls as [|l rest IH]; intros Q HQ HT.
  - apply wp_ret. by apply HQ.
  - cbn [stationsAt]. wp_run; [|done].
    apply IH; [|done]. intros stns Hs. wp_run. apply HQ. by constructor.
Qed.

(** With every reference in the store nothing fails. *)
Lemma stationsAt_valid ls s stns :
  Forall2 (fun l stn => heap s !! l = Some stn) ls stns ->
  stationsAt ls s = (Normal stns, s).
Proof.
  induction 1 as [|l stn ls stns Hl _ IH]; [done|].
  cbn [stationsAt]. unfold bind at 1, stationAt, bind, gets, deref.
  rewrite Hl. unfold ret at 1. unfold bind. by rewrite IH.
Qed.

Lemma wp_stationsAt_valid ls stns h s
    (Q : list Station -> Session -> Prop) (R T : Session -> Prop) :
  Forall2 (fun l stn => h !! l = Some stn) ls stns ->
  heap s = h ->
  Q stns s ->
  wp (stationsAt ls) Q R T s.
Proof. intros Hf <- HQ. unfold wp. by rewrite (stationsAt_valid _ _ _ Hf). Qed.

End Loops.

(** Symbolic execution through the loops and the branches of the handlers. *)
Ltac wp_loop :=
  lazymatch goal with
  | |- wp (respondWithAllStations _ _ _) _ _ _ _ =>
      apply wp_respondWithAllStations; sess_simpl_goal; intros ? ? ? ?; split
  | |- wp (pushStations _) _ _ _ _ => apply wp_pushStations
  | |- wp (forEachSlowDown _) _ _ _ _ => apply wp_forEachSlowDown
  | |- wp (stationsAt _) _ _ _ _ =>
      apply wp_stationsAt; [sess_simpl_goal; intros ? ?|]
  | |- wp (addStations _ _) _ _ _ _ => unfold addStations
  | |- wp (nextSingleStation _ _) _ _ _ _ => unfold nextSingleStation
  | |- wp (sendMulti _ _ _) _ _ _ _ => unfold sendMulti
  | |- wp (sendSingle _ _ _ _) _ _ _ _ => unfold sendSingle
  | |- wp (cq _) _ _ _ _ => unfold cq
  | |- wp (send _) _ _ _ _ => unfold send
  | |- wp (tu _) _ _ _ _ => unfold tu
  | |- wp stop _ _ _ _ => unfold stop
  | |- wp reset _ _ _ _ => unfold reset
  | |- wp resetGameState _ _ _ _ => unfold resetGameState
  | |- wp (changeMode _) _ _ _ _ => unfold changeMode
  | |- wp (applyModeSettings _) _ _ _ _ => unfold applyModeSettings
  | |- wp clearAllInvalidStates _ _ _ _ => unfold clearAllInvalidStates
  end; cbv beta zeta.

Ltac wp_all := repeat (first [wp_prim | wp_loop | wp_branch]; wp_state).

(** Symbolic execution under hypotheses: a branch condition is rewritten
    with a hypothesis about it, or evaluated when it is closed (a
    condition on the text of a field is not), before the cases are split;
    [prune] closes the impossible cases. *)
Ltac wp_resolve x prune :=
  let x' := sess_norm x in
  change x with x';
  first
    [ match goal with H : x' = _ |- _ => rewrite H end
    | lazymatch x' with
      | context [JsString.trim _] => fail
      | _ => idtac
      end;
      let v := eval vm_compute in x' in
      lazymatch v with
      | true => change x' with true
      | false => change x' with false
      end
    | destruct x' eqn:?; try solve [exfalso; prune] ];
  cbv beta iota.

Ltac wp_decide prune :=
  lazymatch goal with
  | |- wp (match ?x with _ => _ end) _ _ _ _ => wp_resolve x prune
  | |- match ?x with _ => _ end => wp_resolve x prune
  end.

Ltac wp_go_with prune post :=
  repeat (first [wp_prim | wp_loop | wp_decide prune]; wp_state; post).

Ltac wp_go prune := wp_go_with prune idtac.

(** The stations of an array known to be in the store. *)
Ltac wp_known :=
  lazymatch goal with
  | H : Forall2 _ ?ls ?stns |- wp (stationsAt ?ls) _ _ _ _ =>
      apply (wp_stationsAt_valid _ _ _ _ _ _ _ H); [reflexivity|]
  end.

Ltac wp_miss :=
  repeat (first [wp_prim | wp_known | wp_loop | wp_decide ltac:(congruence)];
          wp_state).

(** ** The confirm invariant *)

Section Invariant.

Context {C : Collaborators}.

Lemma indexOfPerfect_Some results i :
  indexOfPerfect results = Some i -> results !! i = Some Perfect.
Proof.
  unfold indexOfPerfect. intros H.
  destruct (list_find _ results) as [[j r]|] eqn:Hf; simplify_eq/=.
  apply list_find_Some in Hf as (Hl & -> & _). done.
Qed.

Ltac inv_leaf :=
  unfold tuInvariant; sess_simpl_goal;
  let H := fresh in let Hr := fresh in
  intros H Hr;
  first
    [ done
    | let i := fresh "i" in
      destruct (H Hr) as (i & ? & ?); exists i; split; [congruence|];
      rewrite ?length_app; lia
    | eexists; split; [reflexivity|]; eapply lookup_lt_Some; eassumption ].

Ltac ready_leaf :=
  unfold setsReadyOnMatch, candidateOf; sess_simpl_goal;
  let Hr := fresh in
  intros Hr;
  first
    [ discriminate Hr
    | left; split; [exact Hr|first [reflexivity | congruence]]
    | right;
      match goal with
      | Hi : indexOfPerfect _ = Some ?n, Hf : Forall2 _ ?cs ?stns,
        Hl : ?cs !! ?n = Some ?l |- _ =>
          let stn := fresh "stn" in
          let Hstn := fresh in
          apply indexOfPerfect_Some in Hi; rewrite list_lookup_fmap in Hi;
          destruct (Forall2_lookup_l _ _ _ _ _ Hf Hl) as (stn & Hstn & ?);
          rewrite Hstn in Hi; cbn in Hi; injection Hi as Hi;
          exists n, l, stn; by repeat split
      end ].

Ltac shrink_leaf :=
  unfold clearsReadyOnRemoval; sess_simpl_goal;
  first [ done | rewrite ?length_app; intros; lia ].

Lemma handler_tuDiscipline env a s :
  wp (handler env a) (fun _ => tuDiscipline s) (tuDiscipline s) (tuDiscipline s) s.
Proof.
  destruct a; cbn [handler]; wp_all;
    (split; [inv_leaf | split; [ready_leaf | shrink_leaf]]).
Qed.

Lemma step_tuDiscipline s ea : tuDiscipline s (step s ea).
Proof.
  destruct ea as [env a]. unfold step. cbn [fst snd].
  apply (wp_exec _ (tuDiscipline s)). apply handler_tuDiscipline.
Qed.

Lemma run_keeps_tuInvariant trace s : tuInvariant s -> tuInvariant (run s trace).
Proof.
  revert s. induction trace as [|ea trace IH]; intros s H; [done|].
  apply IH. by apply step_tuDiscipline.
Qed.

Lemma loaded_tuInvariant savedMode : tuInvariant (loaded savedMode).
Proof. rewrite loaded_reset. intros H. discriminate H. Qed.

(** C10: in every session reached from the loaded page, when [readyForTU]
    is set the active index is an index into the registry; a handler that
    sets [readyForTU] puts the index on a registry station that the matcher
    found perfect; a handler that takes a station out of the registry (the
    confirm action, a reset, a change of mode) clears [readyForTU]; and
    the two resets, which empty the registry, always clear it. *)
Theorem confirm_addresses_a_station :
  (forall savedMode trace, tuInvariant (run (loaded savedMode) trace)) /\
  (forall s ea, setsReadyOnMatch s (step s ea)) /\
  (forall s ea, clearsReadyOnRemoval s (step s ea)) /\
  (forall s, readyForTU (exec reset s) = false /\
             readyForTU (exec resetGameState s) = false).
Proof.
  split; [|split; [|split]].
  - intros. apply run_keeps_tuInvariant, loaded_tuInvariant.
  - intros. apply step_tuDiscipline.
  - intros. apply step_tuDiscipline.
  - by split.
Qed.

End Invariant.

Lemma confirm_addresses_a_station_witness :
  exists i,
    activeStationIndex (run (C := Demo.world) (loaded (C := Demo.world) "contest") Demo.match_k1abc)
      = Some i /\
    (i < length (currentStations
                   (run (C := Demo.world) (loaded (C := Demo.world) "contest") Demo.match_k1abc)))%nat.
Proof.
  apply (proj1 (confirm_addresses_a_station (C := Demo.world))).
  vm_compute. reflexivity.
Defined.


(** ** QRS *)

Section Qrs.

Context {C : Collaborators}.

Lemma gotPlayers_lookup h h' l stn :
  gotPlayers h h' -> h !! l = Some stn ->
  exists stn', h' !! l = Some stn' /\ sameStation stn' stn /\
    (player stn <> None -> player stn' <> None).
Proof.
  intros Hg Hl. destruct (Forall2_lookup_l _ _ _ _ _ Hg Hl) as (stn' & Hl' & Hor).
  exists stn'. split; [done|]. destruct Hor as [->|[p ->]].
  - done.
  - split; [by destruct stn|]. done.
Qed.

Lemma slowDown_spec stn :
  enableFarnsworth (slowDown stn) = true /\
  farnsworthSpeed (slowDown stn) =
    (if enableFarnsworth stn
     then Z.max 5 (farnsworthSpeed stn - 6)
     else wpm stn - 6) /\
  wpm (slowDown stn) = wpm stn /\
  callsign (slowDown stn) = callsign stn /\
  player (slowDown stn) = player stn.
Proof. unfold slowDown, farnsworthLowerBy. by destruct stn as [? ? [] ? ? ?]. Qed.

Lemma slowDown_floor n stn :
  enableFarnsworth stn = true -> farnsworthSpeed stn = 5 ->
  enableFarnsworth (Nat.iter n slowDown stn) = true /\
  farnsworthSpeed (Nat.iter n slowDown stn) = 5.
Proof.
  intros He Hs. induction n as [|n [IHe IHs]]; [done|].
  change (Nat.iter (S n) slowDown stn) with (slowDown (Nat.iter n slowDown stn)).
  destruct (slowDown_spec (Nat.iter n slowDown stn)) as (-> & -> & _).
  rewrite IHe, IHs. done.
Qed.

Lemma slowDown_from_20 stn :
  wpm stn = 20 -> enableFarnsworth stn = false ->
  farnsworthSpeed (slowDown stn) = 14 /\
  farnsworthSpeed (slowDown (slowDown stn)) = 8 /\
  forall n, (3 <= n)%nat -> farnsworthSpeed (Nat.iter n slowDown stn) = 5.
Proof.
  intros Hw He. destruct stn as [cs w ef fs at' pl]. cbn in Hw, He. subst.
  split; [done|]. split; [done|].
  intros n Hn. replace n with ((n - 3) + 3)%nat by lia.
  rewrite Nat.iter_add. by apply slowDown_floor.
Qed.

Lemma send_qrs_multi env s cfg you p targets :
  lock (audio s) <= now env ->
  responseFieldText s = "QRS" ->
  modeLogicConfig (currentMode s) = Some cfg ->
  showTuStep cfg = true ->
  currentStations s <> [] ->
  yourStation s = Some you -> player you = Some p ->
  arrayOf (lastRespondingStations s) s = Some targets ->
  NoDup targets ->
  wp (send env)
    (fun _ s' => forall l stn, l ∈ targets -> heap s !! l = Some stn ->
       exists stn', heap s' !! l = Some stn' /\ sameStation stn' (slowDown stn))
    (fun s' => forall l stn, l ∈ targets -> heap s !! l = Some stn ->
       exists stn', heap s' !! l = Some stn' /\ sameStation stn' (slowDown stn))
    (fun s' => forall l stn, l ∈ targets -> heap s !! l = Some stn ->
       exists stn', heap s' !! l = Some stn' /\ sameStation stn' (slowDown stn))
    s.
Proof.
  unfold responseFieldText. intros Hlock Htext Hcfg Htu Hne Hyou Hp Harr Hnd.
  apply Z.ltb_ge in Hlock.
  assert (Hlen : length (currentStations s) <> 0%nat) by by destruct (currentStations s).
  unfold arrayOf in Harr.
  wp_go_with ltac:(congruence) ltac:(rewrite ?Htext).
  all: sess_simpl_goal; intros l stn Hin Hl.
  all: match goal with
       | H : gotPlayers (foldl _ _ _) _ |- _ =>
           eapply gotPlayers_lookup in H as (stn' & ? & ? & _);
             [eauto|];
           rewrite slowDown_all_lookup, decide_True, Hl by done; done
       end.
Qed.

Lemma send_qrs_single env s cfg you p l stn :
  lock (audio s) <= now env ->
  responseFieldText s = "QRS" ->
  modeLogicConfig (currentMode s) = Some cfg ->
  showTuStep cfg = false ->
  yourStation s = Some you -> player you = Some p ->
  currentStation s = Some l ->
  heap s !! l = Some stn ->
  wp (send env) (fun _ => singleQrsDone s l stn) (singleQrsDone s l stn)
     (singleQrsDone s l stn) s.
Proof.
  unfold responseFieldText. intros Hlock Htext Hcfg Htu Hyou Hp Hcur Hl.
  apply Z.ltb_ge in Hlock.
  assert (Hl' : alter slowDown l (heap s) !! l = Some (slowDown stn))
    by by rewrite list_lookup_alter_eq, Hl.
  wp_go_with ltac:(congruence) ltac:(rewrite ?Htext).
  all: unfold singleQrsDone; sess_simpl_goal.
  all: eexists; split; [by rewrite list_lookup_alter_eq, Hl'|].
  all: split; [done|]; split; [done|].
  all: destruct (slowDown_spec stn) as (_ & _ & _ & Hcs & _).
  - intros Hc. congruence.
  - intros _. eexists. split; [apply last_snoc|]. by split.
Qed.

(** C1: a QRS send applies the slow-down step to every station it targets:
    the stations of [lastRespondingStations] in a mode with a TU step, the
    active station in single mode. The step enables Farnsworth at
    [wpm - 6] when it was off and lowers the Farnsworth speed to
    [max 5 (speed - 6)] when it was on; from wpm 20 with Farnsworth off
    the speeds are 14, then 8, then 5 for every further step. *)
Theorem qrs_lowers_farnsworth env s cfg you p :
  lock (audio s) <= now env ->
  responseFieldText s = "QRS" ->
  modeLogicConfig (currentMode s) = Some cfg ->
  yourStation s = Some you -> player you = Some p ->
  (showTuStep cfg = true -> currentStations s <> [] ->
   forall targets, arrayOf (lastRespondingStations s) s = Some targets ->
     NoDup targets ->
     forall l stn, l ∈ targets -> heap s !! l = Some stn ->
       exists stn', heap (exec (send env) s) !! l = Some stn' /\
         sameStation stn' (slowDown stn)) /\
  (showTuStep cfg = false ->
   forall l stn, currentStation s = Some l -> heap s !! l = Some stn ->
     exists stn', heap (exec (send env) s) !! l = Some stn' /\
       sameStation stn' (slowDown stn)) /\
  (forall stn,
     enableFarnsworth (slowDown stn) = true /\
     farnsworthSpeed (slowDown stn) =
       if enableFarnsworth stn then Z.max 5 (farnsworthSpeed stn - 6)
       else wpm stn - 6) /\
  (forall stn, wpm stn = 20 -> enableFarnsworth stn = false ->
     farnsworthSpeed (slowDown stn) = 14 /\
     farnsworthSpeed (slowDown (slowDown stn)) = 8 /\
     forall n, (3 <= n)%nat -> farnsworthSpeed (Nat.iter n slowDown stn) = 5).
Proof.
  intros Hlock Htext Hcfg Hyou Hp. split; [|split; [|split]].
  - intros Htu Hne targets Harr Hnd.
    apply (wp_exec (send env)
             (fun s' => forall l stn, l ∈ targets -> heap s !! l = Some stn ->
                exists stn', heap s' !! l = Some stn' /\
                  sameStation stn' (slowDown stn))).
    by eapply send_qrs_multi.
  - intros Htu l stn Hcur Hl.
    pose proof (wp_exec (send env) (singleQrsDone s l stn) s
                  (send_qrs_single env s cfg you p l stn
                     Hlock Htext Hcfg Htu Hyou Hp Hcur Hl)) as (q & Hq & _).
    eexists. split; [exact Hq|]. done.
  - intros stn. by destruct (slowDown_spec stn) as (? & ? & _).
  - apply slowDown_from_20.
Qed.

End Qrs.


Lemma qrs_lowers_farnsworth_witness :
  exists stn',
    heap (exec (send (C := Demo.world) (Demo.at_time 10000 [])) Demo.qrs_contest)
      !! 0%nat = Some stn' /\
    sameStation stn' (slowDown Demo.k1abc_on_air).
Proof.
  refine (proj1 (qrs_lowers_farnsworth (C := Demo.world) (Demo.at_time 10000 [])
                   Demo.qrs_contest Demo.contestMode Demo.me_on_air
                   (mkPlayer 0 25 false 25) _ _ _ _ _)
            _ _ [0; 1]%nat _ _ 0%nat Demo.k1abc_on_air _ _).
  - vm_compute. discriminate.
  - vm_compute. reflexivity.
  - vm_compute. reflexivity.
  - vm_compute. reflexivity.
  - vm_compute. reflexivity.
  - vm_compute. reflexivity.
  - vm_compute. discriminate.
  - vm_compute. reflexivity.
  - apply (bool_decide_unpack _). vm_compute. exact I.
  - apply (bool_decide_unpack _). vm_compute. exact I.
  - vm_compute. reflexivity.
Defined.

(** Four QRS sends in a row, in single mode and in a contest mode. *)
Example qrs_four_times_single :
  map (fun n => farnsworthSpeed <$>
         heap (run (C := Demo.world) Demo.qrs_single
                 (Demo.sends n)) !! 0%nat)
      [1; 2; 3; 4]%nat
  = [Some 14; Some 8; Some 5; Some 5].
Proof. vm_compute. reflexivity. Qed.

Example qrs_four_times_contest :
  map (fun n => farnsworthSpeed <$>
         heap (run (C := Demo.world) Demo.qrs_contest
                 (Demo.sends n)) !! 0%nat)
      [1; 2; 3; 4]%nat
  = [Some 14; Some 8; Some 5; Some 5].
Proof. vm_compute. reflexivity. Qed.

(** ** Well-formed registries *)

Section WellFormed.

Context {C : Collaborators}.

Lemma NoDup_push (cs : list nat) n k :
  NoDup cs -> Forall (fun l => (l < n)%nat) cs -> NoDup (cs ++ seq n k).
Proof.
  intros Hnd Hb. apply NoDup_app. split; [done|]. split; [|apply NoDup_seq].
  intros l Hl Hs. apply elem_of_seq in Hs.
  rewrite Forall_forall in Hb. specialize (Hb l Hl). lia.
Qed.

Lemma Forall_push (cs : list nat) n k m :
  Forall (fun l => (l < n)%nat) cs -> (n + k <= m)%nat ->
  Forall (fun l => (l < m)%nat) (cs ++ seq n k).
Proof.
  intros Hb Hm. apply Forall_app. split.
  - eapply Forall_impl; [exact Hb|]. intros; simpl in *; lia.
  - apply Forall_forall. intros l Hs. apply elem_of_seq in Hs. lia.
Qed.

Lemma NoDup_delete_at (cs : list nat) i : NoDup cs -> NoDup (delete i cs).
Proof. intros. eapply sublist_NoDup; [done|apply sublist_delete]. Qed.

Lemma Forall_delete_at (P : nat -> Prop) (cs : list nat) i :
  Forall P cs -> Forall P (delete i cs).
Proof.
  rewrite !Forall_forall. intros H l Hl. apply H.
  eapply elem_of_sublist; [done|apply sublist_delete].
Qed.

Lemma filterPartial_sublist cs results : filterPartial cs results `sublist_of` cs.
Proof.
  revert results. induction cs as [|l cs IH]; intros [|r results]; cbn;
    try (by apply sublist_nil_l).
  destruct (decide (r = Partial)); [by apply sublist_skip|by apply sublist_cons].
Qed.

Lemma Forall_bound_mono (cs : list nat) n m :
  Forall (fun l => (l < n)%nat) cs -> (n <= m)%nat ->
  Forall (fun l => (l < m)%nat) cs.
Proof. intros Hb Hm. eapply Forall_impl; [exact Hb|]. intros; simpl in *; lia. Qed.

Lemma length_slowDown_all (h : list Station) targets :
  length (foldl (fun h l => alter slowDown l h) h targets) = length h.
Proof.
  revert h. induction targets as [|l rest IH]; intros h; [done|].
  cbn [foldl]. by rewrite IH, length_alter.
Qed.

Ltac wf_lengths :=
  repeat match goal with
    | H : gotPlayers _ _ |- _ => apply gotPlayers_length in H
    end;
  repeat match goal with
    | H : length _ = _ |- _ => rewrite H
    end;
  repeat first
    [ rewrite length_app | rewrite length_alter
    | rewrite length_slowDown_all | rewrite length_seq ];
  cbn [length].

Ltac wf_nodup :=
  first
    [ apply NoDup_nil_2
    | assumption
    | apply NoDup_delete_at; assumption
    | apply NoDup_push;
        [ first [assumption | apply NoDup_delete_at; assumption]
        | first [assumption | apply Forall_delete_at; assumption] ] ].

Ltac wf_bound :=
  first
    [ apply Forall_nil_2
    | eapply Forall_push;
        [ first [eassumption | apply Forall_delete_at; eassumption]
        | wf_lengths; lia ]
    | eapply Forall_bound_mono;
        [ first [eassumption | apply Forall_delete_at; eassumption]
        | wf_lengths; lia ] ].

Ltac wf_own Hnd Ho :=
  let ts := fresh "ts" in
  let Hts := fresh in
  intros ts Hts;
  first
    [ discriminate Hts
    | apply Ho; exact Hts
    | injection Hts as <-;
      first [ assumption
            | eapply sublist_NoDup; [exact Hnd|apply filterPartial_sublist] ]
    | destruct (lastRespondingStations _) eqn:?;
      first [ discriminate Hts
            | injection Hts as <-; first [assumption | by apply Ho] ] ].

Lemma handler_keeps_wellFormed env a s :
  wellFormed s ->
  wp (handler env a) (fun _ => wellFormed) wellFormed wellFormed s.
Proof.
  intros (Hnd & Hb & Ho). destruct a; cbn [handler]; wp_all.
  all: unfold wellFormed; sess_simpl_goal.
  all: (split; [try wf_nodup|split; [try wf_bound|try wf_own Hnd Ho]]).
Qed.

Lemma run_keeps_wellFormed trace s : wellFormed s -> wellFormed (run s trace).
Proof.
  revert s. induction trace as [|[env a] trace IH]; intros s H; [done|].
  apply IH. unfold step. cbn [fst snd]. apply wp_exec.
  by apply handler_keeps_wellFormed.
Qed.

Lemma loaded_wellFormed savedMode : wellFormed (loaded savedMode).
Proof. rewrite loaded_reset. split; [apply NoDup_nil_2|]. split; [apply Forall_nil_2|]. discriminate. Qed.

(** In a session reached from the loaded page, the array a QRS send goes
    through holds each station once. *)
Lemma reachable_targets_NoDup savedMode trace targets :
  arrayOf (lastRespondingStations (run (loaded savedMode) trace))
          (run (loaded savedMode) trace) = Some targets ->
  NoDup targets.
Proof.
  pose proof (run_keeps_wellFormed trace _ (loaded_wellFormed savedMode))
    as (Hnd & _ & Ho).
  unfold arrayOf. destruct (lastRespondingStations _) eqn:Hl; intros ?; simplify_eq.
  - done.
  - by apply Ho.
Qed.

End WellFormed.

(** ** The player of a station after QRS *)

Section Rebuild.

Context {C : Collaborators}.

Lemma builtFor_fits p stn : builtFor p stn = true <-> playerFits p stn.
Proof.
  unfold builtFor, playerFits.
  rewrite !andb_true_iff, !bool_decide_eq_true. tauto.
Qed.

(** One round of [respondWithAllStations], for a station of the store. *)
Lemma respond_cons env l rest start s stn :
  heap s !! l = Some stn ->
  exists q h a t new,
    respondWithAllStations env (l :: rest) start s =
      respondWithAllStations env rest t (set_heap h (set_audio a s)) /\
    h = <[l := set_player (Some q) stn]> (heap s) /\
    playerFits q stn /\
    (player stn = Some q \/ (nextPlayer (audio s) <= pl_id q)%nat) /\
    (nextPlayer (audio s) <= nextPlayer a)%nat /\
    noise a = noise (audio s) /\
    tones a = (tones (audio s) ++ new)%list /\
    (callsign stn <> "" ->
     exists t', t' ∈ new /\ tone_player t' = q /\ tone_text t' = callsign stn).
Proof.
  intros Hl. cbn [respondWithAllStations].
  unfold bind at 1, stationAt, bind at 1, gets, deref. rewrite Hl. unfold ret at 1.
  destruct s as [? ? h ? ? ? ? ? ? ? ? ? [lk nz tn np] ?]. cbn in Hl.
  destruct (player stn) as [p|] eqn:Hp; [destruct (builtFor p stn) eqn:Hb|].
  - apply builtFor_fits in Hb.
    unfold bind at 1, ret at 1, playSentence.
    assert (Hid : h = <[l:=set_player (Some p) stn]> h).
    { rewrite list_insert_id; [done|]. rewrite Hl. by destruct stn; simplify_eq/=. }
    destruct (decide (callsign stn = "")) as [Hc|Hc].
    + eexists p, h, _, _, []. split; [unfold bind, ret, updateAudioLock, modify_audio, modify, gets; sess_simpl; reflexivity|]. sess_simpl.
      split; [done|]. split; [done|]. split; [by left|]. split; [done|].
      split; [done|]. split; [by rewrite app_nil_r|done].
    + eexists p, h, _, _, [_]. split; [unfold bind, ret, updateAudioLock, modify_audio, modify, gets; sess_simpl; reflexivity|]. sess_simpl.
      split; [done|]. split; [done|]. split; [by left|]. split; [done|].
      split; [done|]. split; [done|]. intros _. eexists.
      split; [apply list_elem_of_singleton; reflexivity|done].
  - unfold bind at 1, createMorsePlayer, bind at 1, gets, bind at 1,
      modify_audio, modify, bind at 1, ret at 1, updateStation, modify,
      bind at 1, ret at 1, playSentence.
    cbn [audio nextPlayer].
    assert (Hal : alter (set_player (Some (mkPlayer np (wpm stn) (enableFarnsworth stn) (farnsworthSpeed stn)))) l h
                  = <[l:=set_player (Some (mkPlayer np (wpm stn) (enableFarnsworth stn) (farnsworthSpeed stn))) stn]> h).
    { apply list_eq. intros i. destruct (decide (i = l)) as [->|Hne].
      - rewrite list_lookup_alter_eq, Hl, list_lookup_insert_eq; [done|].
        by eapply lookup_lt_Some.
      - by rewrite list_lookup_alter_ne, list_lookup_insert_ne. }
    destruct (decide (callsign stn = "")) as [Hc|Hc].
    + eexists _, _, _, _, []. split; [unfold bind, ret, updateAudioLock, modify_audio, modify, gets; sess_simpl; reflexivity|]. sess_simpl.
      split; [exact Hal|]. split; [done|]. split; [right; cbn; lia|].
      split; [cbn; lia|]. split; [done|]. split; [by rewrite app_nil_r|done].
    + eexists _, _, _, _, [_]. split; [unfold bind, ret, updateAudioLock, modify_audio, modify, gets; sess_simpl; reflexivity|]. sess_simpl.
      split; [exact Hal|]. split; [done|]. split; [right; cbn; lia|].
      split; [cbn; lia|]. split; [done|]. split; [done|]. intros _. eexists.
      split; [apply list_elem_of_singleton; reflexivity|done].
  - unfold bind at 1, createMorsePlayer, bind at 1, gets, bind at 1,
      modify_audio, modify, bind at 1, ret at 1, updateStation, modify,
      bind at 1, ret at 1, playSentence.
    cbn [audio nextPlayer].
    assert (Hal : alter (set_player (Some (mkPlayer np (wpm stn) (enableFarnsworth stn) (farnsworthSpeed stn)))) l h
                  = <[l:=set_player (Some (mkPlayer np (wpm stn) (enableFarnsworth stn) (farnsworthSpeed stn))) stn]> h).
    { apply list_eq. intros i. destruct (decide (i = l)) as [->|Hne].
      - rewrite list_lookup_alter_eq, Hl, list_lookup_insert_eq; [done|].
        by eapply lookup_lt_Some.
      - by rewrite list_lookup_alter_ne, list_lookup_insert_ne. }
    destruct (decide (callsign stn = "")) as [Hc|Hc].
    + eexists _, _, _, _, []. split; [unfold bind, ret, updateAudioLock, modify_audio, modify, gets; sess_simpl; reflexivity|]. sess_simpl.
      split; [exact Hal|]. split; [done|]. split; [right; cbn; lia|].
      split; [cbn; lia|]. split; [done|]. split; [by rewrite app_nil_r|done].
    + eexists _, _, _, _, [_]. split; [unfold bind, ret, updateAudioLock, modify_audio, modify, gets; sess_simpl; reflexivity|]. sess_simpl.
      split; [exact Hal|]. split; [done|]. split; [right; cbn; lia|].
      split; [cbn; lia|]. split; [done|]. split; [done|]. intros _. eexists.
      split; [apply list_elem_of_singleton; reflexivity|done].
Qed.

Lemma gotPlayers_insert h l stn q :
  h !! l = Some stn -> gotPlayers h (<[l := set_player (Some q) stn]> h).
Proof.
  intros Hl. apply Forall2_same_length_lookup_2.
  { by rewrite length_insert. }
  intros i a b Ha Hb. destruct (decide (i = l)) as [->|Hne].
  - rewrite list_lookup_insert_eq in Hb by (by eapply lookup_lt_Some).
    simplify_eq. right. eauto.
  - rewrite list_lookup_insert_ne in Hb by done. simplify_eq. by left.
Qed.

(** [respondWithAllStations] on stations of the store: it runs to its end;
    tones are added and players given, and every station of the array is
    left with a player built for its timing parameters, with which it has
    sent its callsign. *)
Lemma respond_replied env stations start s :
  Forall (fun l => (l < length (heap s))%nat) stations ->
  exists h a new,
    respondWithAllStations env stations start s
      = (Normal tt, set_heap h (set_audio a s)) /\
    gotPlayers (heap s) h /\
    noise a = noise (audio s) /\
    (nextPlayer (audio s) <= nextPlayer a)%nat /\
    tones a = (tones (audio s) ++ new)%list /\
    (forall l, l ∉ stations -> h !! l = heap s !! l) /\
    forall l stn, l ∈ stations -> heap s !! l = Some stn ->
      exists q, h !! l = Some (set_player (Some q) stn) /\
        playerFits q stn /\
        (player stn = Some q \/ (nextPlayer (audio s) <= pl_id q)%nat) /\
        (callsign stn <> "" ->
         exists t, t ∈ new /\ tone_player t = q /\ tone_text t = callsign stn).
Proof.
  revert start s. induction stations as [|l0 rest IH]; intros start s Hv.
  - exists (heap s), (audio s), [].
    split; [by destruct s|]. split; [apply gotPlayers_refl|].
    split; [done|]. split; [done|]. split; [by rewrite app_nil_r|].
    split; [done|]. intros l stn Hin. by apply elem_of_nil in Hin.
  - apply Forall_cons in Hv as [Hl0 Hv].
    destruct (lookup_lt_is_Some_2 _ _ Hl0) as [stn0 Hs0].
    destruct (respond_cons env l0 rest start s stn0 Hs0)
      as (q0 & h1 & a1 & t & new1 & Heq & Hh1 & Hfit0 & Hold0 & Hnp1 & Hnz1 & Htn1 & Htone0).
    destruct (IH t (set_heap h1 (set_audio a1 s)))
      as (h & a & new2 & Heq2 & Hg2 & Hnz2 & Hnp2 & Htn2 & Hframe2 & Htargets2).
    { sess_simpl_goal. subst h1. by rewrite length_insert. }
    sess_simpl.
    exists h, a, (new1 ++ new2)%list.
    split. { rewrite Heq, Heq2. by destruct s. }
    split. { eapply gotPlayers_trans; [|exact Hg2]. subst h1. by apply gotPlayers_insert. }
    split; [congruence|]. split; [lia|].
    split. { by rewrite Htn2, Htn1, app_assoc. }
    split.
    { intros l Hl. rewrite Hframe2 by (intros ?; apply Hl; by apply elem_of_cons; right).
      subst h1. apply list_lookup_insert_ne. intros ->. apply Hl. by apply elem_of_cons; left. }
    intros l stn Hin Hs.
    destruct (decide (l ∈ rest)) as [Hr|Hr].
    + destruct (decide (l = l0)) as [->|Hne].
      * assert (stn = stn0) as -> by congruence.
        destruct (Htargets2 l0 (set_player (Some q0) stn0) Hr)
          as (q & Hq & Hfit & Hold & Htone).
        { subst h1. by apply list_lookup_insert_eq. }
        exists q. split; [by rewrite Hq; destruct stn0|]. split; [exact Hfit|].
        split.
        { destruct Hold as [Hold|Hold]; [|right; lia].
          cbn in Hold. simplify_eq. exact Hold0. }
        intros Hc. destruct (Htone Hc) as (t' & Ht' & ? & ?).
        exists t'. split; [|done]. apply elem_of_app. by right.
      * destruct (Htargets2 l stn Hr) as (q & Hq & Hfit & Hold & Htone).
        { subst h1. by rewrite list_lookup_insert_ne. }
        exists q. split; [done|]. split; [done|].
        split. { destruct Hold as [Hold|Hold]; [by left|right; lia]. }
        intros Hc. destruct (Htone Hc) as (t' & Ht' & ? & ?).
        exists t'. split; [|done]. apply elem_of_app. by right.
    + assert (l = l0) as -> by (apply elem_of_cons in Hin as [?|?]; done).
      assert (stn = stn0) as -> by congruence. exists q0.
      split. { rewrite (Hframe2 _ Hr). subst h1. by apply list_lookup_insert_eq. }
      split; [done|]. split; [done|].
      intros Hc. destruct (Htone0 Hc) as (t' & Ht' & ? & ?).
      exists t'. split; [|done]. apply elem_of_app. by left.
Qed.

Lemma wp_respond_replied env stations start
    (Q : unit -> Session -> Prop) (R T : Session -> Prop) s :
  Forall (fun l => (l < length (heap s))%nat) stations ->
  (forall h a new,
     tones a = (tones (audio s) ++ new)%list ->
     (forall l stn, l ∈ stations -> heap s !! l = Some stn ->
        exists q, h !! l = Some (set_player (Some q) stn) /\
          playerFits q stn /\
          (player stn = Some q \/ (nextPlayer (audio s) <= pl_id q)%nat) /\
          (callsign stn <> "" ->
           exists t, t ∈ new /\ tone_player t = q /\ tone_text t = callsign stn)) ->
     Q tt (set_heap h (set_audio a s))) ->
  wp (respondWithAllStations env stations start) Q R T s.
Proof.
  intros Hv H.
  destruct (respond_replied env stations start s Hv)
    as (h & a & new & Heq & _ & _ & _ & Htn & _ & Ht).
  unfold wp. rewrite Heq. by apply (H h a new).
Qed.

Ltac wp_replied :=
  lazymatch goal with
  | |- wp (respondWithAllStations _ _ _) _ _ _ _ =>
      apply wp_respond_replied;
        [sess_simpl_goal; by rewrite length_slowDown_all|];
      sess_simpl_goal; intros ? ? ? ? ?
  end.

Lemma send_qrs_multi_rebuilt env s cfg you p targets l stn :
  lock (audio s) <= now env ->
  responseFieldText s = "QRS" ->
  modeLogicConfig (currentMode s) = Some cfg ->
  showTuStep cfg = true ->
  currentStations s <> [] ->
  yourStation s = Some you -> player you = Some p ->
  arrayOf (lastRespondingStations s) s = Some targets ->
  NoDup targets ->
  Forall (fun l => (l < length (heap s))%nat) targets ->
  l ∈ targets -> heap s !! l = Some stn ->
  wp (send env) (fun _ => qrsRebuilt s l stn) (qrsRebuilt s l stn)
     (qrsRebuilt s l stn) s.
Proof.
  unfold responseFieldText. intros Hlock Htext Hcfg Htu Hne Hyou Hp Harr Hnd Hv Hin Hl.
  apply Z.ltb_ge in Hlock.
  assert (Hlen : length (currentStations s) <> 0%nat) by by destruct (currentStations s).
  unfold arrayOf in Harr.
  repeat (first [wp_prim | wp_replied | wp_loop | wp_decide ltac:(congruence)];
          wp_state; rewrite ?Htext).
  all: unfold qrsRebuilt; sess_simpl_goal.
  all: match goal with
       | H : forall l stn, l ∈ _ -> _ -> exists q, _ |- _ =>
           destruct (H l (slowDown stn) Hin) as (q & Hq & Hfit & Hold & Htone);
             [by rewrite slowDown_all_lookup, decide_True, Hl by done|]
       end.
  all: destruct (slowDown_spec stn) as (_ & _ & _ & Hcs & Hpl).
  all: exists q; split; [by rewrite Hq; destruct stn as [? ? [] ? ? ?]|].
  all: split; [exact Hfit|]; split; [by rewrite <- Hpl|].
  all: intros Hc; rewrite Hcs in Htone; destruct (Htone Hc) as (t & Ht & ? & ?).
  all: exists t; split; [|done].
  all: match goal with Ha : tones _ = _ |- _ => rewrite Ha end.
  all: rewrite <- app_assoc, drop_app_length; apply elem_of_app; by right.
Qed.

Lemma send_qrs_single_rebuilt env s cfg you p l stn :
  lock (audio s) <= now env ->
  responseFieldText s = "QRS" ->
  modeLogicConfig (currentMode s) = Some cfg ->
  showTuStep cfg = false ->
  yourStation s = Some you -> player you = Some p ->
  currentStation s = Some l ->
  heap s !! l = Some stn ->
  wp (send env) (fun _ => qrsRebuilt s l stn) (qrsRebuilt s l stn)
     (qrsRebuilt s l stn) s.
Proof.
  unfold responseFieldText. intros Hlock Htext Hcfg Htu Hyou Hp Hcur Hl.
  apply Z.ltb_ge in Hlock.
  assert (Hl' : alter slowDown l (heap s) !! l = Some (slowDown stn))
    by by rewrite list_lookup_alter_eq, Hl.
  wp_go_with ltac:(congruence) ltac:(rewrite ?Htext).
  all: unfold qrsRebuilt; sess_simpl_goal.
  all: eexists; split; [by rewrite list_lookup_alter_eq, Hl'|].
  all: split; [done|].
  all: split; [right; cbn; lia|].
  all: destruct (slowDown_spec stn) as (_ & _ & _ & Hcs & _).
  - intros Hc. congruence.
  - intros _. eexists. split.
    + rewrite <- app_assoc, drop_app_length. apply elem_of_app. right.
      apply list_elem_of_singleton. reflexivity.
    + by split.
Qed.

(** C9: a QRS send leaves every station it targets, in a mode with a TU
    step (a station of [lastRespondingStations]) as in single mode (the
    active station), with the slow-down step applied and with a player
    built for the lowered speed, and the station sends its callsign again
    with that player. The player is the one the station had when that one
    fits the lowered speed already, and an instance made during the send
    otherwise. *)
Theorem qrs_rebuilds_the_player env s cfg you p l stn :
  lock (audio s) <= now env ->
  responseFieldText s = "QRS" ->
  modeLogicConfig (currentMode s) = Some cfg ->
  yourStation s = Some you -> player you = Some p ->
  heap s !! l = Some stn ->
  (showTuStep cfg = true /\ currentStations s <> [] /\
   exists targets,
     arrayOf (lastRespondingStations s) s = Some targets /\ NoDup targets /\
     Forall (fun l => (l < length (heap s))%nat) targets /\ l ∈ targets) \/
  (showTuStep cfg = false /\ currentStation s = Some l) ->
  qrsRebuilt s l stn (exec (send env) s).
Proof.
  intros Hlock Htext Hcfg Hyou Hp Hl
    [(Htu & Hne & targets & Harr & Hnd & Hv & Hin)|(Htu & Hcur)].
  - apply (wp_exec (send env) (qrsRebuilt s l stn)).
    by eapply send_qrs_multi_rebuilt.
  - apply (wp_exec (send env) (qrsRebuilt s l stn)).
    by eapply send_qrs_single_rebuilt.
Qed.

End Rebuild.

Lemma qrs_rebuilds_the_player_witness :
  qrsRebuilt Demo.qrs_contest 0%nat Demo.k1abc_on_air
    (exec (send (C := Demo.world) (Demo.at_time 10000 [])) Demo.qrs_contest).
Proof.
  apply (qrs_rebuilds_the_player (C := Demo.world) (Demo.at_time 10000 [])
           Demo.qrs_contest Demo.contestMode Demo.me_on_air
           (mkPlayer 0 25 false 25)).
  - vm_compute. discriminate.
  - vm_compute. reflexivity.
  - vm_compute. reflexivity.
  - vm_compute. reflexivity.
  - vm_compute. reflexivity.
  - vm_compute. reflexivity.
  - left. split; [vm_compute; reflexivity|]. split; [vm_compute; discriminate|].
    exists [0; 1]%nat. split; [vm_compute; reflexivity|].
    split; [apply (bool_decide_unpack _); vm_compute; exact I|].
    split; [apply (bool_decide_unpack _); vm_compute; exact I|].
    apply (bool_decide_unpack _). vm_compute. exact I.
Defined.

(** In the contest session a QRS send turns Farnsworth on at 14 for
    [K1ABC]; the player built when Farnsworth was off is replaced by player
    3, built with Farnsworth on at 14, and the callsign is sent again with
    it. *)
Example multi_qrs_new_player :
  let s := Demo.qrs_contest in
  let s' := exec (send (C := Demo.world) (Demo.at_time 10000 [])) s in
  (player <$> heap s !! 0%nat) = Some (Some (mkPlayer 1 20 false 20)) /\
  (player <$> heap s' !! 0%nat) = Some (Some (mkPlayer 3 20 true 14)) /\
  length (tones (audio s)) = 3%nat /\
  ((fun t => (tone_player t, tone_text t)) <$> tones (audio s') !! 4%nat)
    = Some (mkPlayer 3 20 true 14, "K1ABC").
Proof. cbv zeta. repeat split; vm_compute; reflexivity. Qed.

(** In single mode the same send builds a new player as well (see
    [send_qrs_single]): in the single session the station gets player 2,
    built with Farnsworth on at 14. *)
Example single_qrs_new_player :
  (player <$>
     heap (exec (send (C := Demo.world) (Demo.at_time 10000 [])) Demo.qrs_single) !! 0%nat)
  = Some (Some (mkPlayer 2 20 true 14)).
Proof. vm_compute. reflexivity. Qed.


Section Confirm.

Context {C : Collaborators}.

Lemma tu_not_ready env s :
  readyForTU s = false -> exec (tu env) s = s.
Proof.
  intros Hr. unfold exec, tu, bind, getAudioLock, getModeConfig, gets.
  destruct (now env <? lock (audio s)); [done|].
  destruct (modeLogicConfig (currentMode s)) as [cfg|] eqn:Hc; cbn; [|done].
  rewrite Hr. by rewrite orb_true_r.
Qed.

Lemma tu_ready env s cfg i l stn you p :
  modeLogicConfig (currentMode s) = Some cfg ->
  showTuStep cfg = true ->
  readyForTU s = true ->
  lock (audio s) <= now env ->
  activeStationIndex s = Some i ->
  currentStations s !! i = Some l ->
  heap s !! l = Some stn ->
  yourStation s = Some you -> player you = Some p ->
  (theirSignoff cfg <> None -> player stn <> None) ->
  wp (tu env) (fun _ => contactLogged env s i stn) (contactLogged env s i stn)
     (contactLogged env s i stn) s.
Proof.
  intros Hcfg Htu Hr Hlock Hi Hl Hs Hyou Hp Hsign.
  apply Z.ltb_ge in Hlock.
  unfold contactLogged, newcomers.
  destruct ((random env <? 400) || enableContinuous env) eqn:Hjoin.
  all: destruct (theirSignoff cfg) as [f|] eqn:Hf;
    [destruct (player stn) as [q|] eqn:Hq; [|by destruct Hsign]|].
  all: wp_go_with ltac:(congruence) ltac:(rewrite ?Htu, ?Hr).
  all: sess_simpl_goal; rewrite ?app_nil_r.
  all: (split; [eexists; split; [reflexivity|done]|done]).
Qed.

(** C2: in a mode with a TU step the confirm action changes nothing while
    [readyForTU] is false. When it is true (and the channel is free) the
    action appends one contact record, takes the station at
    [activeStationIndex] out of the registry and keeps every other one (the
    stations it then admits come after them), and clears [readyForTU] and
    the attempt counter. *)
Theorem tu_logs_and_removes env s cfg :
  modeLogicConfig (currentMode s) = Some cfg ->
  showTuStep cfg = true ->
  (readyForTU s = false -> exec (tu env) s = s) /\
  (readyForTU s = true ->
   lock (audio s) <= now env ->
   forall i l stn you p,
     activeStationIndex s = Some i ->
     currentStations s !! i = Some l ->
     heap s !! l = Some stn ->
     yourStation s = Some you -> player you = Some p ->
     (theirSignoff cfg <> None -> player stn <> None) ->
     contactLogged env s i stn (exec (tu env) s)).
Proof.
  intros Hcfg Htu. split; [apply tu_not_ready|].
  intros Hr Hlock i l stn you p Hi Hl Hs Hyou Hp Hsign.
  apply wp_exec. by eapply tu_ready.
Qed.

End Confirm.

Lemma tu_logs_and_removes_witness :
  contactLogged (Demo.at_time 30000 []) Demo.matched 0 Demo.k1abc_on_air
    (exec (tu (C := Demo.world) (Demo.at_time 30000 [])) Demo.matched).
Proof.
  refine (proj2 (tu_logs_and_removes (C := Demo.world) (Demo.at_time 30000 [])
                   Demo.matched Demo.contestMode _ _)
            _ _ 0%nat 0%nat Demo.k1abc_on_air Demo.me_on_air
            (mkPlayer 0 25 false 25) _ _ _ _ _ _).
  - vm_compute. reflexivity.
  - vm_compute. reflexivity.
  - vm_compute. reflexivity.
  - vm_compute. discriminate.
  - vm_compute. reflexivity.
  - vm_compute. reflexivity.
  - vm_compute. reflexivity.
  - vm_compute. reflexivity.
  - vm_compute. reflexivity.
  - intros Hn. by destruct Hn.
Defined.

(** ** A send that matches nothing *)

Section NoMatch.

Context {C : Collaborators}.


Lemma registry_stations (P : Station -> Prop) (h : list Station) (ls : list loc) :
  (forall l, l ∈ ls -> exists stn, h !! l = Some stn /\ P stn) ->
  exists stns, Forall2 (fun l stn => h !! l = Some stn) ls stns /\ Forall P stns.
Proof.
  induction ls as [|l ls IH]; intros H.
  - exists []. by split.
  - destruct (H l) as (stn & Hl & HP); [by left|].
    destruct IH as (stns & Hf & HPs); [intros; apply H; by right|].
    exists (stn :: stns). split; by constructor.
Qed.

Lemma no_perfect (f : Station -> MatchResult) stns :
  Forall (fun stn => f stn = NoMatch) stns ->
  indexOfPerfect (f <$> stns) = None /\ bool_decide (Partial ∈ f <$> stns) = false.
Proof.
  intros H. split.
  - destruct (indexOfPerfect (f <$> stns)) as [i|] eqn:Hi; [|done].
    apply indexOfPerfect_Some in Hi. rewrite list_lookup_fmap in Hi.
    destruct (stns !! i) as [stn|] eqn:Hs; [|done].
    rewrite Forall_lookup in H. specialize (H _ _ Hs). cbn in Hi. congruence.
  - apply bool_decide_eq_false. intros Hin.
    apply list_elem_of_fmap in Hin as (stn & Hp & Hin).
    rewrite Forall_forall in H. specialize (H _ Hin). congruence.
Qed.



Lemma send_no_match_multi env s cfg you p :
  lock (audio s) <= now env ->
  plainText (responseFieldText s) ->
  modeLogicConfig (currentMode s) = Some cfg ->
  yourStation s = Some you -> player you = Some p ->
  showTuStep cfg = true -> currentStations s <> [] ->
  (forall l, l ∈ currentStations s ->
     exists stn, heap s !! l = Some stn /\
       compareStrings (callsign stn) (candidateOf s) = NoMatch) ->
  silentMiss env s p.
Proof.
  unfold plainText, responseFieldText, candidateOf, silentMiss.
  intros Hlock (Hne & Hrep & Hqrs) Hcfg Hyou Hp Htu Hcs Hall.
  apply Z.ltb_ge in Hlock.
  apply (bool_decide_eq_false_2 _) in Hqrs.
  assert (Hlen : length (currentStations s) <> 0%nat)
    by by destruct (currentStations s).
  destruct (registry_stations _ _ _ Hall) as (stns & Hf & Hnone).
  apply no_perfect in Hnone as [Hperfect Hpartial].
  apply (wp_exec (send env) (fun s' => s' = _)).
  wp_miss.
  unfold countAttempt, afterOwn, scheduled, toneOf, responseFieldText.
  sess_simpl_goal. reflexivity.
Qed.

Lemma send_no_match_single env s cfg you p l stn q :
  lock (audio s) <= now env ->
  plainText (responseFieldText s) ->
  modeLogicConfig (currentMode s) = Some cfg ->
  yourStation s = Some you -> player you = Some p ->
  showTuStep cfg = false ->
  currentStation s = Some l -> heap s !! l = Some stn ->
  compareStrings (callsign stn) (candidateOf s) = NoMatch ->
  player stn = Some q -> callsign stn <> "" ->
  missWithRepeat env s p q stn.
Proof.
  unfold plainText, responseFieldText, candidateOf, missWithRepeat.
  intros Hlock (Hne & Hrep & Hqrs) Hcfg Hyou Hp Htu Hcur Hl Hcmp Hq Hcall.
  apply Z.ltb_ge in Hlock.
  apply (bool_decide_eq_false_2 _) in Hqrs.
  apply (wp_exec (send env) (fun s' => s' = _)).
  wp_miss.
  unfold countAttempt, afterOwn, scheduled, toneOf, responseFieldText.
  sess_simpl_goal. reflexivity.
Qed.

(** C4, as the code has it: a send of a plain text that the matcher finds
    in no callsign counts one attempt; the registry, the stations and every
    other variable are what they were, but for the audio. In a mode with a
    TU step the audio gains the trainee's own transmission and nothing
    else. In single mode the active station then sends its callsign again,
    and the lock moves to the end of that reply. *)
Theorem no_match_counts_an_attempt env s cfg you p :
  lock (audio s) <= now env ->
  plainText (responseFieldText s) ->
  modeLogicConfig (currentMode s) = Some cfg ->
  yourStation s = Some you -> player you = Some p ->
  (showTuStep cfg = true -> currentStations s <> [] ->
   (forall l, l ∈ currentStations s ->
      exists stn, heap s !! l = Some stn /\
        compareStrings (callsign stn) (candidateOf s) = NoMatch) ->
   silentMiss env s p) /\
  (showTuStep cfg = false ->
   forall l stn q,
     currentStation s = Some l -> heap s !! l = Some stn ->
     compareStrings (callsign stn) (candidateOf s) = NoMatch ->
     player stn = Some q -> callsign stn <> "" ->
     missWithRepeat env s p q stn).
Proof.
  intros Hlock Hplain Hcfg Hyou Hp. split.
  - intros. by eapply send_no_match_multi.
  - intros. by eapply send_no_match_single.
Qed.

End NoMatch.




(** C4, as stated, fails in single mode: after the trainee's text
    the station sends its callsign again, so the send is not a silent
    miss. *)
Lemma single_miss_is_not_silent :
  textsSince Demo.miss_single
    (exec (send (C := Demo.world) (Demo.at_time 10000 [])) Demo.miss_single)
  = ["W9ZZZ"; "K1ABC"] /\
  ~ silentMiss (C := Demo.world) (Demo.at_time 10000 []) Demo.miss_single
      (mkPlayer 0 25 false 25).
Proof.
  split; [vm_compute; reflexivity|].
  unfold silentMiss. intros H.
  apply (f_equal (fun x => length (tones (audio x)))) in H.
  vm_compute in H. discriminate H.
Qed.

Lemma no_match_counts_an_attempt_witness :
  silentMiss (C := Demo.world) (Demo.at_time 10000 []) Demo.miss_contest
    (mkPlayer 0 25 false 25).
Proof.
  refine (proj1 (no_match_counts_an_attempt (C := Demo.world)
                   (Demo.at_time 10000 []) Demo.miss_contest Demo.contestMode
                   Demo.me_on_air (mkPlayer 0 25 false 25) _ _ _ _ _) _ _ _).
  - vm_compute. discriminate.
  - vm_compute. repeat split; discriminate.
  - vm_compute. reflexivity.
  - vm_compute. reflexivity.
  - vm_compute. reflexivity.
  - vm_compute. reflexivity.
  - vm_compute. discriminate.
  - intros l Hl. vm_compute in Hl.
    apply elem_of_cons in Hl as [->|Hl].
    { exists Demo.k1abc_on_air. split; vm_compute; reflexivity. }
    apply elem_of_cons in Hl as [->|Hl].
    { eexists. split; vm_compute; reflexivity. }
    by apply elem_of_nil in Hl.
Defined.


(** ** Cut numbers, and a CQ with invalid settings *)

Section CutNumbers.

Context {C : Collaborators}.

Lemma cutNumbersOf_replaced (cutMap : gmap string string) d letter rest :
  JsString.isDigit d = true ->
  cutMap !! String d "" = Some letter -> letter <> "" ->
  cutNumbersOf cutMap (String d rest) = letter +:+ cutNumbersOf cutMap rest.
Proof.
  intros Hd Hl Hne. unfold cutNumbersOf. cbn [JsString.replaceDigits].
  rewrite Hd. unfold cutDigit. rewrite Hl. by rewrite decide_False.
Qed.

Lemma cutNumbersOf_kept (cutMap : gmap string string) c rest :
  JsString.isDigit c = false \/ cutMap !! String c "" = None ->
  cutNumbersOf cutMap (String c rest) = String c (cutNumbersOf cutMap rest).
Proof.
  intros H. unfold cutNumbersOf. cbn [JsString.replaceDigits].
  destruct (JsString.isDigit c) eqn:Hd; [|done].
  destruct H as [?|Hn]; [done|]. unfold cutDigit. by rewrite Hn.
Qed.


(** X22: in a mode with a TU step, the exchange of a perfect match goes through
    the cut-number map when cut numbers are enabled. *)
Lemma multi_exchange_is_cut env s cfg you p inp stns i l stn q :
  lock (audio s) <= now env ->
  plainText (responseFieldText s) ->
  modeLogicConfig (currentMode s) = Some cfg ->
  showTuStep cfg = true ->
  yourStation s = Some you -> player you = Some p ->
  Forall2 (fun l stn => heap s !! l = Some stn) (currentStations s) stns ->
  indexOfPerfect
    ((fun stn => compareStrings (callsign stn) (candidateOf s)) <$> stns) = Some i ->
  currentStations s !! i = Some l -> heap s !! l = Some stn ->
  player stn = Some q ->
  JsString.includes (responseFieldText s) "?" = false ->
  inputs s = Some inp -> enableCutNumbers inp = true ->
  textsSince s (exec (send env) s) =
  audible [responseFieldText s;
           cutNumbersOf (cutNumbers inp) (" " +:+ yourExchange cfg you stn None);
           cutNumbersOf (cutNumbers inp) (theirExchange cfg you stn None)].
Proof.
  unfold plainText, responseFieldText, candidateOf.
  intros Hlock (Hne & Hrep & Hqrs) Hcfg Htu Hyou Hp Hf Hi Hl Hs Hq Hinc Hinp Hcut.
  apply Z.ltb_ge in Hlock.
  apply (bool_decide_eq_false_2 _) in Hqrs.
  assert (Hlen : length (currentStations s) <> 0%nat).
  { apply lookup_lt_Some in Hl. lia. }
  apply (wp_exec (send env) (fun s' => textsSince s s' = _)).
  repeat (first [wp_prim | wp_known | wp_loop | wp_decide ltac:(congruence)];
          wp_state; rewrite ?Hcut).
  all: unfold textsSince, audible; sess_simpl_goal.
  all: rewrite <- ?app_assoc, drop_app_length; cbn [app fmap list_fmap tone_text].
  all: repeat first
         [ rewrite filter_cons_True by assumption
         | rewrite filter_cons_False by (let Hn := fresh in intros Hn; by apply Hn) ].
  all: done.
Qed.

(** X21: what a CQ with invalid trainee settings does when it gets as far as
    reading them: the noise layer is on afterwards and the settings of the
    session are [null]; no tone is scheduled, no station is added and the
    lock is not moved. *)
Lemma cq_invalid env s cfg :
  lock (audio s) <= now env ->
  modeLogicConfig (currentMode s) = Some cfg ->
  (showTuStep cfg = false -> currentStation s = None) ->
  getInputs env = None ->
  exec (cq env) s = set_inputs None (set_audio (set_noise true (audio s)) s).
Proof.
  intros Hlock Hcfg Hcur Hin. apply Z.ltb_ge in Hlock.
  assert (Hactive : negb (showTuStep cfg) && bool_decide (currentStation s <> None)
                  = false).
  { destruct (showTuStep cfg); [done|]. by rewrite Hcur. }
  apply (wp_exec (cq env) (fun s' => s' = _)).
  wp_go ltac:(congruence).
  all: sess_simpl_goal; destruct s as [? ? ? ? ? ? ? ? ? ? ? ? [lk ns tn np] ?].
  all: cbn in *; by destruct ns.
Qed.

End CutNumbers.

(** C6, single mode: with cut numbers enabled and [5] mapped to [E], the
    exchange of a perfect match is sent with its digits as they are. *)
Theorem single_exchange_is_not_cut :
  let s := Demo.perfect_single in
  let s' := exec (send (C := Demo.world) (Demo.at_time 10000 [])) s in
  (enableCutNumbers <$> inputs s) = Some true /\
  (inputs s ≫= fun i => cutNumbers i !! "5") = Some "E" /\
  textsSince s s' =
    ["K1ABC"; " K1ABC UR 5NN"; "R UR 5NN"; "TU 73"; "EE"; "K1ABC"] /\
  cutNumbersOf {[ "5" := "E"; "0" := "T" ]} " K1ABC UR 5NN" = " K1ABC UR ENN".
Proof. cbv zeta. repeat split; vm_compute; reflexivity. Qed.

(** The same send in the contest session: the digits with an entry are
    replaced. *)
Example contest_exchange_is_cut :
  textsSince Demo.perfect_contest
    (exec (send (C := Demo.world) (Demo.at_time 10000 [])) Demo.perfect_contest)
  = ["K1ABC"; " K1ABC ENN TT1"; "ENN 1TE"].
Proof. vm_compute. reflexivity. Qed.

(** C3: a CQ with invalid trainee settings starts the noise layer when it
    is not running, and stores [null] as the settings of the session. *)
Theorem invalid_cq_has_effects :
  let env := Demo.invalid_at 10000 in
  getInputs env = None /\
  noise (audio (loaded (C := Demo.world) "contest")) = false /\
  noise (audio (exec (cq (C := Demo.world) env) (loaded (C := Demo.world) "contest"))) = true /\
  inputs Demo.contest = Some Demo.config /\
  inputs (exec (cq (C := Demo.world) env) Demo.contest) = None.
Proof. cbv zeta. repeat split; vm_compute; reflexivity. Qed.

(** After such a CQ a perfect match in the contest session runs into the
    missing settings. *)
Example send_after_invalid_cq :
  fst (send (C := Demo.world) (Demo.at_time 20000 [])
         (run (C := Demo.world) Demo.perfect_contest [(Demo.invalid_at 10000, Cq)]))
  = Throw.
Proof. vm_compute. reflexivity. Qed.

(** * Further properties of the handlers *)

(** ** Replies of stations that are in the store, and the audio as a frame *)

Section Helpers.
Context {C : Collaborators}.

Lemma wp_respond_valid env stations start
    (Q : unit -> Session -> Prop) (R T : Session -> Prop) s :
  Forall (fun l => (l < length (heap s))%nat) stations ->
  (forall h a, gotPlayers (heap s) h -> noise a = noise (audio s) ->
     Q tt (set_heap h (set_audio a s))) ->
  wp (respondWithAllStations env stations start) Q R T s.
Proof.
  revert start s. induction stations as [|l rest IH]; intros start s Hv H.
  - destruct s as [? ? h ? ? ? ? ? ? ? ? ? a ?]. apply wp_ret.
    apply (H h a); [apply gotPlayers_refl|done].
  - apply Forall_cons in Hv as [Hl Hv].
    cbn [respondWithAllStations]. wp_run.
    all: first
      [ apply IH; [sess_simpl_goal; by rewrite ?length_alter|];
        intros h a Hh Ha; specialize (H h a); sess_simpl;
        apply H; [|done];
        first [ done
              | eapply gotPlayers_trans; [|exact Hh]; apply gotPlayers_alter ]
      | match goal with
        | Hn : _ !! _ = None |- _ => apply lookup_ge_None in Hn; lia
        end ].
Qed.

(** What [playSentence] may change: the audio, but for the noise layer. *)
Lemma wp_playSentence_audio env p text start
    (Q : Time -> Session -> Prop) (R T : Session -> Prop) s :
  (forall a t, noise a = noise (audio s) -> Q t (set_audio a s)) ->
  wp (playSentence env p text start) Q R T s.
Proof.
  intros H. unfold playSentence. destruct (decide (text = "")).
  - destruct s as [? ? ? ? ? ? ? ? ? ? ? ? a ?]. apply wp_ret. by apply (H a).
  - wp_run. by apply H.
Qed.

End Helpers.

Ltac wp_audio :=
  lazymatch goal with
  | |- wp (playSentence _ _ _ _) _ _ _ _ =>
      apply wp_playSentence_audio; sess_simpl_goal; intros ? ? ?
  end.

(** Symbolic execution for properties that do not read the audio. *)
Ltac wp_quiet :=
  repeat (first [wp_audio | wp_prim | wp_loop | wp_branch]; wp_state).

Ltac wp_quiet_with prune post :=
  repeat (first [wp_audio | wp_prim | wp_loop | wp_decide prune]; wp_state; post).


(** ** What holds of every session *)

Section Invariants.
Context {C : Collaborators}.

(** X1: From the loaded page on, [currentStations] holds each station
    once and only stations of the store, and an array that
    [lastRespondingStations] has for itself holds each station once. *)
Theorem reachable_registry_wellFormed savedMode trace :
  wellFormed (run (loaded savedMode) trace).
Proof. apply run_keeps_wellFormed, loaded_wellFormed. Qed.

Lemma handler_keeps_oneRegistry env a s :
  oneRegistry s ->
  wp (handler env a) (fun _ => oneRegistry) oneRegistry oneRegistry s.
Proof.
  unfold oneRegistry at 1. intros H.
  destruct a; cbn [handler].
  6: { wp_all; unfold oneRegistry; sess_simpl_goal; by repeat case_match. }
  all: destruct (modeLogicConfig (currentMode s)) as [cfg|] eqn:Hcfg;
    [destruct (showTuStep cfg) eqn:Htu|].
  all: wp_quiet_with ltac:(congruence) ltac:(rewrite ?Htu).
  all: unfold oneRegistry; sess_simpl_goal; rewrite ?Hcfg, ?Htu; try done.
  all: try (destruct H as [? ?]; by simplify_eq).
Qed.

(** X2: From the loaded page on, the station of the single mode and the array
    of the multi-station modes are never in use together. *)
Theorem registries_never_mix savedMode trace :
  oneRegistry (run (loaded savedMode) trace).
Proof.
  assert (Hrun : forall s, oneRegistry s -> oneRegistry (run s trace)).
  { induction trace as [|[env a] trace IH]; intros s H; [done|].
    apply IH. unfold step. cbn [fst snd]. apply wp_exec.
    by apply handler_keeps_oneRegistry. }
  apply Hrun. rewrite loaded_reset. unfold oneRegistry. cbn.
  by repeat case_match.
Qed.

Lemma numbered_next s s' :
  numbered s ->
  (resultsTable (ui s') = resultsTable (ui s) /\
     (totalContacts s <= totalContacts s')%nat) \/
  (exists r, resultsTable (ui s') = (resultsTable (ui s) ++ [r])%list /\
     cr_number r = totalContacts s' /\ (totalContacts s < totalContacts s')%nat) \/
  resultsTable (ui s') = [] ->
  numbered s'.
Proof.
  unfold numbered. intros [Hb Hs] [[-> Hle]|[(r & -> & Hr & Hlt)| ->]].
  - split; [|done]. eapply Forall_impl; [exact Hb|]. intros; simpl in *; lia.
  - split.
    + apply Forall_app. split.
      * eapply Forall_impl; [exact Hb|]. intros; simpl in *; lia.
      * constructor; [lia|constructor].
    + intros i j a b Hij Ha Hbj.
      apply lookup_app_Some in Hbj as [Hbj|[Hlen Hbj]].
      * apply lookup_app_Some in Ha as [Ha|[Hlen' _]].
        { by eapply Hs. }
        apply lookup_lt_Some in Hbj. lia.
      * apply list_lookup_singleton_Some in Hbj as [Hj ->].
        apply lookup_app_Some in Ha as [Ha|[Hlen' _]]; [|lia].
        rewrite Forall_lookup in Hb. specialize (Hb _ _ Ha). simpl in Hb. lia.
  - split; [constructor|]. intros i j a b _ Ha. by rewrite lookup_nil in Ha.
Qed.

Lemma handler_keeps_numbered env a s :
  numbered s ->
  wp (handler env a) (fun _ => numbered) numbered numbered s.
Proof.
  intros H. destruct a; cbn [handler]; wp_quiet.
  all: apply (numbered_next s); [exact H|]; sess_simpl_goal.
  all: first
         [ left; split; [reflexivity|lia]
         | right; left; eexists; split; [reflexivity|]; split; [reflexivity|lia]
         | right; right; reflexivity ].
Qed.

Lemma loaded_table savedMode : resultsTable (ui (loaded savedMode)) = [].
Proof. by rewrite loaded_reset. Qed.

(** X3: From the loaded page on, the rows of the results table carry strictly
    increasing contact numbers, none above [totalContacts]: no number is
    given twice. *)
Theorem contact_numbers_increase savedMode trace :
  numbered (run (loaded savedMode) trace).
Proof.
  assert (Hrun : forall s, numbered s -> numbered (run s trace)).
  { induction trace as [|[env a] trace IH]; intros s H; [done|].
    apply IH. unfold step. cbn [fst snd]. apply wp_exec.
    by apply handler_keeps_numbered. }
  apply Hrun. unfold numbered. rewrite loaded_table.
  split; [constructor|]. intros i j a b _ Ha. by rewrite lookup_nil in Ha.
Qed.

End Invariants.

Section Identities.
Context {C : Collaborators}.

Lemma identitiesKept_refl h : identitiesKept h h.
Proof. intros l stn Hl. eauto. Qed.

Lemma identitiesKept_trans h1 h2 h3 :
  identitiesKept h1 h2 -> identitiesKept h2 h3 -> identitiesKept h1 h3.
Proof.
  intros H12 H23 l stn Hl.
  destruct (H12 _ _ Hl) as (stn2 & Hl2 & E2).
  destruct (H23 _ _ Hl2) as (stn3 & Hl3 & E3).
  exists stn3. split; [done|congruence].
Qed.

Lemma identitiesKept_alter (f : Station -> Station) h l :
  (forall stn, identity (f stn) = identity stn) ->
  identitiesKept h (alter f l h).
Proof.
  intros Hf k stn Hk. destruct (decide (k = l)) as [->|Hne].
  - exists (f stn). by rewrite list_lookup_alter_eq, Hk.
  - exists stn. by rewrite list_lookup_alter_ne.
Qed.

Lemma identitiesKept_app h k : identitiesKept h (h ++ k).
Proof. intros l stn Hl. exists stn. split; [|done]. by apply lookup_app_l_Some. Qed.

Lemma identitiesKept_gotPlayers h h' : gotPlayers h h' -> identitiesKept h h'.
Proof.
  intros Hg l stn Hl.
  destruct (Forall2_lookup_l _ _ _ _ _ Hg Hl) as (stn' & Hl' & Hor).
  exists stn'. split; [done|]. by destruct Hor as [->|[p ->]].
Qed.

Lemma identitiesKept_slowDown_all h targets :
  identitiesKept h (foldl (fun h l => alter slowDown l h) h targets).
Proof.
  revert h. induction targets as [|l rest IH]; intros h; [apply identitiesKept_refl|].
  cbn [foldl]. eapply identitiesKept_trans; [|apply IH].
  apply identitiesKept_alter. intros stn. unfold slowDown.
  by destruct (enableFarnsworth stn).
Qed.

Ltac ik_step :=
  lazymatch goal with
  | |- identitiesKept ?a ?a => apply identitiesKept_refl
  | |- identitiesKept _ (alter slowDown _ _) =>
      eapply identitiesKept_trans;
        [|apply identitiesKept_alter; intros stn; unfold slowDown;
          by destruct (enableFarnsworth stn)]
  | |- identitiesKept _ (alter _ _ _) =>
      eapply identitiesKept_trans; [|by apply identitiesKept_alter]
  | |- identitiesKept _ (_ ++ _) =>
      eapply identitiesKept_trans; [|apply identitiesKept_app]
  | |- identitiesKept _ (foldl _ _ _) =>
      eapply identitiesKept_trans; [|apply identitiesKept_slowDown_all]
  | H : gotPlayers _ ?h |- identitiesKept _ ?h =>
      eapply identitiesKept_trans; [|apply (identitiesKept_gotPlayers _ _ H)]
  end.

Lemma handler_keeps_identities env a s :
  wp (handler env a) (fun _ s' => identitiesKept (heap s) (heap s'))
     (fun s' => identitiesKept (heap s) (heap s'))
     (fun s' => identitiesKept (heap s) (heap s')) s.
Proof.
  destruct a; cbn [handler]; wp_quiet.
  all: sess_simpl_goal; repeat ik_step.
Qed.

Lemma run_keeps_identities s trace :
  identitiesKept (heap s) (heap (run s trace)).
Proof.
  revert s. induction trace as [|[env a] trace IH]; intros s.
  - apply identitiesKept_refl.
  - eapply identitiesKept_trans; [|apply IH].
    unfold step. cbn [fst snd].
    apply (wp_exec _ (fun s' => identitiesKept (heap s) (heap s'))).
    apply handler_keeps_identities.
Qed.

(** X4: Along every sequence of actions a station object stays in the store
    with the callsign, the speed and the exchange attributes it came with:
    the handlers only change a station's Farnsworth setting and its
    player. *)
Theorem stations_keep_their_identity s trace l stn :
  heap s !! l = Some stn ->
  exists stn', heap (run s trace) !! l = Some stn' /\ identity stn' = identity stn.
Proof. apply run_keeps_identities. Qed.

End Identities.

Section SingleButton.
Context {C : Collaborators}.

Hypothesis onlySingle : forall m cfg,
  modeLogicConfig m = Some cfg -> showTuStep cfg = false -> m = "single".

Lemma handler_keeps_cqButton env a s :
  cqButtonTracksStation s ->
  wp (handler env a) (fun _ => cqButtonTracksStation) cqButtonTracksStation
     cqButtonTracksStation s.
Proof.
  intros H. destruct a; cbn [handler].
  6: { wp_all; intros cfg _ _; reflexivity. }
  all: destruct (modeLogicConfig (currentMode s)) as [cfg|] eqn:Hcfg;
    [destruct (showTuStep cfg) eqn:Htu|].
  all: try (specialize (H _ Hcfg Htu);
            pose proof (onlySingle _ _ Hcfg Htu) as Hm).
  all: wp_quiet_with ltac:(congruence) ltac:(rewrite ?Htu).
  all: intros cfg' Hc' Ht'; sess_simpl; simplify_eq; try done; try congruence; try exact H.
  all: match goal with E : currentStation _ = _ |- _ => rewrite E; exact H end.
Qed.

(** X5: When "single" is the only mode without TU step, then from the loaded
    page on, in that mode, the CQ button is disabled exactly while a station
    is active. *)
Theorem cq_button_tracks_station savedMode trace :
  cqButtonTracksStation (run (loaded savedMode) trace).
Proof.
  assert (Hrun : forall s, cqButtonTracksStation s ->
                           cqButtonTracksStation (run s trace)).
  { induction trace as [|[env a] trace IH]; intros s H; [done|].
    apply IH. unfold step. cbn [fst snd]. apply wp_exec.
    by apply handler_keeps_cqButton. }
  apply Hrun. rewrite loaded_reset. intros cfg _ _. reflexivity.
Qed.

End SingleButton.

Lemma cq_button_tracks_station_witness :
  cqDisabled (ui (run (C := Demo.world) (loaded (C := Demo.world) "single") Scenes.single_stopped))
  = bool_decide
      (currentStation (run (C := Demo.world) (loaded (C := Demo.world) "single") Scenes.single_stopped)
       <> None).
Proof.
  apply (cq_button_tracks_station (C := Demo.world)) with (cfg := Demo.singleMode).
  - intros m cfg Hm Ht. cbn in Hm. unfold Demo.modes in Hm.
    destruct (decide (m = "single")) as [->|_]; [done|].
    destruct (decide (m = "contest")); [|done].
    injection Hm as <-. discriminate Ht.
  - vm_compute. reflexivity.
  - vm_compute. reflexivity.
Defined.

Lemma stations_keep_their_identity_witness :
  exists stn',
    heap (run (C := Demo.world) Demo.contest
            [(Demo.at_time 9000 [], TypeResponse "qrs"); (Demo.at_time 10000 [], Send)])
      !! 0%nat = Some stn' /\
    identity stn' = identity Demo.k1abc_on_air.
Proof.
  apply (stations_keep_their_identity (C := Demo.world)).
  vm_compute. reflexivity.
Defined.

(** ** What cuts a handler short *)

Section Equipped.
Context {C : Collaborators}.

Lemma hasPlayer_valid h l : hasPlayer h l -> (l < length h)%nat.
Proof. intros (stn & q & Hl & _). by eapply lookup_lt_Some. Qed.

Lemma playersKept_refl h : playersKept h h.
Proof. by intros l. Qed.

Lemma playersKept_trans h1 h2 h3 :
  playersKept h1 h2 -> playersKept h2 h3 -> playersKept h1 h3.
Proof. intros H12 H23 l Hl. by apply H23, H12. Qed.

Lemma playersKept_alter (f : Station -> Station) h l :
  (forall stn, player stn <> None -> player (f stn) <> None) ->
  playersKept h (alter f l h).
Proof.
  intros Hf k (stn & q & Hk & Hq). destruct (decide (k = l)) as [->|Hne].
  - destruct (player (f stn)) as [q'|] eqn:Hq'.
    + exists (f stn), q'. by rewrite list_lookup_alter_eq, Hk.
    + destruct (Hf stn); [congruence|done].
  - exists stn, q. by rewrite list_lookup_alter_ne.
Qed.

Lemma playersKept_app h k : playersKept h (h ++ k).
Proof.
  intros l (stn & q & Hl & Hq). exists stn, q. split; [|done].
  by apply lookup_app_l_Some.
Qed.

Lemma playersKept_gotPlayers h h' : gotPlayers h h' -> playersKept h h'.
Proof.
  intros Hg l (stn & q & Hl & Hq).
  destruct (gotPlayers_lookup _ _ _ _ Hg Hl) as (stn' & Hl' & _ & Hsame).
  destruct (player stn') as [q'|] eqn:Hq'; [by exists stn', q'|].
  destruct Hsame; congruence.
Qed.

Lemma playersKept_slowDown_all h targets :
  playersKept h (foldl (fun h l => alter slowDown l h) h targets).
Proof.
  revert h. induction targets as [|l rest IH]; intros h; [apply playersKept_refl|].
  cbn [foldl]. eapply playersKept_trans; [|apply IH].
  apply playersKept_alter. intros stn.
  by destruct (slowDown_spec stn) as (_ & _ & _ & _ & ->).
Qed.

(** [respondWithAllStations] on stations of the store: it does not fail,
    and every station it goes through has a player afterwards. *)
Lemma wp_respond_players env stations start
    (Q : unit -> Session -> Prop) (R T : Session -> Prop) s :
  Forall (fun l => (l < length (heap s))%nat) stations ->
  (forall h a, gotPlayers (heap s) h -> noise a = noise (audio s) ->
     Forall (hasPlayer h) stations ->
     Q tt (set_heap h (set_audio a s))) ->
  wp (respondWithAllStations env stations start) Q R T s.
Proof.
  revert start s. induction stations as [|l rest IH]; intros start s Hv H.
  - destruct s as [? ? h ? ? ? ? ? ? ? ? ? a ?]. apply wp_ret.
    apply (H h a); [apply gotPlayers_refl|done|constructor].
  - apply Forall_cons in Hv as [Hl Hv].
    cbn [respondWithAllStations].
    repeat (first [wp_audio | wp_prim | wp_branch]; wp_state).
    all: first
      [ match goal with
        | Hn : _ !! _ = None |- _ => apply lookup_ge_None in Hn; lia
        end
      | apply IH; [sess_simpl_goal; by rewrite ?length_alter|];
        intros h a' Hh Ha Hrest; specialize (H h a'); sess_simpl;
        apply H; [|congruence|constructor; [|done]];
        [ first [ done
                | eapply gotPlayers_trans; [|exact Hh]; apply gotPlayers_alter ]
        | apply (playersKept_gotPlayers _ _ Hh);
          first
            [ eexists _, _; split; eassumption
            | eexists _, _; rewrite list_lookup_alter_eq;
              match goal with
              | E : _ !! _ = Some _ |- _ => rewrite E
              end; done ] ] ].
Qed.

Lemma Forall_filterPartial (P : loc -> Prop) cs results :
  Forall P cs -> Forall P (filterPartial cs results).
Proof.
  rewrite !Forall_forall. intros H l Hl. apply H.
  eapply elem_of_sublist; [exact Hl|apply filterPartial_sublist].
Qed.

End Equipped.

(** Lengths of stores, and arrays of stations of the store. *)
Ltac len :=
  repeat match goal with
    | H : gotPlayers _ _ |- _ => apply gotPlayers_length in H
    end;
  repeat match goal with
    | H : length _ = _ |- _ => rewrite H
    end;
  repeat first
    [ rewrite length_app | rewrite length_alter
    | rewrite length_slowDown_all | rewrite length_seq ];
  cbn [length].

Ltac valid_base Hvalid Hown :=
  first
    [ eassumption
    | exact Hvalid
    | apply Forall_delete_at; exact Hvalid
    | apply Forall_filterPartial; exact Hvalid
    | match goal with
      | H : lastRespondingStations _ = AOwn ?ts |- Forall _ ?ts => exact (Hown _ H)
      end ].

Ltac valid_side Hvalid Hown :=
  sess_simpl_goal;
  first
    [ valid_base Hvalid Hown
    | eapply Forall_push; [valid_base Hvalid Hown|len; lia]
    | eapply Forall_bound_mono; [valid_base Hvalid Hown|len; lia] ].

Ltac wp_players Hvalid Hown :=
  lazymatch goal with
  | |- wp (respondWithAllStations _ _ _) _ _ _ _ =>
      apply wp_respond_players; [valid_side Hvalid Hown|];
      sess_simpl_goal; intros ? ? ? ? ?
  end.

Ltac pk_step :=
  lazymatch goal with
  | |- playersKept ?a ?a => apply playersKept_refl
  | |- playersKept _ (alter slowDown _ _) =>
      eapply playersKept_trans;
        [|apply playersKept_alter; intros stn;
          by destruct (slowDown_spec stn) as (_ & _ & _ & _ & ->)]
  | |- playersKept _ (alter (set_player (Some _)) _ _) =>
      eapply playersKept_trans; [|by apply playersKept_alter]
  | |- playersKept _ (_ ++ _) =>
      eapply playersKept_trans; [|apply playersKept_app]
  | |- playersKept _ (foldl _ _ _) =>
      eapply playersKept_trans; [|apply playersKept_slowDown_all]
  | H : gotPlayers _ ?h |- playersKept _ ?h =>
      eapply playersKept_trans; [|apply (playersKept_gotPlayers _ _ H)]
  end.

Ltac eq_registry s Hc :=
  first
    [ assumption
    | apply Forall_nil_2
    | eapply Forall_impl; [exact Hc|];
      let l0 := fresh in let Hl0 := fresh in
      intros l0 Hl0; revert l0 Hl0;
      match goal with
      | |- forall l, hasPlayer ?h l -> hasPlayer ?h' l => change (playersKept h h')
      end; repeat pk_step ].

Ltac eq_station s Hcur :=
  let l0 := fresh in let Hl0 := fresh in let Hp := fresh in
  intros l0 Hl0;
  first
    [ discriminate Hl0
    | assert (Hp : hasPlayer (heap s) l0) by (apply Hcur; congruence);
      match goal with
      | |- hasPlayer ?h' _ =>
          refine ((_ : playersKept (heap s) h') l0 Hp); repeat pk_step
      end
    | injection Hl0 as <-;
      eexists _, _; split;
        [rewrite list_lookup_alter_eq, lookup_app_r, Nat.sub_diag by lia;
         reflexivity|reflexivity] ].

Ltac eq_own s Hvalid Hown :=
  let ts := fresh in let Hts := fresh in
  intros ts Hts;
  first
    [ discriminate Hts
    | eapply Forall_bound_mono;
        [ first [ apply Hown; congruence
                | injection Hts as <-; valid_base Hvalid Hown ]
        | len; lia ]
    | destruct (lastRespondingStations s) eqn:?;
      first
        [ discriminate Hts
        | eapply Forall_bound_mono;
            [ first [ apply Hown; congruence
                    | injection Hts as <-; valid_base Hvalid Hown ]
            | len; lia ] ] ].

Ltac eq_array s Hd :=
  let Hne := fresh in
  intros Hne;
  first
    [ done
    | cut (lastRespondingStations s <> ANull); [congruence|exact (Hd Hne)]
    | by destruct (lastRespondingStations s) ].

Ltac eq_yours s Hy :=
  let you := fresh in let Hyou := fresh in
  intros you Hyou;
  first
    [ apply (Hy you); congruence
    | injection Hyou as <-; discriminate ].

Ltac eq_present s Hh :=
  let Hor := fresh in
  intros Hor;
  first
    [ done
    | cut (yourStation s <> None);
        [ congruence
        | apply Hh; destruct Hor as [Hor|Hor];
            [left; exact Hor|right; congruence] ]
    | destruct Hor as [Hor|Hor]; by destruct Hor ].

Section EquippedKept.
Context {C : Collaborators}.

Lemma handler_keeps_equipped env a s :
  wellFormed s -> equipped s ->
  wp (handler env a) (fun _ => equipped) equipped equipped s.
Proof.
  intros Hwf Heq.
  destruct a; cbn [handler];
    repeat (first
              [ wp_audio | wp_prim
              | wp_players (proj1 (proj2 Hwf)) (proj1 (proj2 (proj2 Heq)))
              | wp_loop | wp_branch ];
            wp_state).
  all: destruct Hwf as (_ & Hvalid & _);
    destruct Heq as (Hc & Hcur & Hown & Hd & Hy & Hh).
  all: unfold equipped; sess_simpl_goal.
  all: split; [eq_registry s Hc|].
  all: split; [eq_station s Hcur|].
  all: split; [eq_own s Hvalid Hown|].
  all: split; [eq_array s Hd|].
  all: split; [eq_yours s Hy|].
  all: eq_present s Hh.
Qed.

End EquippedKept.

Section NoCrash.
Context {C : Collaborators}.

Lemma equipped_yours s :
  equipped s -> currentStations s <> [] \/ currentStation s <> None ->
  exists you p, yourStation s = Some you /\ player you = Some p.
Proof.
  intros (_ & _ & _ & _ & Hy & Hh) Hor.
  destruct (yourStation s) as [you|] eqn:E; [|by destruct (Hh Hor)].
  destruct (player you) as [p|] eqn:Ep; [by eauto|].
  by destruct (Hy you).
Qed.

Lemma registry_with_players (h : list Station) (ls : list loc) :
  Forall (hasPlayer h) ls ->
  exists stns, Forall2 (fun l stn => h !! l = Some stn) ls stns /\
    Forall (fun stn => player stn <> None) stns.
Proof.
  induction 1 as [|l ls (stn & q & Hl & Hq) _ (stns & Hf & Hp)].
  - exists []. by split.
  - exists (stn :: stns). split; constructor; try done. congruence.
Qed.

Lemma perfect_in_range (f : Station -> MatchResult) (h : list Station) cs stns i :
  Forall2 (fun l stn => h !! l = Some stn) cs stns ->
  Forall (fun stn => player stn <> None) stns ->
  indexOfPerfect (f <$> stns) = Some i ->
  exists l stn q, cs !! i = Some l /\ h !! l = Some stn /\ player stn = Some q.
Proof.
  intros Hf Hp Hi. apply indexOfPerfect_Some in Hi.
  rewrite list_lookup_fmap in Hi.
  destruct (stns !! i) as [stn|] eqn:Hs; [|done].
  destruct (Forall2_lookup_r _ _ _ _ _ Hf Hs) as (l & Hl & Hh).
  rewrite Forall_lookup in Hp. specialize (Hp _ _ Hs).
  destruct (player stn) as [q|] eqn:Hq; [|done]. eauto 10.
Qed.

Ltac wp_safe Hvalid Hown post :=
  repeat (first
            [ wp_audio | wp_prim | wp_known | wp_players Hvalid Hown
            | wp_loop | wp_decide ltac:(congruence) ];
          wp_state; post).

Ltac crash_leaf :=
  first
    [ exact I
    | left; split;
        [ first [ left; reflexivity | right; left; reflexivity
                | right; right; reflexivity ]
        | assumption ]
    | right; left; split; [reflexivity|assumption]
    | right; right; left; split; [reflexivity|];
      eexists; split; [eassumption|split; assumption]
    | right; right; right; right; eexists; split; [reflexivity|assumption] ].

Lemma handler_raises env a s :
  wellFormed s -> tuInvariant s -> equipped s ->
  wp (handler env a) (fun _ _ => True) (fun _ => True) (fun _ => excused a s) s.
Proof.
  intros Hwf Hinv Heq.
  pose proof (proj1 (proj2 Hwf)) as Hvalid.
  pose proof (proj1 (proj2 (proj2 Heq))) as Hown.
  destruct (modeLogicConfig (currentMode s)) as [cfg|] eqn:Hcfg.
  2: { destruct a; cbn [handler];
         wp_safe Hvalid Hown idtac; unfold excused; crash_leaf. }
  destruct a; cbn [handler].
  - (* cq *)
    wp_safe Hvalid Hown idtac. all: unfold excused; crash_leaf.
  - (* send *)
    destruct (showTuStep cfg) eqn:Htu.
    + destruct (decide (currentStations s = [])) as [Hcs|Hcs].
      { assert (Hlen0 : length (currentStations s) = 0%nat) by by rewrite Hcs.
        wp_safe Hvalid Hown ltac:(rewrite ?Htu).
        all: unfold excused; crash_leaf. }
      destruct (equipped_yours s Heq (or_introl Hcs)) as (you & p & Hyou & Hp).
      destruct (registry_with_players _ _ (proj1 Heq)) as (stns & Hf & Hps).
      assert (Hlrs : exists ts, arrayOf (lastRespondingStations s) s = Some ts /\
                Forall (fun l => (l < length (heap s))%nat) ts).
      { destruct Heq as (_ & _ & Ho & Hd & _). specialize (Hd Hcs).
        destruct (lastRespondingStations s) as [| |ts] eqn:E; [done| |].
        - exists (currentStations s). by split.
        - exists ts. split; [done|]. by apply Ho. }
      destruct Hlrs as (ts & Hts & Htsv). unfold arrayOf in Hts.
      assert (Hlen : length (currentStations s) <> 0%nat)
        by by destruct (currentStations s).
      destruct (indexOfPerfect
                  ((fun stn => compareStrings (callsign stn)
                      (JsString.removeFirst
                         (toUpperCase
                            (JsString.trim (responseField (ui s)))) "?"))
                   <$> stns)) as [i|] eqn:Hi.
      * destruct (perfect_in_range _ _ _ _ _ Hf Hps Hi)
          as (l & stn & q & Hl & Hs & Hq).
        wp_safe Hvalid Hown ltac:(rewrite ?Htu).
        all: unfold excused; crash_leaf.
      * wp_safe Hvalid Hown ltac:(rewrite ?Htu).
        all: unfold excused; crash_leaf.
    + destruct (currentStation s) as [l|] eqn:Hcur.
      2: { wp_safe Hvalid Hown ltac:(rewrite ?Htu).
           all: unfold excused; crash_leaf. }
      assert (Hor : currentStations s <> [] \/ currentStation s <> None)
        by (right; congruence).
      destruct (equipped_yours s Heq Hor) as (you & p & Hyou & Hp).
      destruct (proj1 (proj2 Heq) l Hcur) as (stn & q & Hs & Hq).
      assert (Hs' : alter slowDown l (heap s) !! l = Some (slowDown stn))
        by by rewrite list_lookup_alter_eq, Hs.
      wp_safe Hvalid Hown ltac:(rewrite ?Htu).
      all: unfold excused; crash_leaf.
  - (* tu *)
    destruct (showTuStep cfg) eqn:Htu.
    2: { wp_safe Hvalid Hown ltac:(rewrite ?Htu). all: exact I. }
    destruct (readyForTU s) eqn:Hr.
    2: { wp_safe Hvalid Hown ltac:(rewrite ?Htu, ?Hr). all: exact I. }
    destruct (Hinv Hr) as (i & Hi & Hlt).
    destruct (lookup_lt_is_Some_2 _ _ Hlt) as [l Hl].
    assert (Hcs : currentStations s <> []).
    { intros E. rewrite E in Hl. by rewrite lookup_nil in Hl. }
    destruct (equipped_yours s Heq (or_introl Hcs)) as (you & p & Hyou & Hp).
    assert (Hpl : hasPlayer (heap s) l).
    { destruct Heq as (Hc & _). rewrite Forall_forall in Hc. apply Hc.
      by eapply list_elem_of_lookup_2. }
    destruct Hpl as (stn & q & Hs & Hq).
    wp_safe Hvalid Hown ltac:(rewrite ?Htu, ?Hr).
    all: exact I.
  - wp_safe Hvalid Hown idtac. all: exact I.
  - wp_safe Hvalid Hown idtac. all: exact I.
  - wp_safe Hvalid Hown idtac. all: unfold excused; crash_leaf.
  - wp_safe Hvalid Hown idtac. all: exact I.
  - wp_safe Hvalid Hown idtac. all: exact I.
  - wp_safe Hvalid Hown idtac. all: exact I.
Qed.

End NoCrash.

Section NoCrashReachable.
Context {C : Collaborators}.

Lemma loaded_equipped savedMode : equipped (loaded savedMode).
Proof.
  rewrite loaded_reset. unfold equipped. cbn.
  split; [constructor|]. split; [done|]. split; [done|]. split; [done|].
  split; [done|]. by intros [?|?].
Qed.

Lemma run_keeps_equipped trace s :
  wellFormed s -> equipped s -> equipped (run s trace).
Proof.
  revert s. induction trace as [|[env a] trace IH]; intros s Hwf Heq; [done|].
  apply IH.
  - unfold step. cbn [fst snd]. apply wp_exec. by apply handler_keeps_wellFormed.
  - unfold step. cbn [fst snd]. apply wp_exec. by apply handler_keeps_equipped.
Qed.

(** X6: In a session reached from the loaded page a handler is cut short by
    a [TypeError] only where [excused] says: a call, a send or a confirm
    action while the mode is not in [modeLogicConfig]; a send that finds
    the settings [null] (after a CQ with invalid settings); a send in a
    mode without TU step that finds no [theirSignoff]; a change to a mode
    that is not in [modeUIConfig]; and a confirm action while the settings
    are [null], which hands the [null] to [addStations]. In particular no
    handler reads a property of a missing [yourStation] or
    [lastRespondingStations], of a station that is not in the registry, or
    of a station without player. *)
Theorem handlers_raise_only_when_excused savedMode trace s env a :
  s = run (loaded savedMode) trace ->
  raises (handler env a) s = true ->
  excused a s.
Proof.
  intros Hrun Hraise.
  assert (Hwf : wellFormed s).
  { rewrite Hrun. apply run_keeps_wellFormed, loaded_wellFormed. }
  assert (Hinv : tuInvariant s).
  { rewrite Hrun. apply run_keeps_tuInvariant, loaded_tuInvariant. }
  assert (Heq : equipped s).
  { rewrite Hrun. apply run_keeps_equipped;
      [apply loaded_wellFormed|apply loaded_equipped]. }
  pose proof (handler_raises env a s Hwf Hinv Heq) as H.
  unfold wp in H. unfold raises in Hraise.
  destruct (handler env a s) as [[[]| |] s']; [done|done|exact H].
Qed.

End NoCrashReachable.

Lemma handlers_raise_only_when_excused_witness :
  excused (C := Demo.world) Send
    (run (C := Demo.world) Demo.perfect_contest [(Demo.invalid_at 10000, Cq)]).
Proof.
  apply (handlers_raise_only_when_excused (C := Demo.world) "contest"
           [(Demo.at_time 0 [Demo.k1abc; Demo.w2xyz], Cq);
            (Demo.at_time 9000 [], TypeResponse "k1abc");
            (Demo.invalid_at 10000, Cq)]
           _ (Demo.at_time 20000 [])).
  - vm_compute. reflexivity.
  - vm_compute. reflexivity.
Defined.

(** ** Calls *)

Section Calls.
Context {C : Collaborators}.

Lemma cq_station_active env s cfg :
  modeLogicConfig (currentMode s) = Some cfg -> showTuStep cfg = false ->
  currentStation s <> None -> exec (cq env) s = s.
Proof.
  intros Hcfg Htu Hcur. unfold exec, cq, bind, getAudioLock, getModeConfig, gets.
  destruct (now env <? lock (audio s)); [done|].
  rewrite Hcfg. cbn. rewrite Htu. cbn. by rewrite bool_decide_eq_true_2.
Qed.

(** X7: A send with nothing typed is a CQ when the array of stations is empty,
    and does nothing otherwise. *)
Theorem empty_send_is_cq env s :
  responseFieldText s = "" ->
  exec (send env) s = if decide (currentStations s = []) then exec (cq env) s else s.
Proof.
  unfold responseFieldText. intros Htext.
  apply (wp_exec (send env) (fun s' => s' = _)). unfold send.
  repeat wp_prim. destruct (now env <? lock (audio s)) eqn:Hlock.
  { apply wp_exit. apply Z.ltb_lt in Hlock. unfold exec.
    rewrite (cq_locked _ _ Hlock). by destruct (decide _). }
  repeat wp_prim. rewrite Htext. rewrite decide_True by done.
  repeat wp_prim. destruct (currentStations s) as [|l cs] eqn:Hcs; cbn [length].
  - rewrite !decide_True by done. apply wp_call. unfold wp, exec.
    by destruct (cq env s) as [[[]| |] s'].
  - rewrite !decide_False by done. by repeat wp_prim.
Qed.

(** X8: In a mode without TU step, once a CQ has gone through, a further CQ
    does nothing, whatever the clock and the settings are by then. *)
Theorem single_cq_once env1 env2 s cfg :
  modeLogicConfig (currentMode s) = Some cfg -> showTuStep cfg = false ->
  lock (audio s) <= now env1 -> getInputs env1 <> None ->
  currentStation (exec (cq env1) s) <> None /\
  exec (cq env2) (exec (cq env1) s) = exec (cq env1) s.
Proof.
  intros Hcfg Htu Hlock Hin.
  assert (H1 : currentStation (exec (cq env1) s) <> None /\
               currentMode (exec (cq env1) s) = currentMode s).
  { apply Z.ltb_ge in Hlock.
    apply (wp_exec (cq env1)
             (fun s' => currentStation s' <> None /\ currentMode s' = currentMode s)).
    wp_go ltac:(congruence).
    all: sess_simpl_goal; try done.
    all: split; [|done].
    all: match goal with
         | H : _ && bool_decide _ = true |- _ =>
             apply andb_true_iff in H as [_ H]; by apply bool_decide_eq_true_1 in H
         end. }
  destruct H1 as [Hcur Hmode]. split; [done|].
  apply (cq_station_active env2 _ cfg); [by rewrite Hmode|done|done].
Qed.

(** X9: [reset] and [resetGameState] leave the same session, but for the
    focus, which only [reset] moves to the response field; and a second
    reset changes nothing. *)
Theorem reset_is_resetGameState s :
  exec reset s =
    set_ui (set_focus (Some ResponseField) (ui (exec resetGameState s)))
      (exec resetGameState s) /\
  exec reset (exec reset s) = exec reset s /\
  exec resetGameState (exec resetGameState s) = exec resetGameState s /\
  exec resetGameState (exec reset s) = exec reset s.
Proof.
  destruct s as [? ? ? ? ? ? ? ? ? ? ? lrs [? ? ? ?] [? ? ? ? ? ? ?]].
  destruct lrs; (split; [|split; [|split]]); vm_compute; reflexivity.
Qed.

End Calls.

Section MoreCalls.
Context {C : Collaborators}.

(** X10: In single mode a QRS send slows the active station down and builds a
    new player for it, which fits the station as it then is; the callsign
    is sent again with that player. *)
Theorem single_qrs_rebuilds_the_player env s cfg you p l stn :
  lock (audio s) <= now env ->
  responseFieldText s = "QRS" ->
  modeLogicConfig (currentMode s) = Some cfg ->
  showTuStep cfg = false ->
  yourStation s = Some you -> player you = Some p ->
  currentStation s = Some l ->
  heap s !! l = Some stn ->
  singleQrsDone s l stn (exec (send env) s).
Proof. intros. apply wp_exec. by eapply send_qrs_single. Qed.

(** X11: In a mode with a TU step a CQ with valid settings keeps the stations
    that are on frequency and puts the new ones after them; a pending
    confirm, the attempt counter and the table of contacts are what they
    were; the array a QRS slows down is the registry; the noise layer is on
    and the trainee's station has a new player. *)
Theorem contest_cq_adds_stations env s cfg inp :
  lock (audio s) <= now env ->
  modeLogicConfig (currentMode s) = Some cfg ->
  showTuStep cfg = true ->
  getInputs env = Some inp ->
  Forall (fun l => (l < length (heap s))%nat) (currentStations s) ->
  let s' := exec (cq env) s in
  currentStations s' =
    (currentStations s ++ seq (length (heap s)) (length (arrivals env)))%list /\
  lastRespondingStations s' = ACurrent /\
  inputs s' = Some inp /\
  readyForTU s' = readyForTU s /\
  activeStationIndex s' = activeStationIndex s /\
  currentStationAttempts s' = currentStationAttempts s /\
  totalContacts s' = totalContacts s /\
  resultsTable (ui s') = resultsTable (ui s) /\
  noise (audio s') = true /\
  exists q, yourStation s' = Some (set_player (Some q) (getYourStation env)) /\
            playerFits q (getYourStation env).
Proof.
  intros Hlock Hcfg Htu Hin Hvalid s'. subst s'.
  apply Z.ltb_ge in Hlock.
  apply wp_exec.
  repeat (first
            [ wp_prim
            | lazymatch goal with
              | |- wp (respondWithAllStations _ _ _) _ _ _ _ =>
                  apply wp_respond_valid;
                    [sess_simpl_goal;
                     eapply Forall_push; [exact Hvalid|rewrite length_app; lia]|];
                  sess_simpl_goal; intros ? ? ? ?
              end
            | wp_loop | wp_decide ltac:(congruence)];
          wp_state; rewrite ?Htu, ?Hin).
  all: sess_simpl_goal.
  all: repeat (split; [first [reflexivity | congruence]|]).
  all: try (split; [by destruct (noise (audio s))|]).
  all: eexists; split; [reflexivity|done].
Qed.

End MoreCalls.


(** ** Sends in a mode with a TU step *)

Ltac kept_leaf :=
  unfold registryKept; sess_simpl_goal;
  repeat match goal with
    | H : gotPlayers _ _ |- _ => apply gotPlayers_length in H
    end;
  repeat split; try done;
  repeat match goal with
    | H : length _ = _ |- _ => rewrite H
    end;
  by rewrite ?length_alter, ?length_slowDown_all.

Section Sends.
Context {C : Collaborators}.

(** X12: In a mode with a TU step a send of a text that is not empty, with
    stations on frequency, touches neither the registry nor the table of
    contacts, creates no station, and counts exactly one attempt unless a
    TypeError cuts it short, in which case no attempt is counted. *)
Theorem multi_send_counts_one_attempt env s cfg :
  lock (audio s) <= now env ->
  responseFieldText s <> "" ->
  modeLogicConfig (currentMode s) = Some cfg ->
  showTuStep cfg = true ->
  currentStations s <> [] ->
  registryKept s (exec (send env) s) /\
  currentStationAttempts (exec (send env) s) =
    if raises (send env) s then currentStationAttempts s
    else S (currentStationAttempts s).
Proof.
  unfold responseFieldText. intros Hlock Htext Hcfg Htu Hcs.
  apply Z.ltb_ge in Hlock.
  assert (Hlen : length (currentStations s) <> 0%nat)
    by by destruct (currentStations s).
  assert (H : wp (send env)
    (fun _ s' => registryKept s s' /\
       currentStationAttempts s' = S (currentStationAttempts s))
    (fun s' => registryKept s s' /\
       currentStationAttempts s' = S (currentStationAttempts s))
    (fun s' => registryKept s s' /\
       currentStationAttempts s' = currentStationAttempts s)
    s).
  { wp_go ltac:(congruence).
    all: (split; [kept_leaf|sess_simpl_goal; reflexivity]). }
  unfold wp in H. unfold exec, raises.
  by destruct (send env s) as [[[]| |] s'].
Qed.

End Sends.

Section Matches.
Context {C : Collaborators}.

Lemma indexOfPerfect_first (results : list MatchResult) i :
  results !! i = Some Perfect ->
  (forall j r, (j < i)%nat -> results !! j = Some r -> r <> Perfect) ->
  indexOfPerfect results = Some i.
Proof.
  intros Hi Hfirst. unfold indexOfPerfect.
  assert (H : list_find (fun r => r = Perfect) results = Some (i, Perfect)).
  { apply list_find_Some. split; [done|]. split; [done|].
    intros j r Hj Hlt. by eapply Hfirst. }
  by rewrite H.
Qed.

(** X13: In a mode with a TU step, a send of a callsign that the matcher finds
    perfect, without question mark, sets [readyForTU] and puts the active
    index on the first station of the registry with a perfect result; it
    counts one attempt and leaves the registry, the stations and the table
    as they were. *)
Theorem perfect_match_arms_confirm env s cfg you p inp stns i l stn q :
  lock (audio s) <= now env ->
  plainText (responseFieldText s) ->
  modeLogicConfig (currentMode s) = Some cfg ->
  showTuStep cfg = true ->
  yourStation s = Some you -> player you = Some p ->
  Forall2 (fun l stn => heap s !! l = Some stn) (currentStations s) stns ->
  currentStations s !! i = Some l -> stns !! i = Some stn ->
  compareStrings (callsign stn) (candidateOf s) = Perfect ->
  (forall j stn', (j < i)%nat -> stns !! j = Some stn' ->
     compareStrings (callsign stn') (candidateOf s) <> Perfect) ->
  player stn = Some q ->
  JsString.includes (responseFieldText s) "?" = false ->
  inputs s = Some inp ->
  armed s i (exec (send env) s).
Proof.
  unfold plainText, responseFieldText, candidateOf.
  intros Hlock (Hne & Hrep & Hqrs) Hcfg Htu Hyou Hp Hf Hl Hsi Hperf Hfirst Hq
    Hinc Hinp.
  apply Z.ltb_ge in Hlock.
  apply (bool_decide_eq_false_2 _) in Hqrs.
  assert (Hlen : length (currentStations s) <> 0%nat).
  { apply lookup_lt_Some in Hl. lia. }
  assert (Hs : heap s !! l = Some stn).
  { destruct (Forall2_lookup_l _ _ _ _ _ Hf Hl) as (stn0 & Hs0 & Hh). congruence. }
  assert (Hi : indexOfPerfect
                 ((fun stn => compareStrings (callsign stn)
                     (JsString.removeFirst
                        (toUpperCase (JsString.trim (responseField (ui s))))
                        "?")) <$> stns) = Some i).
  { apply indexOfPerfect_first.
    - by rewrite list_lookup_fmap, Hsi; cbn; rewrite Hperf.
    - intros j r Hj Hr. rewrite list_lookup_fmap in Hr.
      destruct (stns !! j) as [stn'|] eqn:Hsj; [|done].
      cbn in Hr. injection Hr as <-. by eapply Hfirst. }
  apply (wp_exec (send env) (armed s i)).
  repeat (first [wp_prim | wp_known | wp_loop | wp_decide ltac:(congruence)];
          wp_state).
  all: unfold armed, registryKept; sess_simpl_goal; by repeat split.
Qed.

(** X14: A perfect match sent with a question mark is answered with [RR] by the
    matched station, a quarter of a second after the trainee's text in a
    mode with a TU step and a second after it in single mode; one attempt
    is counted, and nothing is logged or armed. *)
Theorem unsure_match_is_acknowledged env s cfg you p :
  lock (audio s) <= now env ->
  plainText (responseFieldText s) ->
  JsString.includes (responseFieldText s) "?" = true ->
  modeLogicConfig (currentMode s) = Some cfg ->
  yourStation s = Some you -> player you = Some p ->
  (showTuStep cfg = true ->
   forall stns i l stn q,
     Forall2 (fun l stn => heap s !! l = Some stn) (currentStations s) stns ->
     indexOfPerfect (resultsFor s stns) = Some i ->
     currentStations s !! i = Some l -> heap s !! l = Some stn ->
     player stn = Some q ->
     acknowledged env s p q 250) /\
  (showTuStep cfg = false ->
   forall l stn q,
     currentStation s = Some l -> heap s !! l = Some stn ->
     compareStrings (callsign stn) (candidateOf s) = Perfect ->
     player stn = Some q ->
     acknowledged env s p q 1000).
Proof.
  unfold acknowledged, resultsFor, candidateOf, plainText, responseFieldText.
  intros Hlock (Hne & Hrep & Hqrs) Hinc Hcfg Hyou Hp.
  apply Z.ltb_ge in Hlock.
  apply (bool_decide_eq_false_2 _) in Hqrs.
  split.
  - intros Htu stns i l stn q Hf Hi Hl Hs Hq.
    assert (Hlen : length (currentStations s) <> 0%nat).
    { apply lookup_lt_Some in Hl. lia. }
    apply (wp_exec (send env) (fun s' => s' = _)).
    wp_miss.
    unfold countAttempt, afterOwn, scheduled, toneOf, responseFieldText.
    sess_simpl_goal. reflexivity.
  - intros Htu l stn q Hcur Hs Hperf Hq.
    apply (wp_exec (send env) (fun s' => s' = _)).
    wp_miss.
    unfold countAttempt, afterOwn, scheduled, toneOf, responseFieldText.
    sess_simpl_goal. reflexivity.
Qed.

End Matches.

Section Targets.
Context {C : Collaborators}.

Lemma filterPartial_elem (cs : list loc) (results : list MatchResult) l :
  l ∈ filterPartial cs results <->
  exists i, cs !! i = Some l /\ results !! i = Some Partial.
Proof.
  revert results. induction cs as [|c cs IH]; intros [|r results]; cbn.
  - split; [by intros ?%elem_of_nil|by intros (i & ? & _)].
  - split; [by intros ?%elem_of_nil|by intros (i & ? & _)].
  - split; [by intros ?%elem_of_nil|by intros (i & _ & ?)].
  - destruct (decide (r = Partial)) as [->|Hr].
    + rewrite elem_of_cons, IH. split.
      * intros [->|(i & Hc & Hp)]; [by exists 0%nat|by exists (S i)].
      * intros ([|i] & Hc & Hp); simplify_eq/=; [by left|right; eauto].
    + rewrite IH. split.
      * intros (i & Hc & Hp). by exists (S i).
      * intros ([|i] & Hc & Hp); simplify_eq/=. eauto.
Qed.

Lemma registry_valid (h : list Station) (ls : list loc) stns :
  Forall2 (fun l stn => h !! l = Some stn) ls stns ->
  Forall (fun l => (l < length h)%nat) ls.
Proof.
  induction 1 as [|l stn ls stns Hl _ IH]; constructor; [|done].
  by eapply lookup_lt_Some.
Qed.

Ltac wp_valid :=
  lazymatch goal with
  | |- wp (respondWithAllStations _ _ _) _ _ _ _ =>
      apply wp_respond_valid; [sess_simpl_goal; assumption|];
      sess_simpl_goal; intros ? ? ? ?
  end.

(** X15: In a mode with a TU step the array a later QRS slows down is set by
    the send before it: a repeat request makes it the registry itself; a
    text that the matcher finds perfect for no station and partial for some
    makes it a new array of exactly the stations with a partial result, in
    the order of the registry. Either send counts one attempt and leaves
    the registry and [readyForTU] as they were. *)
Theorem send_sets_the_qrs_targets env s cfg you p stns :
  lock (audio s) <= now env ->
  modeLogicConfig (currentMode s) = Some cfg ->
  showTuStep cfg = true ->
  currentStations s <> [] ->
  yourStation s = Some you -> player you = Some p ->
  Forall2 (fun l stn => heap s !! l = Some stn) (currentStations s) stns ->
  let s' := exec (send env) s in
  (isRepeatRequest (responseFieldText s) = true ->
   lastRespondingStations s' = ACurrent /\
   currentStationAttempts s' = S (currentStationAttempts s) /\
   readyForTU s' = readyForTU s /\ registryKept s s') /\
  (plainText (responseFieldText s) ->
   indexOfPerfect (resultsFor s stns) = None ->
   Partial ∈ resultsFor s stns ->
   lastRespondingStations s' =
     AOwn (filterPartial (currentStations s) (resultsFor s stns)) /\
   (forall l, l ∈ filterPartial (currentStations s) (resultsFor s stns) <->
      exists i stn, currentStations s !! i = Some l /\ stns !! i = Some stn /\
        compareStrings (callsign stn) (candidateOf s) = Partial) /\
   currentStationAttempts s' = S (currentStationAttempts s) /\
   readyForTU s' = readyForTU s /\ registryKept s s').
Proof.
  intros Hlock Hcfg Htu Hcs Hyou Hp Hf s'. subst s'.
  apply Z.ltb_ge in Hlock.
  assert (Hlen : length (currentStations s) <> 0%nat)
    by by destruct (currentStations s).
  pose proof (registry_valid _ _ _ Hf) as Hvalid.
  split.
  - intros Hrep.
    assert (Htext : responseFieldText s <> "") by (by intros E; rewrite E in Hrep).
    unfold responseFieldText in *.
    apply (wp_exec (send env)
             (fun s' => lastRespondingStations s' = ACurrent /\
                currentStationAttempts s' = S (currentStationAttempts s) /\
                readyForTU s' = readyForTU s /\ registryKept s s')).
    repeat (first [wp_prim | wp_valid | wp_loop | wp_decide ltac:(congruence)];
            wp_state).
    all: (split; [done|split; [done|split; [done|kept_leaf]]]).
  - intros (Hne & Hrep & Hqrs) Hperfect Hpartial.
    assert (Hpv : Forall (fun l => (l < length (heap s))%nat)
                    (filterPartial (currentStations s) (resultsFor s stns))).
    { rewrite Forall_forall in Hvalid |- *. intros l Hl. apply Hvalid.
      eapply elem_of_sublist; [exact Hl|apply filterPartial_sublist]. }
    apply (bool_decide_eq_true_2 _) in Hpartial.
    split; [|split].
    2: { intros l. rewrite filterPartial_elem. unfold resultsFor. split.
         - intros (i & Hi & Hr). rewrite list_lookup_fmap in Hr.
           destruct (stns !! i) as [stn|] eqn:Hs; [|done].
           cbn in Hr. injection Hr as Hr. eauto.
         - intros (i & stn & Hi & Hs & Hr). exists i. split; [done|].
           by rewrite list_lookup_fmap, Hs; cbn; rewrite Hr. }
    all: revert Hperfect Hpartial Hpv.
    all: unfold resultsFor, candidateOf, responseFieldText in *.
    all: intros Hperfect Hpartial Hpv.
    all: apply (bool_decide_eq_false_2 _) in Hqrs.
    + apply (wp_exec (send env) (fun s' => lastRespondingStations s' = _)).
      repeat (first [wp_prim | wp_known | wp_valid | wp_loop
                    | wp_decide ltac:(congruence)];
              wp_state).
      all: reflexivity.
    + apply (wp_exec (send env)
               (fun s' => currentStationAttempts s' = S (currentStationAttempts s) /\
                  readyForTU s' = readyForTU s /\ registryKept s s')).
      repeat (first [wp_prim | wp_known | wp_valid | wp_loop
                    | wp_decide ltac:(congruence)];
              wp_state).
      all: (split; [done|split; [done|kept_leaf]]).
Qed.

End Targets.

(** ** The time logged for a contact *)

Section Elapsed.
Context {C : Collaborators}.





End Elapsed.


(** ** Sends in single mode *)

Section SingleContact.
Context {C : Collaborators}.

(** X17: In single mode a send of the station's callsign, found perfect and
    without question mark, completes the contact at once: one row is added
    to the table, with the next contact number and with the attempts made
    for this station, this send included; a new station is fetched and
    becomes the active one, with a player built for it; the attempt counter
    is 0 again, the response field is empty, and the CQ button stays
    disabled. *)
Theorem single_match_logs_and_moves_on env s cfg you p l stn q f :
  lock (audio s) <= now env ->
  plainText (responseFieldText s) ->
  JsString.includes (responseFieldText s) "?" = false ->
  modeLogicConfig (currentMode s) = Some cfg ->
  showTuStep cfg = false ->
  yourStation s = Some you -> player you = Some p ->
  currentStation s = Some l -> heap s !! l = Some stn ->
  compareStrings (callsign stn) (candidateOf s) = Perfect ->
  player stn = Some q ->
  theirSignoff cfg = Some f ->
  singleContactLogged env s stn (exec (send env) s).
Proof.
  unfold plainText, candidateOf, responseFieldText.
  intros Hlock (Hne & Hrep & Hqrs) Hinc Hcfg Htu Hyou Hp Hcur Hl Hperf Hq Hf.
  apply Z.ltb_ge in Hlock.
  apply (bool_decide_eq_false_2 _) in Hqrs.
  apply wp_exec.
  wp_miss.
  all: unfold singleContactLogged; sess_simpl_goal; rewrite ?Htu.
  all: split; [reflexivity|]; split; [reflexivity|]; split; [reflexivity|].
  all: split;
    [eexists; split;
       [rewrite list_lookup_alter_eq, lookup_app_r, Nat.sub_diag by lia;
        reflexivity|done]|].
  all: split; [rewrite length_alter, length_app; cbn; lia|].
  all: split;
    [intros l' Hl'; rewrite list_lookup_alter_ne by lia; by rewrite lookup_app_l|].
  all: done.
Qed.

End SingleContact.

Section SingleRepeats.
Context {C : Collaborators}.

(** X18: In single mode every send but QRS and a perfect match has the same
    effect: after a repeat request, a partial match or no match, the
    active station sends its callsign again, and one attempt is counted. *)
Theorem single_send_repeats_the_callsign env s cfg you p l stn q :
  lock (audio s) <= now env ->
  responseFieldText s <> "" -> responseFieldText s <> "QRS" ->
  modeLogicConfig (currentMode s) = Some cfg ->
  showTuStep cfg = false ->
  yourStation s = Some you -> player you = Some p ->
  currentStation s = Some l -> heap s !! l = Some stn ->
  player stn = Some q -> callsign stn <> "" ->
  isRepeatRequest (responseFieldText s) = true \/
    compareStrings (callsign stn) (candidateOf s) <> Perfect ->
  missWithRepeat env s p q stn.
Proof.
  unfold missWithRepeat, candidateOf, responseFieldText.
  intros Hlock Hne Hqrs Hcfg Htu Hyou Hp Hcur Hl Hq Hcall Hcase.
  apply Z.ltb_ge in Hlock.
  apply (bool_decide_eq_false_2 _) in Hqrs.
  apply (wp_exec (send env) (fun s' => s' = _)).
  destruct (isRepeatRequest
              (toUpperCase (JsString.trim (responseField (ui s)))))
    eqn:Hrep.
  - wp_miss.
    unfold countAttempt, afterOwn, scheduled, toneOf, responseFieldText.
    sess_simpl_goal. reflexivity.
  - destruct Hcase as [?|Hnp]; [done|].
    wp_miss.
    all: unfold countAttempt, afterOwn, scheduled, toneOf, responseFieldText.
    all: sess_simpl_goal; reflexivity.
Qed.

End SingleRepeats.

Lemma single_send_repeats_the_callsign_witness :
  missWithRepeat (C := Demo.world) (Demo.at_time 10000 []) Scenes.agn_single
    (mkPlayer 0 25 false 25) (mkPlayer 1 20 false 20) Demo.k1abc_on_air.
Proof.
  apply (single_send_repeats_the_callsign (C := Demo.world) _ _ Demo.singleMode
           Demo.me_on_air _ 0%nat).
  - vm_compute. discriminate.
  - vm_compute. discriminate.
  - vm_compute. discriminate.
  - vm_compute. reflexivity.
  - vm_compute. reflexivity.
  - vm_compute. reflexivity.
  - vm_compute. reflexivity.
  - vm_compute. reflexivity.
  - vm_compute. reflexivity.
  - vm_compute. reflexivity.
  - vm_compute. discriminate.
  - left. vm_compute. reflexivity.
Defined.

(** ** Cut numbers *)

Section CutLetters.

Lemma replaceDigits_app f a b :
  JsString.replaceDigits f (a +:+ b) =
  JsString.replaceDigits f a +:+ JsString.replaceDigits f b.
Proof.
  induction a as [|c a IH]; [done|].
  change (String c a +:+ b) with (String c (a +:+ b)).
  cbn [JsString.replaceDigits].
  destruct (JsString.isDigit c); rewrite IH; [|done].
  generalize (JsString.replaceDigits f a) (JsString.replaceDigits f b).
  intros x y. induction (f c) as [|d r IHr]; [done|].
  change (String d r +:+ x +:+ y = String d ((r +:+ x) +:+ y)).
  change (String d (r +:+ x +:+ y) = String d ((r +:+ x) +:+ y)).
  by rewrite IHr.
Qed.

Lemma replaceDigits_digitFree f v :
  digitFree v = true -> JsString.replaceDigits f v = v.
Proof.
  unfold digitFree. induction v as [|c v IH]; [done|]. cbn.
  intros [Hc Hv]%andb_true_iff. apply negb_true_iff in Hc. rewrite Hc.
  by rewrite IH.
Qed.

Lemma includes_app a b d :
  JsString.includes (a +:+ b) d = JsString.includes a d || JsString.includes b d.
Proof.
  induction a as [|c a IH]; [done|].
  change (String c a +:+ b) with (String c (a +:+ b)).
  cbn [JsString.includes]. by destruct (decide (c = d)).
Qed.

Lemma includes_digitFree v d :
  digitFree v = true -> JsString.isDigit d = true -> JsString.includes v d = false.
Proof.
  unfold digitFree. induction v as [|c v IH]; [done|]. cbn.
  intros [Hc Hv]%andb_true_iff Hd. apply negb_true_iff in Hc.
  destruct (decide (c = d)) as [->|_]; [congruence|by apply IH].
Qed.

(** What [cutMap[digit] || digit] is: the digit itself when the map has no
    entry or an empty one for it, the entry otherwise. *)
Lemma cutDigit_cases (cutMap : gmap string string) d :
  (cutDigit cutMap d = String d "" /\
     (cutMap !! String d "" = None \/ cutMap !! String d "" = Some "")) \/
  (exists letter, cutMap !! String d "" = Some letter /\ letter <> "" /\
     cutDigit cutMap d = letter).
Proof.
  unfold cutDigit. destruct (cutMap !! String d "") as [letter|] eqn:E.
  - destruct (decide (letter = "")) as [->|Hne]; [left; eauto|right; eauto].
  - left. eauto.
Qed.

(** X19: The cut-number transliteration of [send]: with no entry in the map a
    text is what it was. When no letter of the map is a digit, the
    transliterated text has no digit left for which the map has a letter,
    and transliterating it again changes nothing. *)
Theorem cut_numbers_replace_every_mapped_digit (cutMap : gmap string string) text :
  lettersOnly cutMap ->
  cutNumbersOf ∅ text = text /\
  (forall d, JsString.isDigit d = true ->
     JsString.includes (cutNumbersOf cutMap text) d = true ->
     JsString.includes text d = true /\
     (cutMap !! String d "" = None \/ cutMap !! String d "" = Some "")) /\
  cutNumbersOf cutMap (cutNumbersOf cutMap text) = cutNumbersOf cutMap text.
Proof.
  intros Hletters. unfold cutNumbersOf. split; [|split].
  - induction text as [|c text IH]; [done|]. cbn.
    destruct (JsString.isDigit c); by rewrite IH.
  - intros d Hd. induction text as [|c text IH]; [done|].
    cbn [JsString.replaceDigits JsString.includes].
    destruct (JsString.isDigit c) eqn:Hc.
    + rewrite includes_app. intros [Hin|Hin]%orb_true_iff.
      * destruct (cutDigit_cases cutMap c) as [[E Hno]|(letter & Hl & Hne & E)];
          rewrite E in Hin.
        { cbn [JsString.includes] in Hin.
          destruct (decide (c = d)) as [->|_]; [done|discriminate Hin]. }
        specialize (Hletters _ _ Hl). cbn in Hletters.
        by rewrite (includes_digitFree _ _ Hletters Hd) in Hin.
      * destruct (IH Hin) as [Ht Hno]. split; [|done].
        by destruct (decide (c = d)).
    + cbn [JsString.includes].
      destruct (decide (c = d)) as [->|_]; [congruence|]. apply IH.
  - induction text as [|c text IH]; [done|]. cbn.
    destruct (JsString.isDigit c) eqn:Hc.
    + rewrite replaceDigits_app, IH. f_equal.
      destruct (cutDigit_cases cutMap c) as [[E Hno]|(letter & Hl & Hne & E)];
        rewrite E.
      * cbn. rewrite Hc. unfold cutDigit in E |- *.
        destruct Hno as [Hno|Hno]; by rewrite Hno.
      * specialize (Hletters _ _ Hl). cbn in Hletters.
        by apply replaceDigits_digitFree.
    + cbn. by rewrite Hc, IH.
Qed.

End CutLetters.

Lemma cut_numbers_replace_every_mapped_digit_witness :
  cutNumbersOf (cutNumbers Demo.config)
    (cutNumbersOf (cutNumbers Demo.config) " K1ABC 5NN 001")
  = cutNumbersOf (cutNumbers Demo.config) " K1ABC 5NN 001".
Proof.
  apply (cut_numbers_replace_every_mapped_digit (cutNumbers Demo.config)).
  unfold lettersOnly. cbn [cutNumbers Demo.config].
  apply map_Forall_insert_2; [vm_compute; reflexivity|].
  apply map_Forall_insert_2; [vm_compute; reflexivity|].
  apply map_Forall_empty.
Defined.

(** ** The sends and calls in the small world *)

Lemma empty_send_is_cq_witness :
  exec (send (C := Demo.world) (Demo.at_time 0 [Demo.k1abc])) (loaded (C := Demo.world) "contest") =
  if decide (currentStations (loaded (C := Demo.world) "contest") = [])
  then exec (cq (C := Demo.world) (Demo.at_time 0 [Demo.k1abc])) (loaded (C := Demo.world) "contest")
  else (loaded (C := Demo.world) "contest").
Proof. apply (empty_send_is_cq (C := Demo.world)). vm_compute. reflexivity. Defined.

Lemma single_cq_once_witness :
  currentStation (exec (cq (C := Demo.world) (Demo.at_time 0 [])) (loaded (C := Demo.world) "single"))
    <> None /\
  exec (cq (C := Demo.world) (Demo.at_time 60000 []))
    (exec (cq (C := Demo.world) (Demo.at_time 0 [])) (loaded (C := Demo.world) "single"))
  = exec (cq (C := Demo.world) (Demo.at_time 0 [])) (loaded (C := Demo.world) "single").
Proof.
  apply (single_cq_once (C := Demo.world) _ _ _ Demo.singleMode).
  - vm_compute. reflexivity.
  - vm_compute. reflexivity.
  - vm_compute. discriminate.
  - vm_compute. discriminate.
Defined.

Lemma multi_send_counts_one_attempt_witness :
  registryKept Demo.qrs_contest
    (exec (send (C := Demo.world) (Demo.at_time 10000 [])) Demo.qrs_contest) /\
  currentStationAttempts
    (exec (send (C := Demo.world) (Demo.at_time 10000 [])) Demo.qrs_contest) =
    if raises (send (C := Demo.world) (Demo.at_time 10000 [])) Demo.qrs_contest
    then currentStationAttempts Demo.qrs_contest
    else S (currentStationAttempts Demo.qrs_contest).
Proof.
  apply (multi_send_counts_one_attempt (C := Demo.world) _ _ Demo.contestMode).
  - vm_compute. discriminate.
  - vm_compute. discriminate.
  - vm_compute. reflexivity.
  - vm_compute. reflexivity.
  - vm_compute. discriminate.
Defined.

Lemma perfect_match_arms_confirm_witness :
  armed Demo.perfect_contest 0
    (exec (send (C := Demo.world) (Demo.at_time 10000 [])) Demo.perfect_contest).
Proof.
  apply (perfect_match_arms_confirm (C := Demo.world) _ _ Demo.contestMode
           Demo.me_on_air (mkPlayer 0 25 false 25) Demo.config
           [Demo.k1abc_on_air; Scenes.w2xyz_on_air] 0 0%nat Demo.k1abc_on_air
           (mkPlayer 1 20 false 20)).
  - vm_compute. discriminate.
  - vm_compute. repeat split; discriminate.
  - vm_compute. reflexivity.
  - vm_compute. reflexivity.
  - vm_compute. reflexivity.
  - vm_compute. reflexivity.
  - assert (E : currentStations Demo.perfect_contest = [0; 1]%nat)
      by (vm_compute; reflexivity).
    rewrite E. repeat constructor; vm_compute; reflexivity.
  - vm_compute. reflexivity.
  - vm_compute. reflexivity.
  - vm_compute. reflexivity.
  - intros j stn' Hj. lia.
  - vm_compute. reflexivity.
  - vm_compute. reflexivity.
  - vm_compute. reflexivity.
Defined.

Lemma unsure_match_is_acknowledged_witness :
  acknowledged (C := Demo.world) (Demo.at_time 10000 []) Scenes.unsure_contest
    (mkPlayer 0 25 false 25) (mkPlayer 1 20 false 20) 250.
Proof.
  refine (proj1 (unsure_match_is_acknowledged (C := Demo.world)
                   (Demo.at_time 10000 []) Scenes.unsure_contest Demo.contestMode
                   Demo.me_on_air (mkPlayer 0 25 false 25) _ _ _ _ _ _)
            _ [Demo.k1abc_on_air; Scenes.w2xyz_on_air] 0%nat 0%nat
            Demo.k1abc_on_air (mkPlayer 1 20 false 20) _ _ _ _ _).
  - vm_compute. discriminate.
  - vm_compute. repeat split; discriminate.
  - vm_compute. reflexivity.
  - vm_compute. reflexivity.
  - vm_compute. reflexivity.
  - vm_compute. reflexivity.
  - vm_compute. reflexivity.
  - assert (E : currentStations Scenes.unsure_contest = [0; 1]%nat)
      by (vm_compute; reflexivity).
    rewrite E. repeat constructor; vm_compute; reflexivity.
  - vm_compute. reflexivity.
  - vm_compute. reflexivity.
  - vm_compute. reflexivity.
  - vm_compute. reflexivity.
Defined.

Lemma send_sets_the_qrs_targets_witness :
  lastRespondingStations
    (exec (send (C := Demo.world) (Demo.at_time 10000 [])) Scenes.partial_contest)
  = AOwn [0%nat].
Proof.
  destruct (send_sets_the_qrs_targets (C := Demo.world) (Demo.at_time 10000 [])
              Scenes.partial_contest Demo.contestMode Demo.me_on_air
              (mkPlayer 0 25 false 25) [Demo.k1abc_on_air; Scenes.w2xyz_on_air])
    as [_ H].
  - vm_compute. discriminate.
  - vm_compute. reflexivity.
  - vm_compute. reflexivity.
  - vm_compute. discriminate.
  - vm_compute. reflexivity.
  - vm_compute. reflexivity.
  - assert (E : currentStations Scenes.partial_contest = [0; 1]%nat)
      by (vm_compute; reflexivity).
    rewrite E. repeat constructor; vm_compute; reflexivity.
  - destruct H as [H _].
    + vm_compute. repeat split; discriminate.
    + vm_compute. reflexivity.
    + apply (bool_decide_unpack _). vm_compute. exact I.
    + rewrite H. vm_compute. reflexivity.
Defined.

Lemma single_match_logs_and_moves_on_witness :
  singleContactLogged (Demo.at_time 10000 []) Demo.perfect_single Demo.k1abc_on_air
    (exec (send (C := Demo.world) (Demo.at_time 10000 [])) Demo.perfect_single).
Proof.
  apply (single_match_logs_and_moves_on (C := Demo.world) _ _ Demo.singleMode
           Demo.me_on_air (mkPlayer 0 25 false 25) 0%nat Demo.k1abc_on_air
           (mkPlayer 1 20 false 20) (fun _ _ _ => "EE")).
  - vm_compute. discriminate.
  - vm_compute. repeat split; discriminate.
  - vm_compute. reflexivity.
  - vm_compute. reflexivity.
  - vm_compute. reflexivity.
  - vm_compute. reflexivity.
  - vm_compute. reflexivity.
  - vm_compute. reflexivity.
  - vm_compute. reflexivity.
  - vm_compute. reflexivity.
  - vm_compute. reflexivity.
  - vm_compute. reflexivity.
Defined.

Lemma single_qrs_rebuilds_the_player_witness :
  singleQrsDone Demo.qrs_single 0 Demo.k1abc_on_air
    (exec (send (C := Demo.world) (Demo.at_time 10000 [])) Demo.qrs_single).
Proof.
  apply (single_qrs_rebuilds_the_player (C := Demo.world) _ _ Demo.singleMode
           Demo.me_on_air (mkPlayer 0 25 false 25)).
  - vm_compute. discriminate.
  - vm_compute. reflexivity.
  - vm_compute. reflexivity.
  - vm_compute. reflexivity.
  - vm_compute. reflexivity.
  - vm_compute. reflexivity.
  - vm_compute. reflexivity.
  - vm_compute. reflexivity.
Defined.

Lemma contest_cq_adds_stations_witness :
  currentStations
    (exec (cq (C := Demo.world) (Demo.at_time 30000 [Demo.w2xyz])) Demo.contest)
  = (currentStations Demo.contest
       ++ seq (length (heap Demo.contest))
            (length (arrivals (Demo.at_time 30000 [Demo.w2xyz]))))%list.
Proof.
  apply (contest_cq_adds_stations (C := Demo.world) _ _ Demo.contestMode Demo.config).
  - vm_compute. discriminate.
  - vm_compute. reflexivity.
  - vm_compute. reflexivity.
  - vm_compute. reflexivity.
  - assert (E : currentStations Demo.contest = [0; 1]%nat)
      by (vm_compute; reflexivity).
    rewrite E. repeat constructor; vm_compute; lia.
Defined.

Lemma cq_invalid_witness :
  exec (cq (C := Demo.world) (Demo.invalid_at 10000)) (loaded (C := Demo.world) "contest")
  = set_inputs None
      (set_audio (set_noise true (audio (loaded (C := Demo.world) "contest"))) (loaded (C := Demo.world) "contest")).
Proof.
  apply (cq_invalid (C := Demo.world) _ _ Demo.contestMode).
  - vm_compute. discriminate.
  - vm_compute. reflexivity.
  - intros _. vm_compute. reflexivity.
  - vm_compute. reflexivity.
Defined.

Lemma multi_exchange_is_cut_witness :
  textsSince Demo.perfect_contest
    (exec (send (C := Demo.world) (Demo.at_time 10000 [])) Demo.perfect_contest)
  = audible
      [responseFieldText (C := Demo.world) Demo.perfect_contest;
       cutNumbersOf (cutNumbers Demo.config)
         (" " +:+ yourExchange Demo.contestMode Demo.me_on_air Demo.k1abc_on_air None);
       cutNumbersOf (cutNumbers Demo.config)
         (theirExchange Demo.contestMode Demo.me_on_air Demo.k1abc_on_air None)].
Proof.
  apply (multi_exchange_is_cut (C := Demo.world) _ _ Demo.contestMode
           Demo.me_on_air (mkPlayer 0 25 false 25) Demo.config
           [Demo.k1abc_on_air; Scenes.w2xyz_on_air] 0%nat 0%nat Demo.k1abc_on_air
           (mkPlayer 1 20 false 20)).
  - vm_compute. discriminate.
  - vm_compute. repeat split; discriminate.
  - vm_compute. reflexivity.
  - vm_compute. reflexivity.
  - vm_compute. reflexivity.
  - vm_compute. reflexivity.
  - assert (E : currentStations Demo.perfect_contest = [0; 1]%nat)
      by (vm_compute; reflexivity).
    rewrite E. repeat constructor; vm_compute; reflexivity.
  - vm_compute. reflexivity.
  - vm_compute. reflexivity.
  - vm_compute. reflexivity.
  - vm_compute. reflexivity.
  - vm_compute. reflexivity.
  - vm_compute. reflexivity.
  - vm_compute. reflexivity.
Defined.

(** ** Settings kept in local storage *)

Section Reload.
Import Persistence.

Variable sanitize : Element -> string -> string.

Lemma assignChecked_lookup i b els j :
  assignChecked i b els !! j =
  match els !! i with
  | None => els !! j
  | Some el =>
      (fun e => if decide (j = i) then set_checked b e
                else if b && sameGroup el e then set_checked false e
                else e) <$> els !! j
  end.
Proof.
  unfold assignChecked. destruct (els !! i) as [el|]; [|done].
  by rewrite list_lookup_imap.
Qed.

(** A step of the [forEach] leaves an element that is no radio button as
    it is, unless it is the step of this element. *)
Lemma loadSaved_other storage els i j e :
  els !! i = Some e -> el_type e <> Radio -> j <> i ->
  loadSaved sanitize storage els j !! i = Some e.
Proof.
  intros Hi Ht Hne. unfold loadSaved.
  destruct (els !! j) as [el|] eqn:Hj; [|done].
  destruct (decide (el_id el = "")); [done|].
  destruct (storage !! el_id el) as [saved|]; [|done].
  destruct (isToggle el).
  - rewrite assignChecked_lookup, Hj, Hi. cbn.
    rewrite decide_False by done.
    assert (sameGroup el e = false) as ->.
    { unfold sameGroup. destruct (el_type el), (el_type e); done. }
    by rewrite andb_false_r.
  - unfold assignValue. by rewrite list_lookup_alter_ne.
Qed.

Lemma loadSaved_others storage js els i e :
  els !! i = Some e -> el_type e <> Radio -> i ∉ js ->
  foldl (loadSaved sanitize storage) els js !! i = Some e.
Proof.
  revert els. induction js as [|j js IH]; intros els Hi Ht Hnot; [done|].
  cbn [foldl]. apply IH; [|done|].
  - apply loadSaved_other; [done|done|]. intros ->. apply Hnot. by left.
  - intros Hin. apply Hnot. by right.
Qed.

(** The step of an element that is no radio button. *)
Lemma loadSaved_own storage els i el0 el :
  els !! i = Some el0 -> el_id el0 <> "" -> el_type el0 <> Radio ->
  sameElement el el0 ->
  (isToggle el0 = false -> sanitize el0 (el_value el) = el_value el) ->
  storage !! el_id el0 = Some (valueToStore el) \/
    (storage !! el_id el0 = None /\ setting el = setting el0) ->
  exists el', loadSaved sanitize storage els i !! i = Some el' /\
    sameElement el' el0 /\ setting el' = setting el.
Proof.
  intros Hi Hid Ht (Hsi & Hst & Hsg) Hsan Hstore. unfold loadSaved.
  rewrite Hi. rewrite decide_False by done.
  destruct Hstore as [Hs|[Hs Hset]].
  - rewrite Hs. unfold valueToStore, setting, isToggle. rewrite Hst.
    destruct (el_type el0) eqn:Hty; [|done|].
    + rewrite assignChecked_lookup, Hi. cbn. rewrite decide_True by done.
      eexists. split; [reflexivity|]. split; [done|].
      unfold setting, isToggle. cbn. rewrite Hty.
      by destruct (el_checked el).
    + unfold assignValue. rewrite list_lookup_alter_eq, Hi. cbn.
      eexists. split; [reflexivity|]. split; [done|].
      unfold setting, isToggle. cbn. rewrite Hty. rewrite Hsan; [done|].
      unfold isToggle. by rewrite Hty.
  - rewrite Hs. exists el0. split; [done|]. split; [done|]. done.
Qed.

(** X20: A setting that is no radio button survives a reload. Let an
    element with an id be a check box or an element with a value; let the
    storage hold under its id what its listener stored when the element was
    last changed, or nothing while the element is as the page declares it.
    Then [setupDynamicPersistence] on the newly loaded page leaves the
    element with the setting it had. A value is assumed to be one the
    element keeps as it is when it is assigned. *)
Theorem settings_survive_reload (storage : Storage) (fresh : list Element)
    (i : nat) (el0 el : Element) :
  fresh !! i = Some el0 -> el_id el0 <> "" -> el_type el0 <> Radio ->
  sameElement el el0 ->
  (isToggle el0 = false -> sanitize el0 (el_value el) = el_value el) ->
  storage !! el_id el0 = Some (valueToStore el) \/
    (storage !! el_id el0 = None /\ setting el = setting el0) ->
  exists el', setupDynamicPersistence sanitize storage fresh !! i = Some el' /\
    sameElement el' el0 /\ setting el' = setting el.
Proof.
  intros Hi Hid Ht Hsame Hsan Hstore. unfold setupDynamicPersistence.
  pose proof (lookup_lt_Some _ _ _ Hi) as Hlt.
  assert (Hseq : seq 0 (length fresh)
                 = (seq 0 i ++ i :: seq (S i) (length fresh - S i))%list).
  { replace (length fresh) with (i + S (length fresh - S i))%nat at 1 by lia.
    by rewrite seq_app. }
  rewrite Hseq, foldl_app. cbn [foldl].
  set (before := foldl (loadSaved sanitize storage) fresh (seq 0 i)).
  assert (Hb : before !! i = Some el0).
  { apply loadSaved_others; [done|done|]. rewrite elem_of_seq. lia. }
  destruct (loadSaved_own storage before i el0 el Hb Hid Ht Hsame Hsan Hstore)
    as (el' & Hel' & Hsame' & Hset).
  exists el'. split; [|done].
  apply loadSaved_others; [done| |rewrite elem_of_seq; lia].
  destruct Hsame' as (_ & -> & _). done.
Qed.

End Reload.

Lemma settings_survive_reload_witness :
  exists el',
    Persistence.setupDynamicPersistence Persistence.asTyped
      {[ "farnsworthSpeed" := "12"; "slow" := "true" ]} Persistence.page
      !! 1%nat = Some el' /\
    Persistence.sameElement el'
      (Persistence.mkElement "farnsworthSpeed" Persistence.OtherType "" false "10") /\
    Persistence.setting el' = inr "12".
Proof.
  apply (settings_survive_reload Persistence.asTyped _ _ 1%nat
           (Persistence.mkElement "farnsworthSpeed" Persistence.OtherType "" false "10")
           (Persistence.mkElement "farnsworthSpeed" Persistence.OtherType "" false "12")).
  - reflexivity.
  - discriminate.
  - discriminate.
  - by repeat split.
  - intros _. reflexivity.
  - left. vm_compute. reflexivity.
Defined.

(** The setting of a group of radio buttons need not survive. The trainee
    checks [fast], then [slow]: each listener has stored [true], since the
    button that is unchecked by the other gets no [change] event. On the
    newly loaded page [setupDynamicPersistence] checks [slow], then [fast],
    which unchecks [slow]: the page shows [fast], the trainee had left
    [slow]. *)
Example radio_setting_lost :
  let left_ := Persistence.checkRadio 3 (Persistence.checkRadio 4 (Persistence.page, ∅)) in
  (Persistence.el_checked <$> fst left_) = [false; false; false; true; false] /\
  (Persistence.el_checked <$>
     Persistence.setupDynamicPersistence Persistence.asTyped (snd left_) Persistence.page)
  = [false; false; false; false; true].
Proof. cbv zeta. split; vm_compute; reflexivity. Qed.
